(** * xingrin dashboard: response parsing, API client, data table, log viewer

    A shallow embedding of the pure logic of the dashboard front end:
    - [lib/response-parser]  (error envelopes, [getErrorCode], [parseResponse]);
    - [lib/api-client]       (the 401 branch of the response interceptor);
    - [lib/table-utils]      ([calculateColumnWidths]);
    - [UnifiedDataTable]     (pagination handler, row filter, selection and
                              auto-sizing effects);
    - [AnsiLogViewer]        (level filter, colourizer, search highlighting);
    - [EndpointsDataTable], [ScreenshotsGallery], [ScanLogList],
      [ScanOverview]         (pagination wrappers, selection, the log text
                              and its cache, stage durations);
    - [hooks/use-auth], [hooks/use-commands]
                             (error toasts, the mock command listing).

    Definitions come first, one module per source file; the theorems follow. *)

From Stdlib Require Import ZArith QArith Qround Qminmax Lia Lqa.
From stdpp Require Import base option list strings gmap fin_maps pretty.

Set Default Proof Using "Type".
Set Warnings "-register-all".

Open Scope string_scope.
Open Scope nat_scope.
Open Scope list_scope.

(* ===================================================================== *)
(** * JavaScript values *)
(* ===================================================================== *)

Module Js.

(** The values a JSON body (or a missing one) can be.  Objects keep their
    properties in a list; the first binding of a key is the property. *)
Inductive JsValue : Type :=
| JUndefined
| JNull
| JBool (b : bool)
| JNumber (n : Z)
| JString (s : string)
| JArray (items : list JsValue)
| JObject (fields : list (string * JsValue)).

(** [typeof v] *)
Definition typeof (v : JsValue) : string :=
  match v with
  | JUndefined => "undefined"
  | JNull => "object"
  | JBool _ => "boolean"
  | JNumber _ => "number"
  | JString _ => "string"
  | JArray _ => "object"
  | JObject _ => "object"
  end.

Fixpoint assoc (k : string) (fields : list (string * JsValue)) : option JsValue :=
  match fields with
  | [] => None
  | (k', v) :: rest => if String.eqb k k' then Some v else assoc k rest
  end.

(** The index an array property name denotes, if it is one of the array's. *)
Definition arrayIndex (k : string) (items : list JsValue) : option nat :=
  List.find (fun i => String.eqb (pretty i) k) (seq 0 (length items)).

(** [k in v].  Own properties only: none of the names the front end probes
    (error, state, code, total, page) lives on [Object.prototype] or
    [Array.prototype].  On a primitive the operator throws; every use in
    the sources is guarded by [typeof v === 'object' && v !== null]. *)
Definition hasProperty (k : string) (v : JsValue) : bool :=
  match v with
  | JObject fields => bool_decide (is_Some (assoc k fields))
  | JArray items => String.eqb k "length" || bool_decide (is_Some (arrayIndex k items))
  | _ => false
  end.

(** [v.k] (or [v[k]]) on a non-nullish value. *)
Definition getProperty (k : string) (v : JsValue) : JsValue :=
  match v with
  | JObject fields => default JUndefined (assoc k fields)
  | JArray items =>
      if String.eqb k "length" then JNumber (Z.of_nat (length items))
      else match arrayIndex k items with
           | Some i => default JUndefined (items !! i)
           | None => JUndefined
           end
  | _ => JUndefined
  end.

(** [v === null], [v === undefined], [v == null] *)
Definition isNull (v : JsValue) : bool :=
  match v with JNull => true | _ => false end.
Definition isUndefined (v : JsValue) : bool :=
  match v with JUndefined => true | _ => false end.
Definition isNullish (v : JsValue) : bool := isNull v || isUndefined v.

(** [a ?? b] *)
Definition nullish (a b : JsValue) : JsValue := if isNullish a then b else a.

(** [typeof v === 'object' && v !== null] *)
Definition isObjectLike (v : JsValue) : bool :=
  String.eqb (typeof v) "object" && negb (isNull v).

(** [typeof v === 'string'] *)
Definition isString (v : JsValue) : bool := String.eqb (typeof v) "string".

(** [ToBoolean]: what [if (v)], [v || w] and [v && w] test ([NaN] is not
    among the modelled numbers) *)
Definition toBoolean (v : JsValue) : bool :=
  match v with
  | JUndefined | JNull => false
  | JBool b => b
  | JNumber n => negb (n =? 0)%Z
  | JString s => negb (String.eqb s "")
  | JArray _ | JObject _ => true
  end.

(** [v === s] for a string literal [s] *)
Definition strictEqualsString (v : JsValue) (s : string) : bool :=
  match v with
  | JString t => String.eqb t s
  | _ => false
  end.

(** [v?.k]: [undefined] on [null] and [undefined], the property
    otherwise *)
Definition optionalProperty (k : string) (v : JsValue) : JsValue :=
  if isNullish v then JUndefined else getProperty k v.

(** What evaluating an expression comes to: a value, or the [TypeError]
    of a property read on [null] or [undefined]. *)
Inductive Completion : Type :=
| Returns (v : JsValue)
| ThrowsTypeError.

(** ** Property reads through the prototype chain *)

(** The prototype that the property reads of a value fall back to. *)
Inductive Prototype : Type :=
| ObjectPrototype
| ArrayPrototype
| StringPrototype
| NumberPrototype
| BooleanPrototype.

(** [null] and [undefined] have none: a property read on them throws. *)
Definition prototypeOf (v : JsValue) : option Prototype :=
  match v with
  | JUndefined | JNull => None
  | JBool _ => Some BooleanPrototype
  | JNumber _ => Some NumberPrototype
  | JString _ => Some StringPrototype
  | JArray _ => Some ArrayPrototype
  | JObject _ => Some ObjectPrototype
  end.

(** What a property read finds: a data value ([undefined] when there is
    no such property at all), one of the engine's built-in methods, of
    which only the text [String(f)] is ever taken, or the prototype
    itself, which is what the inherited accessor [__proto__] returns. *)
Inductive Property : Type :=
| Data (v : JsValue)
| Method (text : string)
| PrototypeObject (p : Prototype).

(** What the engine supplies.  [methodText p k] is [String(f)] for the
    method [f] that values with prototype [p] inherit under the name [k]
    (from [p] or from [Object.prototype] behind it), if there is one;
    [largeNumberToString n] is [String(n)] for a number beyond the safe
    integers; [plus a b] is [a + b] on numbers, as the engine rounds it. *)
Record Engine : Type := {
  methodText : Prototype -> string -> option string;
  largeNumberToString : Z -> string;
  plus : Q -> Q -> Q;
}.

(** The index a property name denotes in a string, if it is one of the
    string's.  A character of a string is one code unit. *)
Definition stringIndex (k : string) (s : string) : option nat :=
  List.find (fun i => String.eqb (pretty i) k) (seq 0 (String.length s)).

(** The own property [k] of a value: a field of an object, an element or
    the length of an array, a character or the length of a string. *)
Definition ownProperty (k : string) (v : JsValue) : option JsValue :=
  match v with
  | JObject fields => assoc k fields
  | JArray items =>
      if String.eqb k "length" then Some (JNumber (Z.of_nat (length items)))
      else match arrayIndex k items with
           | Some i => items !! i
           | None => None
           end
  | JString s =>
      if String.eqb k "length" then Some (JNumber (Z.of_nat (String.length s)))
      else match stringIndex k s with
           | Some i =>
               match String.get i s with
               | Some c => Some (JString (String c EmptyString))
               | None => None
               end
           | None => None
           end
  | _ => None
  end.

(** [v[k]]: the own property, else what the prototype chain has under
    [k].  [None] is the [TypeError] of a read on [null] or [undefined]. *)
Definition readProperty (engine : Engine) (k : string) (v : JsValue) : option Property :=
  match prototypeOf v with
  | None => None
  | Some p =>
      Some match ownProperty k v with
           | Some x => Data x
           | None =>
               if String.eqb k "__proto__" then PrototypeObject p
               else match methodText engine p k with
                    | Some text => Method text
                    | None => Data JUndefined
                    end
           end
  end.

(** [o[k] = v] on a plain object [o] (made by [{}]) for a primitive [v],
    [o] being given by its own properties: the inherited setter
    [__proto__] ignores a primitive, and no property is made. *)
Definition assign {A : Type} (k : string) (v : A) (o : gmap string A) : gmap string A :=
  if String.eqb k "__proto__" then o else <[k := v]> o.

(** ** Conversion to a string *)

(** The largest safe integer, [2^53 - 1] *)
Definition MAX_SAFE_INTEGER : Z := 9007199254740991.

(** [String(n)] for a number: its decimal digits up to the safe
    integers, the engine's shortest round-trip form beyond them. *)
Definition numberToString (engine : Engine) (n : Z) : string :=
  if (Z.abs n <=? MAX_SAFE_INTEGER)%Z then pretty n
  else largeNumberToString engine n.

(** [String(v)].  An array joins its elements with commas, [null] and
    [undefined] reading as nothing; an object reads [[object Object]]
    through the inherited [toString], unless it has a property
    [toString] of its own, which as data is not callable: the conversion
    then finds no primitive and throws a [TypeError] ([None]). *)
Fixpoint toStringJs (engine : Engine) (v : JsValue) : option string :=
  match v with
  | JUndefined => Some "undefined"
  | JNull => Some "null"
  | JBool b => Some (if b then "true" else "false")
  | JNumber n => Some (numberToString engine n)
  | JString s => Some s
  | JArray items =>
      String.concat "," <$>
        (fix elements (items : list JsValue) : option (list string) :=
           match items with
           | [] => Some []
           | x :: rest =>
               match (if isNullish x then Some "" else toStringJs engine x) with
               | Some s => (fun strings => s :: strings) <$> elements rest
               | None => None
               end
           end) items
  | JObject fields =>
      match assoc "toString" fields with
      | Some _ => None
      | None => Some "[object Object]"
      end
  end.

(** The text of an element in [join] *)
Definition elementToString (engine : Engine) (x : JsValue) : option string :=
  if isNullish x then Some "" else toStringJs engine x.

(** [items.join(sep)] *)
Fixpoint elementStrings (engine : Engine) (items : list JsValue) : option (list string) :=
  match items with
  | [] => Some []
  | x :: rest =>
      match elementToString engine x with
      | Some s => (fun strings => s :: strings) <$> elementStrings engine rest
      | None => None
      end
  end.
Definition join (engine : Engine) (sep : string) (items : list JsValue) : option string :=
  String.concat sep <$> elementStrings engine items.

(** [String(p)] for a prototype object: [Object.prototype] reads like any
    plain object; the others are an empty array, an empty string, the
    number 0 and the boolean false. *)
Definition prototypeToString (p : Prototype) : string :=
  match p with
  | ObjectPrototype => "[object Object]"
  | ArrayPrototype => ""
  | StringPrototype => ""
  | NumberPrototype => "0"
  | BooleanPrototype => "false"
  end.


End Js.

(* ===================================================================== *)
(** * lib/response-parser *)
(* ===================================================================== *)

Module ResponseParser.
Import Js.

Definition isErrorResponse (response : JsValue) : bool :=
  isObjectLike response
  && hasProperty "error" response
  && String.eqb (typeof (getProperty "error" response)) "object"
  && negb (isNull (getProperty "error" response))
  && isString (getProperty "code" (getProperty "error" response)).

Definition isSuccessResponse (response : JsValue) : bool :=
  if negb (String.eqb (typeof response) "object") || isNull response then false
  else if hasProperty "error" response then false
  else true.

Definition isLegacyResponse (response : JsValue) : bool :=
  isObjectLike response
  && hasProperty "state" response
  && hasProperty "code" response
  && isString (getProperty "state" response).

(** [response.state !== 'success'] *)
Definition isLegacyErrorResponse (response : JsValue) : bool :=
  match getProperty "state" response with
  | JString s => negb (String.eqb s "success")
  | _ => true
  end.

(** The result is the data, with [JNull] for [null]. *)
Definition parseResponse (response : JsValue) : JsValue :=
  if isNull response || isUndefined response then JNull
  else if isErrorResponse response then JNull
  else if isLegacyResponse response then
    if isLegacyErrorResponse response then JNull
    else nullish (getProperty "data" response) JNull
  else response.

(** [None] is [null].  In the first branch [isErrorResponse] has checked
    that [response.error.code] is a string. *)
Definition getErrorCode (response : JsValue) : option string :=
  if isErrorResponse response then
    match getProperty "code" (getProperty "error" response) with
    | JString code => Some code
    | _ => None
    end
  else if isLegacyResponse response && isLegacyErrorResponse response then
    Some "SERVER_ERROR"
  else None.

(** [getErrorMessage]: the message, with [JNull] for [null].  In the
    legacy branch the value under [message] is returned as it is found. *)
Definition getErrorMessage (response : JsValue) : JsValue :=
  if isErrorResponse response then
    nullish (getProperty "message" (getProperty "error" response)) JNull
  else if isLegacyResponse response && isLegacyErrorResponse response then
    getProperty "message" response
  else JNull.

(** The fields are the values found, as they are found (the casts of the
    source convert nothing). *)
Record PaginationMeta : Type := {
  total : JsValue;
  page : JsValue;
  pageSize : JsValue;
  totalPages : JsValue;
}.

(** [None] is [null]. *)
Definition getPaginationMeta (response : JsValue) : option PaginationMeta :=
  if isObjectLike response && hasProperty "total" response
     && hasProperty "page" response
  then
    Some {| total := getProperty "total" response;
            page := getProperty "page" response;
            pageSize := nullish (getProperty "pageSize" response)
                          (getProperty "page_size" response);
            totalPages := nullish (getProperty "totalPages" response)
                            (getProperty "total_pages" response) |}
  else None.

End ResponseParser.

(* ===================================================================== *)
(** * lib/api-client: the response interceptor's error handler *)
(* ===================================================================== *)

Module ApiClient.

(** [s.includes(sub)] *)
Fixpoint includes (sub s : string) : bool :=
  String.prefix sub s
  || match s with
     | EmptyString => false
     | String _ rest => includes sub rest
     end.

(** [sub] occurs in [s]. *)
Definition Contains (sub s : string) : Prop :=
  exists pre post, s = pre +:+ sub +:+ post.

(** What the handler reads of the rejected value: whether
    [axios.isAxiosError] accepts it, [error.response?.status] and
    [error.config?.url] ([None] is [undefined]). *)
Record AxiosError : Type := {
  isAxiosError : bool;
  responseStatus : option Z;
  configUrl : option string;
}.

(** What the handler leaves behind: the value assigned to
    [window.location.href], if any, and the rejection it returns. *)
Record Outcome : Type := {
  redirect : option string;
  rejected : AxiosError;
}.

(** [error.config?.url || ''] *)
Definition requestUrl (error : AxiosError) : string :=
  match configUrl error with
  | Some u => if String.eqb u "" then "" else u
  | None => ""
  end.

Definition isAuthApi (url : string) : bool :=
  includes "/auth/login" url
  || includes "/auth/logout" url
  || includes "/auth/me" url.

(** The second argument of [apiClient.interceptors.response.use]; the
    development-only console output is left out.  [windowDefined] is
    [typeof window !== 'undefined']. *)
Definition onResponseError (windowDefined : bool) (error : AxiosError) : Outcome :=
  let target :=
    if isAxiosError error && bool_decide (responseStatus error = Some 401%Z) then
      let url := requestUrl error in
      if negb (isAuthApi url) && windowDefined then Some "/login" else None
    else None in
  {| redirect := target; rejected := error |}.

(** ** [getErrorMessage] of the client *)

Section Cancel.

(** [axios.isCancel] *)
Variable isCancel : Js.JsValue -> bool.

(** [err.response?.data?.k] *)
Definition responseDataField (k : string) (err : Js.JsValue) : Js.JsValue :=
  Js.optionalProperty k
    (Js.optionalProperty "data" (Js.getProperty "response" err)).

(** The message shown for a failed request.  Reading [err.code] throws on
    [null] and [undefined]. *)
Definition getErrorMessage (error : Js.JsValue) : Js.Completion :=
  if isCancel error then Js.Returns (Js.JString "Request has been cancelled")
  else if Js.isNullish error then Js.ThrowsTypeError
  else if Js.strictEqualsString (Js.getProperty "code" error) "ECONNABORTED" then
    Js.Returns (Js.JString "Request timeout, please try again later")
  else if Js.toBoolean (responseDataField "error" error) then
    Js.Returns (responseDataField "error" error)
  else if Js.toBoolean (responseDataField "message" error) then
    Js.Returns (responseDataField "message" error)
  else if Js.toBoolean (responseDataField "detail" error) then
    Js.Returns (responseDataField "detail" error)
  else if Js.toBoolean (Js.getProperty "message" error) then
    Js.Returns (Js.getProperty "message" error)
  else Js.Returns (Js.JString "Unknown error occurred").

End Cancel.

End ApiClient.

(* ===================================================================== *)
(** * Regular expressions (the fragment the sources use) *)
(* ===================================================================== *)

Module Regex.

(** Text is a sequence of Unicode code points. *)
Definition Text : Type := list N.

Definition codepoints (s : string) : Text :=
  map Ascii.N_of_ascii (String.list_ascii_of_string s).

Definition Caps : Type := list (nat * Text).

Fixpoint capture (i : nat) (caps : Caps) : option Text :=
  match caps with
  | [] => None
  | (j, t) :: rest => if Nat.eqb i j then Some t else capture i rest
  end.

Inductive Re : Type :=
| Eps
| Chr (c : N)
| Cls (p : N -> bool)
| Seq (a b : Re)
| Alt (a b : Re)
| Star (a : Re)
| Group (i : nat) (a : Re)
| Eol.

(** Character classes *)
Definition inRange (lo hi c : N) : bool := (lo <=? c)%N && (c <=? hi)%N.
Definition isDigit (c : N) : bool := inRange 48 57 c.
Definition isUpper (c : N) : bool := inRange 65 90 c.
Definition isLower (c : N) : bool := inRange 97 122 c.
Definition isWord (c : N) : bool := isDigit c || isUpper c || isLower c || (c =? 95)%N.
Definition isLineTerminator (c : N) : bool :=
  (c =? 10)%N || (c =? 13)%N || (c =? 8232)%N || (c =? 8233)%N.
(** [\s]: white space and line terminators *)
Definition isSpace (c : N) : bool :=
  inRange 9 13 c || (c =? 32)%N || (c =? 160)%N || (c =? 5760)%N
  || inRange 8192 8202 c || (c =? 8232)%N || (c =? 8233)%N || (c =? 8239)%N
  || (c =? 8287)%N || (c =? 12288)%N || (c =? 65279)%N.
Definition oneOf (cs : Text) (c : N) : bool := existsb (N.eqb c) cs.

(** Flags: [i] and [u]. *)
Record Flags : Type := { ignoreCase : bool; unicode : bool }.

(** Canonicalize of the [i] flag on the characters that can meet an ASCII
    letter of a pattern: ASCII letters fold together; with [u] the long s
    and the Kelvin sign fold to s and k as well.  Every letter that the
    sources' [i] patterns contain is ASCII. *)
Definition canonicalize (fl : Flags) (c : N) : N :=
  if negb (ignoreCase fl) then c
  else if isLower c then (c - 32)%N
  else if unicode fl && (c =? 383)%N then 83%N
  else if unicode fl && (c =? 8490)%N then 75%N
  else c.

Definition sameChar (fl : Flags) (a b : N) : bool :=
  (canonicalize fl a =? canonicalize fl b)%N.

(** Greedy repetition of [body]: as many rounds as possible, each
    consuming at least one character, then [k]; fewer rounds when [k]
    refuses.  [fuel] bounds the rounds and is the length of the input. *)
Fixpoint starLoop {A : Type}
    (body : Text -> Caps -> (Text -> Caps -> option A) -> option A)
    (k : Text -> Caps -> option A) (fuel : nat) (s : Text) (caps : Caps)
    {struct fuel} : option A :=
  match fuel with
  | O => k s caps
  | S fuel' =>
      match body s caps
              (fun s' caps' =>
                 if length s' <? length s then starLoop body k fuel' s' caps'
                 else None) with
      | Some x => Some x
      | None => k s caps
      end
  end.

(** Backtracking matcher in continuation-passing style: [run fl r s caps k]
    matches [r] at the head of [s], trying the alternatives in the order a
    backtracking engine does (left alternative first, greedy repetition),
    and hands what is left of [s] to [k]; the first way [k] accepts wins. *)
Fixpoint run {A : Type} (fl : Flags) (r : Re) (s : Text) (caps : Caps)
    (k : Text -> Caps -> option A) {struct r} : option A :=
  match r with
  | Eps => k s caps
  | Chr c =>
      match s with
      | d :: s' => if sameChar fl c d then k s' caps else None
      | [] => None
      end
  | Cls p =>
      match s with
      | d :: s' => if p d then k s' caps else None
      | [] => None
      end
  | Seq a b => run fl a s caps (fun s' caps' => run fl b s' caps' k)
  | Alt a b =>
      match run fl a s caps k with
      | Some x => Some x
      | None => run fl b s caps k
      end
  | Star a => starLoop (run fl a) k (length s) s caps
  | Group i a =>
      run fl a s caps
        (fun s' caps' => k s' ((i, take (length s - length s') s) :: caps'))
  | Eol => match s with [] => k s caps | _ => None end
  end.

(** Derived forms *)
Definition Plus (a : Re) : Re := Seq a (Star a).
Definition Opt (a : Re) : Re := Alt a Eps.
Fixpoint Times (n : nat) (a : Re) : Re :=
  match n with O => Eps | S n' => Seq a (Times n' a) end.
Definition AtLeast (n : nat) (a : Re) : Re := Seq (Times n a) (Star a).
Fixpoint Lit (t : Text) : Re :=
  match t with [] => Eps | c :: t' => Seq (Chr c) (Lit t') end.
Definition Str (s : string) : Re := Lit (codepoints s).
Fixpoint Cat (rs : list Re) : Re :=
  match rs with [] => Eps | r :: rs' => Seq r (Cat rs') end.
Fixpoint AnyOf (rs : list Re) : Re :=
  match rs with
  | [] => Cls (fun _ => false)
  | [r] => r
  | r :: rs' => Alt r (AnyOf rs')
  end.
(** [.] without the [s] flag *)
Definition Dot : Re := Cls (fun c => negb (isLineTerminator c)).
Definition Digit : Re := Cls isDigit.

(** The literal [p] matches at the head of [s] (under the flags). *)
Fixpoint prefixMatches (fl : Flags) (p s : Text) : bool :=
  match p, s with
  | [], _ => true
  | c :: p', d :: s' => sameChar fl c d && prefixMatches fl p' s'
  | _ :: _, [] => false
  end.

(** The pattern has no capture group. *)
Fixpoint groupFree (r : Re) : bool :=
  match r with
  | Eps | Chr _ | Cls _ | Eol => true
  | Seq a b | Alt a b => groupFree a && groupFree b
  | Star a => groupFree a
  | Group _ _ => false
  end.

(** A match at the start of the input: the matched text, the rest and the
    captures.  For a pattern that begins with [^] (and has no [m] flag)
    this is [s.match(re)]. *)
Definition matchPrefix (fl : Flags) (r : Re) (s : Text) : option (Text * Text * Caps) :=
  run fl r s [] (fun s' caps => Some (take (length s - length s') s, s', caps)).

Definition test (fl : Flags) (r : Re) (s : Text) : bool :=
  bool_decide (is_Some (matchPrefix fl r s)).

(** The pieces a global scan cuts a text into: a character no match starts
    at, or a match with its captures. *)
Inductive Piece : Type :=
| Plain (c : N)
| Hit (m : Text) (caps : Caps).

(** [lastIndex] walk of a global regular expression: at each position the
    match starting there, if any, is taken and the scan resumes after it (one
    character further after an empty match). *)
Fixpoint scan (fl : Flags) (r : Re) (fuel : nat) (s : Text) : list Piece :=
  match fuel with
  | O => []
  | S fuel' =>
      match matchPrefix fl r s with
      | Some (m, rest, caps) =>
          match m, s with
          | [], c :: s' => Hit [] caps :: Plain c :: scan fl r fuel' s'
          | [], [] => [Hit [] caps]
          | _, _ => Hit m caps :: scan fl r fuel' rest
          end
      | None =>
          match s with
          | [] => []
          | c :: s' => Plain c :: scan fl r fuel' s'
          end
      end
  end.

Definition pieces (fl : Flags) (r : Re) (s : Text) : list Piece :=
  scan fl r (S (length s)) s.

(** The pieces put together again, each match replaced by [f] of the match
    and its captures. *)
Definition renderPieces (f : Text -> Caps -> Text) (ps : list Piece) : Text :=
  flat_map (fun p => match p with Plain c => [c] | Hit m caps => f m caps end) ps.

(** [s.replace(re, f)] for a global [re] and a replacer function [f] of the
    match and its captures. *)
Definition replaceAll (fl : Flags) (r : Re) (f : Text -> Caps -> Text) (s : Text) : Text :=
  renderPieces f (pieces fl r s).

(** The text a list of pieces was cut from. *)
Definition pieceText (p : Piece) : Text :=
  match p with Plain c => [c] | Hit m _ => m end.
Definition piecesText (ps : list Piece) : Text := flat_map pieceText ps.

(** A state of the matcher within a subject: the text left is an end of
    the subject and every capture is a part of it. *)
Definition Within (subject : Text) (s : Text) (caps : Caps) : Prop :=
  (exists before, subject = before ++ s)
  /\ Forall (fun ic : nat * Text => exists a b, subject = a ++ ic.2 ++ b) caps.

End Regex.

(* ===================================================================== *)
(** * lib/table-utils *)
(* ===================================================================== *)

Module TableUtils.
Import Js.

(** [/^\d{4}-\d{2}-\d{2}T\d{2}:\d{2}:\d{2}/] *)
Definition isoDatePattern : Regex.Re :=
  Regex.Cat
    [Regex.Times 4 Regex.Digit; Regex.Str "-"; Regex.Times 2 Regex.Digit;
     Regex.Str "-"; Regex.Times 2 Regex.Digit; Regex.Str "T";
     Regex.Times 2 Regex.Digit; Regex.Str ":"; Regex.Times 2 Regex.Digit;
     Regex.Str ":"; Regex.Times 2 Regex.Digit].

Definition isISODateString (value : string) : bool :=
  Regex.test {| Regex.ignoreCase := false; Regex.unicode := false |}
    isoDatePattern (Regex.codepoints value).

(** A column definition, as far as the width calculation and the table's
    header labels read it ([title] is [meta?.title]).  Pixel sizes and
    widths are the finite numbers, given as rationals: comparing, taking
    the larger or the smaller and rounding up are exact on them, and the
    one addition is the engine's [plus]. *)
Record ColumnDef : Type := {
  accessorKey : option string;
  id : option string;
  size : option Q;
  minSize : option Q;
  maxSize : option Q;
  enableAutoSize : option bool;
  title : option string;
}.

(** The options; [headerLabels] is a plain object, given by its own
    properties. *)
Record CalculateColumnWidthsOptions : Type := {
  data : list JsValue;
  columns : list ColumnDef;
  font : option string;
  cellPadding : option Q;
  headerFont : option string;
  headerLabels : option (gmap string string);
  maxSampleRows : option Z;
  locale : option string;
}.

(** Truthiness of an optional string and of an optional number *)
Definition truthyString (o : option string) : option string :=
  match o with
  | Some s => if String.eqb s "" then None else Some s
  | None => None
  end.
Definition truthyNumber (o : option Q) : option Q :=
  match o with
  | Some q => if Qeq_bool q 0 then None else Some q
  | None => None
  end.

(** [column.accessorKey || column.id], when truthy *)
Definition columnId (column : ColumnDef) : option string :=
  match truthyString (accessorKey column) with
  | Some k => Some k
  | None => truthyString (id column)
  end.

(** [rows.slice(0, count)]: a negative [count] counts from the end. *)
Definition slice {A : Type} (count : Z) (rows : list A) : list A :=
  let len := Z.of_nat (length rows) in
  let final := if (count <? 0)%Z then Z.max (len + count) 0 else Z.min count len in
  take (Z.to_nat final) rows.

(** What the inner loop does with a cell: it measures a text, or goes on
    to the next row. *)
Inductive Cell : Type :=
| Measured (textValue : string)
| Skipped.

(** A column takes part in the result when it has a key and either is
    auto-sized or has a [size] that is truthy. *)
Definition Contributes (column : ColumnDef) (key : string) : Prop :=
  columnId column = Some key
  /\ (enableAutoSize column <> Some false \/ is_Some (truthyNumber (size column))).

Section Measure.

(** The engine; the canvas: [measureText font text] is
    [ctx.measureText(text).width] after [ctx.font = font]; and the host's
    date formatting: [toLocaleString date locale] is
    [new Date(date).toLocaleString(locale, ...)], [None] when it throws. *)
Variable engine : Engine.
Variable measureText : string -> string -> Q.
Variable toLocaleString : string -> string -> option string.

Definition measureTextWidth (text : string) (font : string) : Q :=
  measureText font text.

Definition formatDateForMeasurement (dateString locale : string) : string :=
  default dateString (toLocaleString dateString locale).

(** [headerLabels[columnId] || columnId], as the text the canvas gets.
    An own label counts when it is not empty.  Without one the read goes
    to [Object.prototype]: a method found there is truthy and is measured
    as its text, and so is [Object.prototype] itself under [__proto__]. *)
Definition headerLabel (headerLabels : gmap string string) (columnId : string) : string :=
  match headerLabels !! columnId with
  | Some label => if String.eqb label "" then columnId else label
  | None =>
      if String.eqb columnId "__proto__" then prototypeToString ObjectPrototype
      else default columnId (methodText engine ObjectPrototype columnId)
  end.

(** The branches on [value]; [None] is the [TypeError] of a [join] over
    an element that has no string form. *)
Definition cellText (locale : string) (value : Property) : option Cell :=
  match value with
  | Data JUndefined | Data JNull => Some Skipped
  | Data (JString s) =>
      Some (Measured (if isISODateString s then formatDateForMeasurement s locale else s))
  | Data (JNumber n) => Some (Measured (numberToString engine n))
  | Data (JArray items) => Measured <$> join engine ", " items
  | Data (JObject _) => Some Skipped
  | Data (JBool b) => Some (Measured (if b then "true" else "false"))
  | Method text => Some (Measured text)
  | PrototypeObject ArrayPrototype => Some (Measured "")
  | PrototypeObject _ => Some Skipped
  end.

(** [row[columnId]] and the branches on it: [None] when either throws. *)
Definition readCell (locale key : string) (row : JsValue) : option Cell :=
  match readProperty engine key row with
  | Some value => cellText locale value
  | None => None
  end.

(** The width of a measured text, padding included *)
Definition contentWidth (font : string) (cellPadding : Q) (textValue : string) : Q :=
  plus engine (measureTextWidth textValue font) cellPadding.

(** One pass of the inner loop: [maxWidth] after [row]. *)
Definition measureRow (font locale : string) (cellPadding : Q) (key : string)
    (maxWidth : Q) (row : JsValue) : option Q :=
  match readCell locale key row with
  | Some (Measured textValue) => Some (Qmax maxWidth (contentWidth font cellPadding textValue))
  | Some Skipped => Some maxWidth
  | None => None
  end.

(** The inner loop *)
Fixpoint measureRows (font locale : string) (cellPadding : Q) (key : string)
    (sampleData : list JsValue) (maxWidth : Q) : option Q :=
  match sampleData with
  | [] => Some maxWidth
  | row :: rest =>
      match measureRow font locale cellPadding key maxWidth row with
      | Some maxWidth' => measureRows font locale cellPadding key rest maxWidth'
      | None => None
      end
  end.

Definition applyMin (column : ColumnDef) (maxWidth : Q) : Q :=
  match truthyNumber (minSize column) with
  | Some m => Qmax maxWidth m
  | None => maxWidth
  end.
Definition applyMax (column : ColumnDef) (maxWidth : Q) : Q :=
  match truthyNumber (maxSize column) with
  | Some m => Qmin maxWidth m
  | None => maxWidth
  end.

(** [Math.ceil], kept as a number *)
Definition ceil (q : Q) : Q := inject_Z (Qceiling q).

(** The width the loop starts from for a column *)
Definition headerWidth (headerFont : string) (cellPadding : Q)
    (labels : gmap string string) (key : string) : Q :=
  plus engine (measureTextWidth (headerLabel labels key) headerFont) cellPadding.

(** The width an auto-sized column gets from the sampled rows. *)
Definition autoWidth (font headerFont locale : string) (cellPadding : Q)
    (labels : gmap string string) (sampleData : list JsValue)
    (column : ColumnDef) (key : string) : option Q :=
  match measureRows font locale cellPadding key sampleData
          (headerWidth headerFont cellPadding labels key) with
  | Some maxWidth => Some (ceil (applyMax column (applyMin column maxWidth)))
  | None => None
  end.

(** The sampled cell widths of a column, padding included: one for each
    sampled row whose cell is measured. *)
Definition cellWidths (font locale : string) (cellPadding : Q) (key : string)
    (sampleData : list JsValue) : list Q :=
  omap
    (fun row =>
       match readCell locale key row with
       | Some (Measured textValue) => Some (contentWidth font cellPadding textValue)
       | _ => None
       end)
    sampleData.

(** One pass of the loop over the columns. *)
Definition columnStep (font headerFont locale : string) (cellPadding : Q)
    (labels : gmap string string) (sampleData : list JsValue)
    (widths : gmap string Q) (column : ColumnDef) : option (gmap string Q) :=
  match columnId column with
  | None => Some widths
  | Some key =>
      if bool_decide (enableAutoSize column = Some false) then
        match truthyNumber (size column) with
        | Some s => Some (assign key s widths)
        | None => Some widths
        end
      else
        match autoWidth font headerFont locale cellPadding labels sampleData column key with
        | Some w => Some (assign key w widths)
        | None => None
        end
  end.

(** The loop over the columns *)
Fixpoint columnSteps (font headerFont locale : string) (cellPadding : Q)
    (labels : gmap string string) (sampleData : list JsValue)
    (cols : list ColumnDef) (widths : gmap string Q) : option (gmap string Q) :=
  match cols with
  | [] => Some widths
  | column :: rest =>
      match columnStep font headerFont locale cellPadding labels sampleData widths column with
      | Some widths' =>
          columnSteps font headerFont locale cellPadding labels sampleData rest widths'
      | None => None
      end
  end.

(** The result is the object [widths], given by its own properties;
    [None] when the calculation throws. *)
Definition calculateColumnWidths (o : CalculateColumnWidthsOptions)
    : option (gmap string Q) :=
  let font := default "14px Inter, system-ui, sans-serif" (font o) in
  let cellPadding := default 32%Q (cellPadding o) in
  let headerFont := default "500 14px Inter, system-ui, sans-serif" (headerFont o) in
  let headerLabels := default ∅ (headerLabels o) in
  let maxSampleRows := default 100%Z (maxSampleRows o) in
  let locale := default "zh-CN" (locale o) in
  let sampleData := slice maxSampleRows (data o) in
  columnSteps font headerFont locale cellPadding headerLabels sampleData (columns o) ∅.

End Measure.

(** The options with another data array. *)
Definition withData (o : CalculateColumnWidthsOptions) (rows : list JsValue)
    : CalculateColumnWidthsOptions :=
  {| data := rows; columns := columns o; font := font o;
     cellPadding := cellPadding o; headerFont := headerFont o;
     headerLabels := headerLabels o; maxSampleRows := maxSampleRows o;
     locale := locale o |}.

(** Two results compared key by key: the same keys, and no width of the
    first above the width of the second. *)
Definition NoWider (widths widths' : gmap string Q) : Prop :=
  forall key,
    match widths !! key, widths' !! key with
    | Some w, Some w' => (w <= w')%Q
    | None, None => True
    | _, _ => False
    end.

End TableUtils.

(* ===================================================================== *)
(** * components/ui/data-table: UnifiedDataTable *)
(* ===================================================================== *)

Module DataTable.
Import Js.

(** ** Pagination *)

Record PaginationState : Type := { pageIndex : Z; pageSize : Z }.

(** [Updater<PaginationState>]: a value or a function of the old state *)
Inductive Updater : Type :=
| UpdaterValue (p : PaginationState)
| UpdaterFunction (f : PaginationState -> PaginationState).

(** The pagination props: [pagination], and whether [onPaginationChange]
    and [setPagination] were passed. *)
Record PaginationProps : Type := {
  externalPagination : option PaginationState;
  hasOnPaginationChange : bool;
  hasSetExternalPagination : bool;
}.

(** A call the handler makes. *)
Inductive PaginationCall : Type :=
| OnPaginationChange (p : PaginationState)
| SetExternalPagination (p : PaginationState)
| SetInternalPagination (p : PaginationState).

Definition isExternalPagination (props : PaginationProps) : bool :=
  bool_decide (is_Some (externalPagination props))
  && (hasOnPaginationChange props || hasSetExternalPagination props).

(** [externalPagination ?? internalPagination], which every render stores
    in [paginationRef.current] *)
Definition pagination (props : PaginationProps) (internalPagination : PaginationState)
    : PaginationState :=
  default internalPagination (externalPagination props).

Definition applyUpdater (updater : Updater) (current : PaginationState) : PaginationState :=
  match updater with
  | UpdaterValue p => p
  | UpdaterFunction f => f current
  end.

(** [handlePaginationChange]: the calls it makes and the internal
    pagination state it leaves. *)
Definition handlePaginationChange (props : PaginationProps)
    (internalPagination : PaginationState) (updater : Updater)
    : list PaginationCall * PaginationState :=
  let currentPagination := pagination props internalPagination in
  let newPagination := applyUpdater updater currentPagination in
  if (pageIndex newPagination =? pageIndex currentPagination)%Z
     && (pageSize newPagination =? pageSize currentPagination)%Z
  then ([], internalPagination)
  else if isExternalPagination props then
    if hasOnPaginationChange props then
      ([OnPaginationChange newPagination], internalPagination)
    else if hasSetExternalPagination props then
      ([SetExternalPagination newPagination], internalPagination)
    else ([], internalPagination)
  else ([SetInternalPagination newPagination], newPagination).

(** ** Valid rows *)









(** ** Selection-change effect *)

Section Selection.

(** The rows type and what [table.getFilteredSelectedRowModel()] holds in
    a render with the given row selection. *)
Variable TData : Type.
Variable selectedRows : gmap string bool -> list TData.

Definition selectionChanged (rowSelection prevSelection : gmap string bool) : bool :=
  negb (size rowSelection =? size prevSelection)
  || existsb
       (fun key => negb (bool_decide (rowSelection !! key = prevSelection !! key)))
       (map fst (map_to_list rowSelection)).

(** One run of the effect: the new [prevRowSelectionRef.current] and the
    argument of the [onSelectionChange] call, if it is made. *)
Definition selectionEffect (hasOnSelectionChange : bool)
    (prevSelection rowSelection : gmap string bool)
    : gmap string bool * option (list TData) :=
  if hasOnSelectionChange then
    if selectionChanged rowSelection prevSelection then
      (rowSelection, Some (selectedRows rowSelection))
    else (prevSelection, None)
  else (prevSelection, None).

(** The effect over the row selections of successive renders; the ref
    starts as the empty object.  The result lists, per render, the call
    made (if any). *)
Fixpoint selectionEffects (hasOnSelectionChange : bool)
    (prevSelection : gmap string bool) (renders : list (gmap string bool))
    : list (option (list TData)) :=
  match renders with
  | [] => []
  | rowSelection :: rest =>
      let '(prev', call) := selectionEffect hasOnSelectionChange prevSelection rowSelection in
      call :: selectionEffects hasOnSelectionChange prev' rest
  end.

End Selection.

(** The calls the specification asks for, as the selection maps they
    report: a state is reported when it differs from the one reported
    last, and is then the one reported last. *)
Fixpoint expectedCalls (reported : gmap string bool) (renders : list (gmap string bool))
    : list (option (gmap string bool)) :=
  match renders with
  | [] => []
  | rowSelection :: rest =>
      if decide (rowSelection = reported) then None :: expectedCalls reported rest
      else Some rowSelection :: expectedCalls rowSelection rest
  end.

(** The states that differ from the state before them. *)
Fixpoint changesFrom (previous : gmap string bool) (renders : list (gmap string bool))
    : list (option (gmap string bool)) :=
  match renders with
  | [] => []
  | rowSelection :: rest =>
      (if decide (rowSelection = previous) then None else Some rowSelection)
      :: changesFrom rowSelection rest
  end.

(** ** Auto column sizing effect *)

Section AutoSizing.

Variable engine : Engine.
Variable measureText : string -> string -> Q.
Variable toLocaleString : string -> string -> option string.

Record SizingState : Type := {
  columnSizing : gmap string Q;
  autoSizingCalculated : bool;
}.

(** What a render hands to the effect; [rows] is [validData]. *)
Record SizingInput : Type := {
  enableAutoColumnSizing : bool;
  rows : list JsValue;
  columnDefs : list TableUtils.ColumnDef;
  tableLocale : string;
}.

(** [headerLabels[colId] = colDef.meta.title] for the columns that have
    both. *)
Definition buildHeaderLabels (columns : list TableUtils.ColumnDef) : gmap string string :=
  fold_left
    (fun labels col =>
       match TableUtils.columnId col, TableUtils.truthyString (TableUtils.title col) with
       | Some colId, Some t => assign colId t labels
       | _, _ => labels
       end)
    columns ∅.

(** The options of the call the effect makes. *)
Definition sizingOptions (input : SizingInput) : TableUtils.CalculateColumnWidthsOptions :=
  {| TableUtils.data := rows input;
     TableUtils.columns := columnDefs input;
     TableUtils.font := None;
     TableUtils.cellPadding := None;
     TableUtils.headerFont := None;
     TableUtils.headerLabels := Some (buildHeaderLabels (columnDefs input));
     TableUtils.maxSampleRows := None;
     TableUtils.locale := Some (tableLocale input) |}.

(** One run of the effect: the state it leaves and the number of times it
    called [calculateColumnWidths]; [None] when the call throws. *)
Definition autoSizingEffect (input : SizingInput) (st : SizingState)
    : option (SizingState * nat) :=
  if negb (enableAutoColumnSizing input) || autoSizingCalculated st
     || (length (rows input) =? 0)
  then Some (st, 0)
  else
    match TableUtils.calculateColumnWidths engine measureText toLocaleString
            (sizingOptions input) with
    | Some calculatedWidths =>
        if 0 <? size calculatedWidths then
          Some ({| columnSizing := calculatedWidths; autoSizingCalculated := true |}, 1)
        else Some (st, 1)
    | None => None
    end.


End AutoSizing.

(** ** Row selection handler *)

(** [Updater<Record<string, boolean>>] *)
Inductive SelectionUpdater : Type :=
| SelectionValue (v : gmap string bool)
| SelectionFunction (f : gmap string bool -> gmap string bool).

(** The selection props: [rowSelection], and whether [onRowSelectionChange]
    was passed. *)
Record SelectionProps : Type := {
  externalRowSelection : option (gmap string bool);
  hasExternalOnRowSelectionChange : bool;
}.

(** [externalRowSelection ?? internalRowSelection] *)
Definition rowSelection (props : SelectionProps)
    (internalRowSelection : gmap string bool) : gmap string bool :=
  default internalRowSelection (externalRowSelection props).

(** [handleRowSelectionChange]: the argument of the call to the external
    handler, if it is made, and the internal selection it leaves. *)
Definition handleRowSelectionChange (props : SelectionProps)
    (internalRowSelection : gmap string bool) (updater : SelectionUpdater)
    : option (gmap string bool) * gmap string bool :=
  let newValue :=
    match updater with
    | SelectionValue v => v
    | SelectionFunction f => f (rowSelection props internalRowSelection)
    end in
  if hasExternalOnRowSelectionChange props then (Some newValue, internalRowSelection)
  else (None, newValue).

Section SelectionEvents.

Variable TData : Type.
Variable selectedRows : gmap string bool -> list TData.

(** What the table keeps between renders for its selection: the internal
    state and [prevRowSelectionRef.current]. *)
Record SelectionState : Type := {
  internalRowSelection : gmap string bool;
  prevRowSelectionRef : gmap string bool;
}.

(** A selection update arriving from the table, in a table that owns its
    selection (no [rowSelection] and no [onRowSelectionChange] prop) and
    has an [onSelectionChange] prop: the handler sets the internal state,
    the table renders again and the selection effect runs.  The result is
    the state left and the argument of the [onSelectionChange] call, if
    it is made. *)
Definition selectionEvent (st : SelectionState) (updater : SelectionUpdater)
    : SelectionState * option (list TData) :=
  let props :=
    {| externalRowSelection := None; hasExternalOnRowSelectionChange := false |} in
  let '(_, internal') :=
    handleRowSelectionChange props (internalRowSelection st) updater in
  let '(prev', call) :=
    selectionEffect TData selectedRows true (prevRowSelectionRef st)
      (rowSelection props internal') in
  ({| internalRowSelection := internal'; prevRowSelectionRef := prev' |}, call).

End SelectionEvents.

End DataTable.

(* ===================================================================== *)
(** * components/settings/system-logs: AnsiLogViewer *)
(* ===================================================================== *)

Module LogViewer.
Import Regex.

Definition cp : string -> Text := codepoints.

Definition caseSensitive : Flags := {| ignoreCase := false; unicode := false |}.
Definition flagI : Flags := {| ignoreCase := true; unicode := false |}.
Definition flagIU : Flags := {| ignoreCase := true; unicode := true |}.

(** The line feed, the double quote and the backslash *)
Definition LF : N := 10%N.
Definition QUOTE : N := 34%N.
Definition BACKSLASH : N := 92%N.

(** [s.split("\n")] *)
Fixpoint split (s : Text) : list Text :=
  match s with
  | [] => [[]]
  | c :: s' =>
      if (c =? LF)%N then [] :: split s'
      else match split s' with
           | l :: ls => (c :: l) :: ls
           | [] => [[c]]
           end
  end.

(** [lines.join("\n")] *)
Fixpoint join (lines : list Text) : Text :=
  match lines with
  | [] => []
  | [l] => l
  | l :: rest => l ++ LF :: join rest
  end.

(** [s.toUpperCase()] on ASCII text: the ASCII letters are mapped and
    every other character is kept (the case mapping of letters beyond
    ASCII is not modelled); levels and level markers are ASCII words. *)
Definition toUpperCase (s : Text) : Text :=
  map (fun c => if isLower c then (c - 32)%N else c) s.

(** [s.trim()] is empty *)
Definition isBlank (s : Text) : bool := forallb isSpace s.

(** [(DEBUG|INFO|WARNING|WARN|ERROR|CRITICAL)] as capture group [i] *)
Definition levelGroup (i : nat) : Re :=
  Group i (AnyOf [Str "DEBUG"; Str "INFO"; Str "WARNING"; Str "WARN";
                  Str "ERROR"; Str "CRITICAL"]).

(** [\d{4}-\d{2}-\d{2}] and [\d{2}:\d{2}:\d{2}] *)
Definition dateDigits : Re :=
  Cat [Times 4 Digit; Str "-"; Times 2 Digit; Str "-"; Times 2 Digit].
Definition timeDigits : Re :=
  Cat [Times 2 Digit; Str ":"; Times 2 Digit; Str ":"; Times 2 Digit].

(** All four carry the [i] flag and start with [^]. *)
Definition LOG_LEVEL_PATTERNS : list Re :=
  [ (* /^\[\d{4}-\d{2}-\d{2} \d{2}:\d{2}:\d{2}\] \[(DEBUG|...)\]/i *)
    Cat [Str "["; dateDigits; Str " "; timeDigits; Str "] ["; levelGroup 1; Str "]"];
    (* /^[\d:.]+\s+\|\s+(DEBUG|...)\s+\|/i *)
    Cat [Plus (Cls (fun c => isDigit c || oneOf (cp ":.") c)); Plus (Cls isSpace);
         Str "|"; Plus (Cls isSpace); levelGroup 1; Plus (Cls isSpace); Str "|"];
    (* /^(?:\[)?(DEBUG|...)(?:\])?[:\s]/i *)
    Cat [Opt (Str "["); levelGroup 1; Opt (Str "]");
         Cls (fun c => oneOf (cp ":") c || isSpace c)];
    (* /^(DEBUG|...)\s+-\s+/i *)
    Cat [levelGroup 1; Plus (Cls isSpace); Str "-"; Plus (Cls isSpace)] ].

(** Each with its flags; all start with [^] ([诊断] is U+8BCA U+65AD). *)
Definition NEW_ENTRY_PATTERNS : list (Flags * Re) :=
  [ (* /^\[\d+\/\d+\]/ *)
    (caseSensitive, Cat [Str "["; Plus Digit; Str "/"; Plus Digit; Str "]"]);
    (* /^\[CONFIG\]/i *)
    (flagI, Str "[CONFIG]");
    (* /^\[诊断\]/ *)
    (caseSensitive, Cat [Str "["; Lit [35786%N; 26029%N]; Str "]"]);
    (* /^={10,}$/ *)
    (caseSensitive, Cat [AtLeast 10 (Str "="); Eol]);
    (* /^\[\d{4}-\d{2}-\d{2}/ *)
    (caseSensitive, Cat [Str "["; dateDigits]);
    (* /^\d{2}:\d{2}:\d{2}/ *)
    (caseSensitive, timeDigits);
    (* /^\/[\w/]+\.py:\d+:/ *)
    (caseSensitive,
     Cat [Str "/"; Plus (Cls (fun c => isWord c || oneOf (cp "/") c)); Str ".py:";
          Plus Digit; Str ":"]) ].

(** The six level names. *)
Definition LEVEL_NAMES : list Text :=
  [cp "DEBUG"; cp "INFO"; cp "WARNING"; cp "WARN"; cp "ERROR"; cp "CRITICAL"].

(** The shape of the level patterns: group-free parts, the level group
    as group 1, a group-free rest. *)
Inductive LevelShape : Re -> Prop :=
| LevelHere (rest : Re) :
    groupFree rest = true -> LevelShape (Seq (levelGroup 1) rest)
| LevelLater (a rest : Re) :
    groupFree a = true -> LevelShape rest -> LevelShape (Seq a rest).

(** The first pattern that matches gives the level, upper-cased; [None]
    is [null]. *)
Fixpoint extractWith (patterns : list Re) (line : Text) : option Text :=
  match patterns with
  | [] => None
  | pattern :: rest =>
      match matchPrefix flagI pattern line with
      | Some (_, _, caps) => Some (toUpperCase (default [] (capture 1 caps)))
      | None => extractWith rest line
      end
  end.

Definition extractLogLevel (line : Text) : option Text :=
  extractWith LOG_LEVEL_PATTERNS line.

Definition isNewEntryStart (line : Text) : bool :=
  existsb (fun '(fl, pattern) => test fl pattern line) NEW_ENTRY_PATTERNS.

Definition normalizeLevel (l : Text) : Text :=
  let upper := toUpperCase l in
  if bool_decide (upper = cp "WARNING") then cp "WARN"
  else if bool_decide (upper = cp "CRITICAL") then cp "ERROR"
  else upper.

(** The level the loop recognizes in a line: the extracted level when it
    is truthy (a non-empty string). *)
Definition recognizedLevel (line : Text) : option Text :=
  match extractLogLevel line with
  | Some (c :: extractedLevel) => Some (c :: extractedLevel)
  | _ => None
  end.

(** The visibility of the block after [line], given the one before it. *)
Definition blockVisible (targetLevel : Text) (currentBlockVisible : bool) (line : Text) : bool :=
  match recognizedLevel line with
  | Some extractedLevel => bool_decide (normalizeLevel extractedLevel = targetLevel)
  | None => if isNewEntryStart line then false else currentBlockVisible
  end.

(** The body of the loop: the state is [currentBlockVisible] and [result]. *)
Definition lineStep (targetLevel : Text) (st : bool * list Text) (line : Text)
    : bool * list Text :=
  let visible := blockVisible targetLevel (fst st) line in
  (visible, if visible then snd st ++ [line] else snd st).

(** The lines the loop keeps. *)
Definition filterLines (targetLevel : Text) (lines : list Text) : list Text :=
  snd (fold_left (lineStep targetLevel) lines (false, [])).

(** [currentBlockVisible] after the loop has gone through [lines]. *)
Definition visibility (targetLevel : Text) (lines : list Text) : bool :=
  fst (fold_left (lineStep targetLevel) lines (false, [])).

(** A continuation line: no level is recognized in it and it starts no
    new entry. *)
Definition isContinuation (line : Text) : bool :=
  bool_decide (recognizedLevel line = None) && negb (isNewEntryStart line).

(** A block: a line with a recognized level and the continuation lines
    that follow it. *)
Record Block : Type := { owner : Text; continuation : list Text }.

Definition blockLines (b : Block) : list Text := owner b :: continuation b.

Definition WellFormedBlock (b : Block) : Prop :=
  is_Some (recognizedLevel (owner b))
  /\ Forall (fun line => isContinuation line = true) (continuation b).

(** The owning level of a block equals the target, after normalization. *)
Definition blockHasLevel (targetLevel : Text) (b : Block) : bool :=
  match recognizedLevel (owner b) with
  | Some level => bool_decide (normalizeLevel level = targetLevel)
  | None => false
  end.

Definition filterByLevel (content level : Text) : Text :=
  if bool_decide (level = cp "all") then content
  else join (filterLines (normalizeLevel level) (split content)).


Definition LOG_LEVEL_COLORS (level : Text) : option Text :=
  if bool_decide (level = cp "DEBUG") then Some (cp "#4ec9b0")
  else if bool_decide (level = cp "INFO") then Some (cp "#6a9955")
  else if bool_decide (level = cp "WARNING") then Some (cp "#dcdcaa")
  else if bool_decide (level = cp "WARN") then Some (cp "#dcdcaa")
  else if bool_decide (level = cp "ERROR") then Some (cp "#f44747")
  else if bool_decide (level = cp "CRITICAL") then Some (cp "#f44747")
  else None.

(** [/^(\[\d{4}-\d{2}-\d{2} \d{2}:\d{2}:\d{2}\]) (\[(DEBUG|...)\]) (REST)$/],
    where REST is any run of characters other than line terminators *)
Definition logLineRegex : Re :=
  Cat [Group 1 (Cat [Str "["; dateDigits; Str " "; timeDigits; Str "]"]); Str " ";
       Group 2 (Cat [Str "["; levelGroup 3; Str "]"]); Str " ";
       Group 4 (Star Dot); Eol].

(** [/(<[^>]+>)|([^<]+)/g] *)
Definition tagOrText : Re :=
  Alt (Group 1 (Cat [Str "<"; Plus (Cls (fun c => negb (c =? 62)%N)); Str ">"]))
      (Group 2 (Plus (Cls (fun c => negb (c =? 60)%N)))).

(** A rendering as the scan with [tagOrText] reads it: tags [<body>] and
    text runs between them. *)
Inductive Segment : Type :=
| TagSeg (body : Text)
| TextRun (text : Text).

Definition renderSegment (seg : Segment) : Text :=
  match seg with
  | TagSeg body => 60%N :: body ++ [62%N]
  | TextRun text => text
  end.

Definition renderSegments (segs : list Segment) : Text :=
  flat_map renderSegment segs.

(** Tag bodies are non-empty and hold no [>]; text runs are non-empty,
    hold no [<] and end at a tag or at the end. *)
Fixpoint wellFormedSegments (segs : list Segment) : bool :=
  match segs with
  | [] => true
  | TagSeg body :: rest =>
      negb (length body =? 0) && forallb (fun c => negb (c =? 62)%N) body
      && wellFormedSegments rest
  | TextRun text :: rest =>
      negb (length text =? 0) && forallb (fun c => negb (c =? 60)%N) text
      && match rest with TextRun _ :: _ => false | _ => true end
      && wellFormedSegments rest
  end.

(** [/[.*+?^${}()|[\]\\]/g] *)
Definition isRegExpSpecial (c : N) : bool :=
  oneOf (cp ".*+?^${}()|[]") c || (c =? BACKSLASH)%N.

(** [s.replace(/[.*+?^${}()|[\]\\]/g, "\\$&")] *)
Definition escapeRegExp (s : Text) : Text :=
  replaceAll caseSensitive (Cls isRegExpSpecial) (fun m _ => BACKSLASH :: m) s.

(** The pattern grammar [new RegExp] meets in [highlightSearch]: ordinary
    characters and backslash-escaped syntax characters.  [None] for a
    source outside this fragment. *)
Fixpoint parseLiteral (source : Text) : option Re :=
  match source with
  | [] => Some Eps
  | c :: rest =>
      if (c =? BACKSLASH)%N then
        match rest with
        | d :: rest' =>
            if isRegExpSpecial d then Seq (Chr d) <$> parseLiteral rest' else None
        | [] => None
        end
      else if isRegExpSpecial c then None
      else Seq (Chr c) <$> parseLiteral rest
  end.

(** [<mark style="background:#fbbf24;color:#1e1e1e;border-radius:2px;padding:0 2px">]
    and [</mark>] *)
Definition markOpen : Text :=
  cp "<mark style=" ++ QUOTE
  :: cp "background:#fbbf24;color:#1e1e1e;border-radius:2px;padding:0 2px"
  ++ QUOTE :: cp ">".
Definition markClose : Text := cp "</mark>".

(** The replacement ['<mark ...>$1</mark>'] *)
Definition markReplacement (m : Text) (caps : Caps) : Text :=
  markOpen ++ default [] (capture 1 caps) ++ markClose.

Section Converter.

(** [ansiConverter.toHtml] of the [ansi-to-html] package, configured with
    [escapeXML: true]. *)
Variable toHtml : Text -> Text.

Definition spanOpen (style : Text) : Text :=
  cp "<span style=" ++ QUOTE :: style ++ QUOTE :: cp ">".
Definition spanClose : Text := cp "</span>".

Definition colorizeLine (line : Text) : Text :=
  match matchPrefix caseSensitive logLineRegex line with
  | Some (_, _, caps) =>
      let timestamp := default [] (capture 1 caps) in
      let levelBracket := default [] (capture 2 caps) in
      let level := default [] (capture 3 caps) in
      let rest := default [] (capture 4 caps) in
      let color := default (cp "#d4d4d4") (LOG_LEVEL_COLORS level) in
      let weight :=
        if bool_decide (level = cp "CRITICAL") then cp "bold" else cp "normal" in
      spanOpen (cp "color:#808080") ++ toHtml timestamp ++ spanClose ++ cp " "
      ++ spanOpen (cp "color:" ++ color ++ cp ";font-weight:" ++ weight)
      ++ toHtml levelBracket ++ spanClose ++ cp " " ++ toHtml rest
  | None => toHtml line
  end.

Definition colorizeLogContent (content : Text) : Text :=
  join (map colorizeLine (split content)).

(** [new RegExp(`(${escapedQuery})`, "giu")] for the escaped query *)
Definition searchRegExp (query : Text) : option Re :=
  Group 1 <$> parseLiteral (escapeRegExp (toHtml query)).

Definition highlightSearch (html query : Text) : Text :=
  if isBlank query then html
  else
    match searchRegExp query with
    | None => html
    | Some regex =>
        replaceAll caseSensitive tagOrText
          (fun (m : Text) caps =>
             match capture 1 caps, capture 2 caps with
             | Some (c :: tag), _ => c :: tag
             | _, Some (c :: text) => replaceAll flagIU regex markReplacement (c :: text)
             | _, _ => m
             end)
          html
    end.

(** What [highlightSearch] makes of a segment: a tag stays, a text run
    is searched for the pattern. *)
Definition highlightSegment (regex : Re) (seg : Segment) : Text :=
  match seg with
  | TagSeg _ => renderSegment seg
  | TextRun text => replaceAll flagIU regex markReplacement text
  end.



End Converter.

(** ** The XML escaping of the converter on text without control sequences

    The comment in [highlightSearch] records what [escapeXML: true] does:
    characters outside ASCII become numeric entities ("中文" becomes
    "&#x4E2D;&#x6587;"); the five XML characters become named entities. *)

Definition hexDigit (d : N) : N :=
  if (d <? 10)%N then (48 + d)%N else (55 + d)%N.

Fixpoint hexFrom (fuel : nat) (n : N) : Text :=
  match fuel with
  | O => []
  | S fuel' =>
      if (n <? 16)%N then [hexDigit n]
      else hexFrom fuel' (n / 16)%N ++ [hexDigit (n mod 16)%N]
  end.

(** [n.toString(16).toUpperCase()] *)
Definition hexUpper (n : N) : Text := hexFrom (S (N.to_nat (N.log2 n))) n.

Definition escapeChar (c : N) : Text :=
  if (c =? 38)%N then cp "&amp;"
  else if (c =? 60)%N then cp "&lt;"
  else if (c =? 62)%N then cp "&gt;"
  else if (c =? 34)%N then cp "&quot;"
  else if (c =? 39)%N then cp "&apos;"
  else if (128 <=? c)%N then cp "&#x" ++ hexUpper c ++ cp ";"
  else [c].

Definition encodeXML (text : Text) : Text := flat_map escapeChar text.

End LogViewer.

(* ===================================================================== *)
(** * components/endpoints: EndpointsDataTable *)
(* ===================================================================== *)

Module EndpointsTable.
Import DataTable.

(** A number that a division can give: a finite one (an integer here),
    an infinity or [NaN]. *)
Inductive JsNumber : Type :=
| Finite (z : Z)
| PlusInfinity
| MinusInfinity
| NotANumber.

(** [Math.ceil(a / b)] for integers [a] and [b] *)
Definition ceilOfQuotient (a b : Z) : JsNumber :=
  if (b =? 0)%Z then
    if (0 <? a)%Z then PlusInfinity
    else if (a <? 0)%Z then MinusInfinity
    else NotANumber
  else Finite (Qceiling (inject_Z a / inject_Z b)).

(** The props the component reads for its pagination: [pagination],
    whether [onPaginationChange] was passed, [totalCount], [totalPages]. *)
Record Props : Type := {
  externalPagination : option PaginationState;
  hasOnPaginationChange : bool;
  totalCount : option Z;
  totalPages : option Z;
}.

(** [externalPagination || internalPagination] *)
Definition pagination (props : Props) (internalPagination : PaginationState)
    : PaginationState :=
  default internalPagination (externalPagination props).

(** A call the component makes. *)
Inductive Call : Type :=
| OnPaginationChange (p : PaginationState)
| SetInternalPagination (p : PaginationState).

Definition handlePaginationChange (props : Props) (newPagination : PaginationState)
    : Call :=
  if hasOnPaginationChange props then OnPaginationChange newPagination
  else SetInternalPagination newPagination.

Record PaginationInfo : Type := {
  total : Z;
  infoTotalPages : JsNumber;
  page : Z;
  infoPageSize : Z;
}.

(** A number prop when it is truthy *)
Definition truthyCount (o : option Z) : option Z :=
  match o with
  | Some n => if (n =? 0)%Z then None else Some n
  | None => None
  end.

(** [externalPagination && totalCount ? {...} : undefined] *)
Definition paginationInfo (props : Props) (internalPagination : PaginationState)
    : option PaginationInfo :=
  match externalPagination props, truthyCount (totalCount props) with
  | Some _, Some count =>
      let current := pagination props internalPagination in
      Some {| total := count;
              infoTotalPages :=
                match truthyCount (totalPages props) with
                | Some n => Finite n
                | None => ceilOfQuotient count (pageSize current)
                end;
              page := (pageIndex current + 1)%Z;
              infoPageSize := pageSize current |}
  | _, _ => None
  end.

(** The pagination props handed to [UnifiedDataTable]: [pagination] is
    always an object, [onPaginationChange] is always the component's
    handler, and [setPagination] is the component's own setter unless the
    parent listens. *)
Definition tableProps (props : Props) (internalPagination : PaginationState)
    : PaginationProps :=
  {| DataTable.externalPagination := Some (pagination props internalPagination);
     DataTable.hasOnPaginationChange := true;
     hasSetExternalPagination := negb (hasOnPaginationChange props) |}.

(** A pagination update arriving from the table: the table's handler
    runs with the props above, and each call it makes lands in this
    component.  The result is the calls this component makes and the
    internal pagination of the table. *)
Definition pageChange (props : Props) (internalPagination : PaginationState)
    (tableInternalPagination : PaginationState) (updater : Updater)
    : list Call * PaginationState :=
  let '(calls, tableInternalPagination') :=
    DataTable.handlePaginationChange (tableProps props internalPagination)
      tableInternalPagination updater in
  (flat_map
     (fun call =>
        match call with
        | DataTable.OnPaginationChange p => [handlePaginationChange props p]
        | SetExternalPagination p => [SetInternalPagination p]
        | DataTable.SetInternalPagination _ => []
        end)
     calls,
   tableInternalPagination').

End EndpointsTable.

(* ===================================================================== *)
(** * components/screenshots: ScreenshotsGallery *)
(* ===================================================================== *)

Module Gallery.
Import DataTable.

Record Screenshot : Type := {
  id : Z;
  url : string;
  statusCode : option Z;
  createdAt : string;
}.

(** The updater [toggleSelect] hands to [setSelectedIds]. *)
Definition toggleSelect (id : Z) (prev : gset Z) : gset Z :=
  if decide (id ∈ prev) then prev ∖ {[id]} else prev ∪ {[id]}.

(** The set [selectAll] stores, from the selection and the screenshots
    of the render that made the callback. *)
Definition selectAll (selectedIds : gset Z) (screenshots : list Screenshot) : gset Z :=
  if size selectedIds =? length screenshots then ∅
  else list_to_set (map id screenshots).

(** [a % b] on integers: the remainder has the sign of [a]; [None] is the
    [NaN] of a zero divisor. *)
Definition remainder (a b : Z) : option Z :=
  if (b =? 0)%Z then None else Some (Z.rem a b).

(** The updaters of [nextImage] and [prevImage]. *)
Definition nextImage (screenshots : list Screenshot) (prev : Z) : option Z :=
  remainder (prev + 1) (Z.of_nat (length screenshots)).
Definition prevImage (screenshots : list Screenshot) (prev : Z) : option Z :=
  remainder (prev - 1 + Z.of_nat (length screenshots)) (Z.of_nat (length screenshots)).

(** The updaters of the two page buttons and their [disabled] props. *)
Definition previousPage (prev : PaginationState) : PaginationState :=
  {| pageIndex := Z.max 0 (pageIndex prev - 1); pageSize := pageSize prev |}.
Definition nextPage (totalPages : Z) (prev : PaginationState) : PaginationState :=
  {| pageIndex := Z.min (totalPages - 1) (pageIndex prev + 1);
     pageSize := pageSize prev |}.
Definition previousDisabled (pagination : PaginationState) : bool :=
  (pageIndex pagination =? 0)%Z.
Definition nextDisabled (totalPages : Z) (pagination : PaginationState) : bool :=
  (totalPages - 1 <=? pageIndex pagination)%Z.

(** [handleSearch]: the filter query and the pagination it leaves. *)
Definition handleSearch (searchInput : string) (pagination : PaginationState)
    : string * PaginationState :=
  (searchInput, {| pageIndex := 0; pageSize := pageSize pagination |}).

End Gallery.

(* ===================================================================== *)
(** * components/scan: ScanLogList *)
(* ===================================================================== *)

Module ScanLogs.
Import Regex LogViewer.

Record ScanLog : Type := {
  id : Z;
  level : Text;
  content : Text;
  createdAt : Text;
}.

(** [s.padStart(2, '0')] *)
Definition padStart2 (s : Text) : Text := repeat 48%N (2 - length s) ++ s.

(** [String(n)] of a clock reading: a natural number, or [NaN]
    ([None]) *)
Definition showReading (reading : option N) : Text :=
  match reading with
  | Some n => cp (pretty n)
  | None => cp "NaN"
  end.

Section Clock.

(** The host's clock: the local hours, minutes and seconds of
    [new Date(isoString)], [None] for an invalid date (whose readings are
    all [NaN]).  Neither the constructor nor the getters throw, so the
    [catch] branch of [formatTime] is never taken. *)
Variable localTime : Text -> option (N * N * N).

Definition formatTime (isoString : Text) : Text :=
  let reading := localTime isoString in
  let h := padStart2 (showReading ((fun t => t.1.1) <$> reading)) in
  let m := padStart2 (showReading ((fun t => t.1.2) <$> reading)) in
  let s := padStart2 (showReading ((fun t => t.2) <$> reading)) in
  h ++ cp ":" ++ m ++ cp ":" ++ s.

(** The line of a log entry *)
Definition logLine (log : ScanLog) : Text :=
  cp "[" ++ formatTime (createdAt log) ++ cp "] [" ++ toUpperCase (level log)
  ++ cp "] " ++ content log.

(** The text of the whole list *)
Definition logText (logs : list ScanLog) : Text := join (map logLine logs).

(** The three refs of the component. *)
Record Cache : Type := {
  contentRef : Text;
  lastLogCountRef : nat;
  lastLogIdRef : option Z;
}.

Definition initialCache : Cache :=
  {| contentRef := []; lastLogCountRef := 0; lastLogIdRef := None |}.

(** The body of the [content] memo: the text it returns and the refs it
    leaves. *)
Definition contentMemo (logs : list ScanLog) (cache : Cache) : Text * Cache :=
  match last logs with
  | None => ([], cache)
  | Some lastLog =>
      if (length logs =? lastLogCountRef cache)
         && bool_decide (Some (id lastLog) = lastLogIdRef cache)
      then (contentRef cache, cache)
      else
        let newContent := logText logs in
        (newContent,
         {| contentRef := newContent;
            lastLogCountRef := length logs;
            lastLogIdRef := Some (id lastLog) |})
  end.

(** The memo over the log arrays of successive renders: the texts it
    returns.  (React runs the body when the array is a new one; on the
    same array the body would return the cached text again.) *)
Fixpoint contents (renders : list (list ScanLog)) (cache : Cache) : list Text :=
  match renders with
  | [] => []
  | logs :: rest =>
      let '(text, cache') := contentMemo logs cache in
      text :: contents rest cache'
  end.

End Clock.

(** The log arrays of successive renders only grow at the end. *)
Fixpoint AppendOnly (previous : list ScanLog) (renders : list (list ScanLog)) : Prop :=
  match renders with
  | [] => True
  | logs :: rest => previous `prefix_of` logs /\ AppendOnly logs rest
  end.

End ScanLogs.

(* ===================================================================== *)
(** * components/scan: ScanOverview *)
(* ===================================================================== *)

Module ScanOverview.

(** [Math.round]: the nearest integer, halves upwards *)
Definition round (q : Q) : Z := Qfloor (q + (1 # 2)).

(** [Math.trunc] *)
Definition truncate (q : Q) : Z := if Qle_bool 0 q then Qfloor q else Qceiling q.

(** [a % b] on numbers, [b] not zero *)
Definition remainder (a b : Q) : Q := (a - b * inject_Z (truncate (a / b)))%Q.

(** [formatStageDuration]; [None] is [undefined] (as an argument also
    [null]).  Durations are rationals ([NaN] and the infinities are not
    among them). *)
Definition formatStageDuration (seconds : option Q) : option string :=
  match seconds with
  | None => None
  | Some seconds =>
      if Qlt_le_dec seconds 1 then Some "<1s"
      else if Qlt_le_dec seconds 60 then Some (pretty (round seconds) +:+ "s")
      else
        let minutes := Qfloor (seconds / 60) in
        let secs := round (remainder seconds 60) in
        if (0 <? secs)%Z then Some (pretty minutes +:+ "m " +:+ pretty secs +:+ "s")
        else Some (pretty minutes +:+ "m")
  end.

Section Dates.

(** The host's dates: [getTime date] is [new Date(date).getTime()], the
    milliseconds since the epoch, [None] for the [NaN] of an invalid
    date; [now] is [new Date().getTime()]. *)
Variable getTime : string -> option Z.
Variable now : Z.

(** [formatDuration]; [None] is [undefined]. *)
Definition formatDuration (startedAt completedAt : option string) : string :=
  match TableUtils.truthyString startedAt with
  | None => "-"
  | Some started =>
      let start := getTime started in
      let finish :=
        match TableUtils.truthyString completedAt with
        | Some completed => getTime completed
        | None => Some now
        end in
      match start, finish with
      | Some startMs, Some finishMs =>
          let diffMs := (finishMs - startMs)%Z in
          let diffMins := (diffMs / 60000)%Z in
          let diffHours := (diffMins / 60)%Z in
          let remainingMins := Z.rem diffMins 60 in
          if (0 <? diffHours)%Z then
            pretty diffHours +:+ "h " +:+ pretty remainingMins +:+ "m"
          else pretty diffMins +:+ "m"
      | _, _ => "NaNm"
      end
  end.

End Dates.

End ScanOverview.

(* ===================================================================== *)
(** * hooks/use-auth: the error handlers of the mutations *)
(* ===================================================================== *)

Module AuthHooks.
Import Js.

(** A call on [toastMessages]. *)
Inductive Toast : Type :=
| ErrorFromCode (code : string)
| Error (key : string).

(** The [onError] handler of [useLogin], [useLogout] and
    [useChangePassword], which differ in the key of the fallback message
    only.  [None] is the [TypeError] of reading [error.response] on
    [null] or [undefined]. *)
Definition onError (fallbackKey : string) (error : JsValue) : option Toast :=
  if isNullish error then None
  else
    let errorCode :=
      ResponseParser.getErrorCode
        (optionalProperty "data" (getProperty "response" error)) in
    match errorCode with
    | Some code =>
        if String.eqb code "" then Some (Error fallbackKey)
        else Some (ErrorFromCode code)
    | None => Some (Error fallbackKey)
    end.

Definition useLoginOnError : JsValue -> option Toast := onError "auth.loginFailed".
Definition useLogoutOnError : JsValue -> option Toast := onError "errors.unknown".
Definition useChangePasswordOnError : JsValue -> option Toast :=
  onError "toast.auth.changePassword.error".

End AuthHooks.

(* ===================================================================== *)
(** * hooks/use-commands: the mock command listing *)
(* ===================================================================== *)

Module CommandHooks.

(** A command, as far as the listing reads it. *)
Record Command : Type := {
  id : Z;
  toolId : Z;
  name : string;
}.

Definition MOCK_COMMANDS : list Command :=
  [ {| id := 1; toolId := 1; name := "subdomain_scan" |};
    {| id := 2; toolId := 2; name := "port_scan" |};
    {| id := 3; toolId := 1; name := "fast_subdomain_scan" |};
    {| id := 4; toolId := 3; name := "vulnerability_scan" |};
    {| id := 5; toolId := 4; name := "web_crawl" |};
    {| id := 6; toolId := 2; name := "service_detect" |};
    {| id := 7; toolId := 5; name := "dir_scan" |};
    {| id := 8; toolId := 3; name := "full_vulnerability_scan" |} ].

(** [GetCommandsRequest]: each field may be missing. *)
Record GetCommandsRequest : Type := {
  page : option Z;
  pageSize : option Z;
  requestToolId : option Z;
}.

Record GetCommandsResponse : Type := {
  commands : list Command;
  responsePage : Z;
  responsePageSize : Z;
  total : Z;
  totalPages : Z;
}.

(** A number when it is truthy *)
Definition truthyNumber (o : option Z) : option Z :=
  match o with
  | Some n => if (n =? 0)%Z then None else Some n
  | None => None
  end.

(** The index [Array.prototype.slice] makes of an integer argument:
    counted from the end when negative, and kept within the array. *)
Definition sliceIndex (len : nat) (i : Z) : nat :=
  if (i <? 0)%Z then Z.to_nat (Z.max (Z.of_nat len + i) 0)
  else Nat.min (Z.to_nat i) len.

(** [l.slice(start, end)] *)
Definition slice {A : Type} (l : list A) (startIndex endIndex : Z) : list A :=
  let from := sliceIndex (length l) startIndex in
  let to := sliceIndex (length l) endIndex in
  take (to - from) (drop from l).

(** The commands the listing pages through. *)
Definition filteredCommands (params : GetCommandsRequest) : list Command :=
  match truthyNumber (requestToolId params) with
  | Some tool => List.filter (fun cmd => (toolId cmd =? tool)%Z) MOCK_COMMANDS
  | None => MOCK_COMMANDS
  end.

(** The query function of [useCommands] (the simulated delay left out). *)
Definition useCommandsQueryFn (params : GetCommandsRequest) : GetCommandsResponse :=
  let page := default 1%Z (truthyNumber (page params)) in
  let pageSize := default 10%Z (truthyNumber (pageSize params)) in
  let filteredCommands := filteredCommands params in
  let totalCount := Z.of_nat (length filteredCommands) in
  let totalPages := Qceiling (inject_Z totalCount / inject_Z pageSize) in
  let startIndex := ((page - 1) * pageSize)%Z in
  let endIndex := (startIndex + pageSize)%Z in
  {| commands := slice filteredCommands startIndex endIndex;
     responsePage := page;
     responsePageSize := pageSize;
     total := totalCount;
     totalPages := totalPages |}.

(** The request for one page. *)
Definition pageRequest (params : GetCommandsRequest) (n : Z) : GetCommandsRequest :=
  {| page := Some n; pageSize := pageSize params;
     requestToolId := requestToolId params |}.

End CommandHooks.

(* ===================================================================== *)
(** * Sample inputs *)
(* ===================================================================== *)

Module Examples.
Import Js.

(** The three example payloads of the specification. *)
Definition notFoundError : JsValue :=
  JObject [("error", JObject [("code", JString "NOT_FOUND")])].
Definition legacyError : JsValue :=
  JObject [("state", JString "error"); ("code", JString "400");
           ("message", JString "bad")].
Definition barePayload : JsValue :=
  JObject [("id", JNumber 7); ("name", JString "scan")].

(** A legacy error that says nothing. *)
Definition legacyErrorNoMessage : JsValue :=
  JObject [("state", JString "error"); ("code", JString "500")].

(** A body that carries both envelopes at once. *)
Definition hybridError : JsValue :=
  JObject [("error", JObject [("code", JString "NOT_FOUND")]);
           ("state", JString "error"); ("code", JString "400");
           ("message", JString "bad")].

(** A 401 on a data endpoint and one on an auth endpoint. *)
Definition unauthorizedScans : ApiClient.AxiosError :=
  {| ApiClient.isAxiosError := true;
     ApiClient.responseStatus := Some 401%Z;
     ApiClient.configUrl := Some "/scans/" |}.
Definition unauthorizedMe : ApiClient.AxiosError :=
  {| ApiClient.isAxiosError := true;
     ApiClient.responseStatus := Some 401%Z;
     ApiClient.configUrl := Some "/auth/me/" |}.

(** Failed requests as the client's message helper sees them: one whose
    response body is an error envelope, and one that has only an empty
    message.  No value is taken for a cancellation. *)
Definition neverCancelled (error : JsValue) : bool := false.
Definition notFoundFailure : JsValue :=
  JObject [("message", JString "Request failed with status code 404");
           ("response",
            JObject [("status", JNumber 404);
                     ("data",
                      JObject [("error",
                                JObject [("code", JString "NOT_FOUND");
                                         ("message", JString "No such scan")])])])].
Definition emptyMessageError : JsValue := JObject [("message", JString "")].

(** A failed request answered with the legacy error envelope. *)
Definition legacyFailure : JsValue :=
  JObject [("response", JObject [("status", JNumber 400); ("data", legacyError)])].

(** The first page of ten, and a table that owns its pagination. *)
Definition firstPage : DataTable.PaginationState :=
  {| DataTable.pageIndex := 0; DataTable.pageSize := 10 |}.
Definition uncontrolled : DataTable.PaginationProps :=
  {| DataTable.externalPagination := None;
     DataTable.hasOnPaginationChange := false;
     DataTable.hasSetExternalPagination := false |}.
Definition controlled : DataTable.PaginationProps :=
  {| DataTable.externalPagination := Some firstPage;
     DataTable.hasOnPaginationChange := true;
     DataTable.hasSetExternalPagination := false |}.

(** An endpoints table on the third page of ten rows, of 41 rows in all,
    whose parent gave no page count. *)
Definition pagedEndpoints : EndpointsTable.Props :=
  {| EndpointsTable.externalPagination :=
       Some {| DataTable.pageIndex := 2; DataTable.pageSize := 10 |};
     EndpointsTable.hasOnPaginationChange := true;
     EndpointsTable.totalCount := Some 41%Z;
     EndpointsTable.totalPages := None |}.

(** A gallery page of two screenshots. *)
Definition twoShots : list Gallery.Screenshot :=
  [ {| Gallery.id := 7; Gallery.url := "https://a.example/";
       Gallery.statusCode := Some 200%Z;
       Gallery.createdAt := "2026-01-07T12:00:00Z" |};
    {| Gallery.id := 9; Gallery.url := "https://b.example/";
       Gallery.statusCode := None;
       Gallery.createdAt := "2026-01-07T12:00:05Z" |} ].

(** Rows: two records, one of them without an [id], and a hole. *)
Definition rowWithId : JsValue := JObject [("id", JNumber 3); ("url", JString "/a")].
Definition rowWithoutId : JsValue := JObject [("url", JString "/b")].


(** A sample engine.  Its values inherit the members of
    [Object.prototype], written as V8 writes them (the methods that
    arrays, strings, numbers and booleans have besides are left out);
    of the numbers beyond the safe integers it has the text of [1e21];
    its sums are exact. *)
Definition constructorName (p : Prototype) : string :=
  match p with
  | ObjectPrototype => "Object"
  | ArrayPrototype => "Array"
  | StringPrototype => "String"
  | NumberPrototype => "Number"
  | BooleanPrototype => "Boolean"
  end.
Definition nativeCode (name : string) : string :=
  "function " +:+ name +:+ "() { [native code] }".
Definition sampleMethods (p : Prototype) (k : string) : option string :=
  if String.eqb k "constructor" then Some (nativeCode (constructorName p))
  else if bool_decide
            (k ∈ ["hasOwnProperty"; "isPrototypeOf"; "propertyIsEnumerable";
                  "toLocaleString"; "toString"; "valueOf"; "__defineGetter__";
                  "__defineSetter__"; "__lookupGetter__"; "__lookupSetter__"])
       then Some (nativeCode k)
  else None.
Definition sampleEngine : Engine :=
  {| methodText := sampleMethods;
     largeNumberToString :=
       fun n => if (n =? 10 ^ 21)%Z then "1e+21" else pretty n;
     plus := Qplus |}.


(** The selected row ids, standing for the selected rows, and the row
    selections of five renders: nothing, row a, row a again, rows a and b,
    nothing. *)
Definition selectedIds (rowSelection : gmap string bool) : list string :=
  map fst (map_to_list (filter (fun kv => kv.2 = true) rowSelection)).
Definition fiveRenders : list (gmap string bool) :=
  [∅; {["a" := true]}; {["a" := true]}; <["b" := true]> {["a" := true]}; ∅].

(** A canvas on which every character is eight pixels wide, whatever the
    font, and a host that formats no date. *)
Definition eightPerChar (font text : string) : Q :=
  inject_Z (8 * Z.of_nat (String.length text)).
Definition noDateFormat (date locale : string) : option string := None.

(** A column bound to the [url] field and a display column with neither
    [accessorKey] nor [id]. *)
Definition urlColumn : TableUtils.ColumnDef :=
  {| TableUtils.accessorKey := Some "url"; TableUtils.id := None;
     TableUtils.size := None; TableUtils.minSize := Some 50%Q;
     TableUtils.maxSize := Some 1000%Q; TableUtils.enableAutoSize := None;
     TableUtils.title := Some "URL" |}.
Definition displayColumn : TableUtils.ColumnDef :=
  {| TableUtils.accessorKey := None; TableUtils.id := None;
     TableUtils.size := None; TableUtils.minSize := None;
     TableUtils.maxSize := None; TableUtils.enableAutoSize := None;
     TableUtils.title := Some "Actions" |}.

(** Columns named after members of [Object.prototype], and a row with a
    very large number. *)
Definition keyColumn (key : string) : TableUtils.ColumnDef :=
  {| TableUtils.accessorKey := Some key; TableUtils.id := None;
     TableUtils.size := None; TableUtils.minSize := None;
     TableUtils.maxSize := None; TableUtils.enableAutoSize := None;
     TableUtils.title := None |}.
Definition widthOptions (rows : list JsValue) (columns : list TableUtils.ColumnDef)
    : TableUtils.CalculateColumnWidthsOptions :=
  {| TableUtils.data := rows; TableUtils.columns := columns;
     TableUtils.font := None; TableUtils.cellPadding := None;
     TableUtils.headerFont := None; TableUtils.headerLabels := None;
     TableUtils.maxSampleRows := None; TableUtils.locale := None |}.
Definition hugeRow : JsValue := JObject [("n", JNumber (10 ^ 21))].

Definition urlRender : DataTable.SizingInput :=
  {| DataTable.enableAutoColumnSizing := true;
     DataTable.rows := [rowWithId; rowWithoutId];
     DataTable.columnDefs := [urlColumn; displayColumn];
     DataTable.tableLocale := "en" |}.
Definition notCalculated : DataTable.SizingState :=
  {| DataTable.columnSizing := ∅; DataTable.autoSizingCalculated := false |}.

(** Log lines *)
Definition infoLine : Regex.Text := LogViewer.cp "[INFO] scan started".
Definition stepLine : Regex.Text := LogViewer.cp "[1/4] resolving targets".
Definition traceLine : Regex.Text := LogViewer.cp "  File worker.py, line 12".
Definition warningLine : Regex.Text :=
  LogViewer.cp "[2026-01-07 12:00:00] [WARNING] disk almost full".
Definition warnLine : Regex.Text := LogViewer.cp "12:01:50.419 | WARN | prefect".
Definition criticalLine : Regex.Text := LogViewer.cp "CRITICAL - worker lost".
Definition errorLine : Regex.Text := LogViewer.cp "ERROR: scan failed".

(** A scan log entry, and a clock on which every date reads 12:01:50. *)
Definition firstLog : ScanLogs.ScanLog :=
  {| ScanLogs.id := 1; ScanLogs.level := LogViewer.cp "info";
     ScanLogs.content := LogViewer.cp "scan started";
     ScanLogs.createdAt := LogViewer.cp "2026-01-07T12:01:50Z" |}.
Definition secondLog : ScanLogs.ScanLog :=
  {| ScanLogs.id := 2; ScanLogs.level := LogViewer.cp "error";
     ScanLogs.content := LogViewer.cp "worker lost";
     ScanLogs.createdAt := LogViewer.cp "2026-01-07T12:01:50Z" |}.
Definition otherLog : ScanLogs.ScanLog :=
  {| ScanLogs.id := 5; ScanLogs.level := LogViewer.cp "debug";
     ScanLogs.content := LogViewer.cp "retrying";
     ScanLogs.createdAt := LogViewer.cp "2026-01-07T12:01:50Z" |}.
Definition noonClock (isoString : Regex.Text) : option (N * N * N) :=
  Some (12%N, 1%N, 50%N).

(** A host on which a date is written as its seconds since the epoch. *)
Definition secondsClock (date : string) : option Z :=
  if String.eqb date "0" then Some 0%Z
  else if String.eqb date "7500" then Some 7500000%Z
  else None.

(** A colourized log line and a query that occurs in it across the
    boundary between the time stamp and the level. *)
Definition stampedLine : Regex.Text :=
  LogViewer.cp "[2025-01-05 10:30:00] [INFO] ok".


End Examples.

(* ===================================================================== *)
(** * Theorems: lib/response-parser *)
(* ===================================================================== *)

Section ResponseParserFacts.
Import Js ResponseParser Examples.

Lemma isErrorResponse_code (response : JsValue) :
  isErrorResponse response = true ->
  exists code, getProperty "code" (getProperty "error" response) = JString code.
Proof.
  unfold isErrorResponse, isString. intros H.
  rewrite !andb_true_iff in H. destruct H as [_ H].
  destruct (getProperty "code" (getProperty "error" response)) eqn:E;
    simpl in *; try discriminate.
  eauto.
Qed.

Lemma isErrorResponse_object (response : JsValue) :
  isErrorResponse response = true -> isObjectLike response = true.
Proof.
  unfold isErrorResponse. intros H.
  rewrite !andb_true_iff in H. tauto.
Qed.

Lemma isLegacyResponse_object (response : JsValue) :
  isLegacyResponse response = true -> isObjectLike response = true.
Proof.
  unfold isLegacyResponse. intros H.
  rewrite !andb_true_iff in H. tauto.
Qed.

Lemma isObjectLike_not_nullish (v : JsValue) :
  isObjectLike v = true -> isNull v || isUndefined v = false.
Proof. destruct v; cbv; congruence. Qed.

Lemma getErrorCode_error (response : JsValue) (code : string) :
  isErrorResponse response = true ->
  getProperty "code" (getProperty "error" response) = JString code ->
  getErrorCode response = Some code.
Proof. intros H E. unfold getErrorCode. now rewrite H, E. Qed.

Lemma getErrorCode_legacy (response : JsValue) :
  isErrorResponse response = false ->
  isLegacyResponse response = true ->
  isLegacyErrorResponse response = true ->
  getErrorCode response = Some "SERVER_ERROR".
Proof. intros H1 H2 H3. unfold getErrorCode. now rewrite H1, H2, H3. Qed.

Lemma getErrorCode_neither (response : JsValue) :
  hasProperty "error" response = false ->
  hasProperty "state" response = false \/ hasProperty "code" response = false ->
  getErrorCode response = None.
Proof.
  intros H1 H2. unfold getErrorCode, isErrorResponse, isLegacyResponse.
  rewrite H1, andb_false_r. simpl.
  destruct H2 as [-> | ->]; now rewrite ?andb_false_r.
Qed.

(** C1 (as amended).  [getErrorCode] returns the inner code of a body that
    matches the current envelope; it returns ["SERVER_ERROR"] for a body
    that matches the legacy envelope with a non-success state and does not
    match the current envelope, which is tried first; and it returns
    [null] for an object with no [error] field and no [state] or [code]
    field.  The three example payloads give ["NOT_FOUND"], ["SERVER_ERROR"]
    and [null]. *)
Theorem getErrorCode_envelopes (response : JsValue) :
  (isErrorResponse response = true ->
   exists code,
     getProperty "code" (getProperty "error" response) = JString code
     /\ getErrorCode response = Some code)
  /\ (isErrorResponse response = false ->
      isLegacyResponse response = true ->
      isLegacyErrorResponse response = true ->
      getErrorCode response = Some "SERVER_ERROR")
  /\ (isObjectLike response = true ->
      hasProperty "error" response = false ->
      hasProperty "state" response = false ->
      hasProperty "code" response = false ->
      getErrorCode response = None)
  /\ getErrorCode notFoundError = Some "NOT_FOUND"
  /\ getErrorCode legacyError = Some "SERVER_ERROR"
  /\ getErrorCode barePayload = None.
Proof.
  split; [| split; [| split]].
  - intros H. destruct (isErrorResponse_code _ H) as [code E].
    exists code. split; [exact E | now apply getErrorCode_error].
  - apply getErrorCode_legacy.
  - intros _ He Hs _. apply getErrorCode_neither; auto.
  - repeat split; reflexivity.
Qed.

(** The three cases at the example payloads. *)
Lemma getErrorCode_envelopes_witness :
  (exists code,
     getProperty "code" (getProperty "error" notFoundError) = JString code
     /\ getErrorCode notFoundError = Some code)
  /\ getErrorCode legacyError = Some "SERVER_ERROR"
  /\ getErrorCode barePayload = None.
Proof.
  split; [| split].
  - apply (proj1 (getErrorCode_envelopes notFoundError)). reflexivity.
  - apply (proj1 (proj2 (getErrorCode_envelopes legacyError))); reflexivity.
  - apply (proj1 (proj2 (proj2 (getErrorCode_envelopes barePayload)))); reflexivity.
Defined.

(** C1, counterexample.  A body can match the legacy envelope with a
    non-success state and still not give ["SERVER_ERROR"]: when it also
    carries a current-format [error] object, that object's code wins. *)
Lemma getErrorCode_legacy_shadowed :
  isLegacyResponse hybridError = true
  /\ isLegacyErrorResponse hybridError = true
  /\ getErrorCode hybridError = Some "NOT_FOUND"
  /\ getErrorCode hybridError <> Some "SERVER_ERROR".
Proof. repeat split; try reflexivity. discriminate. Qed.

(** C9.  A response that yields an error code yields no data:
    whenever [getErrorCode] is not [null], [parseResponse] is [null]. *)
Theorem getErrorCode_excludes_data (response : JsValue) (code : string) :
  getErrorCode response = Some code -> parseResponse response = JNull.
Proof.
  unfold getErrorCode, parseResponse.
  destruct (isErrorResponse response) eqn:He.
  - intros _. rewrite (isObjectLike_not_nullish _ (isErrorResponse_object _ He)).
    reflexivity.
  - destruct (isLegacyResponse response) eqn:Hl; simpl; [| discriminate].
    destruct (isLegacyErrorResponse response) eqn:Hs; [| discriminate].
    intros _. rewrite (isObjectLike_not_nullish _ (isLegacyResponse_object _ Hl)).
    reflexivity.
Qed.

Lemma getErrorCode_excludes_data_witness :
  parseResponse notFoundError = JNull /\ parseResponse legacyError = JNull.
Proof.
  split.
  - apply (getErrorCode_excludes_data notFoundError "NOT_FOUND"). reflexivity.
  - apply (getErrorCode_excludes_data legacyError "SERVER_ERROR"). reflexivity.
Defined.

End ResponseParserFacts.

(* ===================================================================== *)
(** * Theorems: lib/api-client *)
(* ===================================================================== *)

Section ApiClientFacts.
Import ApiClient Examples.

Lemma prefix_true_iff (sub s : string) :
  String.prefix sub s = true <-> exists post, s = sub +:+ post.
Proof.
  revert s. induction sub as [| a sub IH]; intros s.
  - split; [intros _; now exists s | intros _; now destruct s].
  - destruct s as [| b s]; simpl.
    + split; [discriminate | intros [post H]; discriminate].
    + destruct (Ascii.ascii_dec a b) as [-> | Hne].
      * rewrite IH. split; intros [post H]; exists post.
        -- now rewrite H.
        -- simpl in H. now injection H.
      * split; [discriminate | intros [post H]; injection H; congruence].
Qed.

Lemma includes_true_iff (sub s : string) :
  includes sub s = true <-> Contains sub s.
Proof.
  unfold Contains. induction s as [| c s IH].
  - cbn [includes]. rewrite orb_false_r, prefix_true_iff. split.
    + intros [post H]. exists "", post. exact H.
    + intros [pre [post H]]. destruct pre; simpl in H; [now exists post |].
      discriminate.
  - cbn [includes]. rewrite orb_true_iff, IH, prefix_true_iff. split.
    + intros [[post H] | [pre [post H]]].
      * exists "", post. exact H.
      * exists (String c pre), post. simpl. now rewrite H.
    + intros [pre [post H]]. destruct pre as [| d pre]; simpl in H.
      * left. now exists post.
      * right. injection H as _ H. now exists pre, post.
Qed.

Lemma isAuthApi_true_iff (url : string) :
  isAuthApi url = true <->
  Contains "/auth/login" url \/ Contains "/auth/logout" url \/ Contains "/auth/me" url.
Proof.
  unfold isAuthApi. rewrite !orb_true_iff, !includes_true_iff. tauto.
Qed.

(** C8 (as amended).  For a failed response with status 401 the handler
    sets [window.location.href] to the login route exactly when it runs
    in a browser ([window] is defined) and the request URL contains none
    of [/auth/login], [/auth/logout], [/auth/me]; it sets nothing else,
    and it always rejects with the error it was given. *)
Theorem unauthorized_redirect (windowDefined : bool) (error : AxiosError) :
  isAxiosError error = true ->
  responseStatus error = Some 401%Z ->
  (redirect (onResponseError windowDefined error) = Some "/login" <->
   windowDefined = true
   /\ ~ (Contains "/auth/login" (requestUrl error)
         \/ Contains "/auth/logout" (requestUrl error)
         \/ Contains "/auth/me" (requestUrl error)))
  /\ (redirect (onResponseError windowDefined error) <> Some "/login" ->
      redirect (onResponseError windowDefined error) = None)
  /\ rejected (onResponseError windowDefined error) = error.
Proof.
  intros Ha Hs. unfold onResponseError. rewrite Ha, Hs.
  rewrite bool_decide_eq_true_2 by reflexivity. cbn [andb redirect rejected].
  rewrite <- isAuthApi_true_iff.
  destruct (isAuthApi (requestUrl error)) eqn:Hauth; destruct windowDefined;
    cbn [negb andb]; (split; [| split]); try reflexivity; try congruence.
  - split; [discriminate | intros [_ H]; now contradiction H].
  - split; [discriminate | intros [H _]; discriminate].
  - split; [intros _; split; [reflexivity | discriminate] | reflexivity].
  - split; [discriminate | intros [H _]; discriminate].
Qed.

Lemma unauthorized_redirect_witness :
  redirect (onResponseError true unauthorizedScans) = Some "/login"
  /\ redirect (onResponseError true unauthorizedMe) = None
  /\ rejected (onResponseError true unauthorizedScans) = unauthorizedScans.
Proof.
  split; [| split].
  - reflexivity.
  - apply (proj1 (proj2 (unauthorized_redirect true unauthorizedMe eq_refl eq_refl))).
    discriminate.
  - apply (proj2 (proj2 (unauthorized_redirect true unauthorizedScans eq_refl eq_refl))).
Defined.

(** C8, counterexample.  Where [window] is not defined (the client module
    evaluated on the server) a 401 on a data endpoint redirects nowhere,
    although its URL is no auth endpoint. *)
Lemma unauthorized_without_window :
  isAxiosError unauthorizedScans = true
  /\ responseStatus unauthorizedScans = Some 401%Z
  /\ isAuthApi (requestUrl unauthorizedScans) = false
  /\ redirect (onResponseError false unauthorizedScans) = None.
Proof. repeat split; reflexivity. Qed.

(** Whatever the error, the handler rejects with it. *)
Lemma onResponseError_rejects (windowDefined : bool) (error : AxiosError) :
  rejected (onResponseError windowDefined error) = error.
Proof. reflexivity. Qed.

(** Without a 401 there is no redirect. *)
Lemma onResponseError_other_status (windowDefined : bool) (error : AxiosError) :
  responseStatus error <> Some 401%Z ->
  redirect (onResponseError windowDefined error) = None.
Proof.
  intros H. unfold onResponseError.
  rewrite bool_decide_eq_false_2 by exact H. now rewrite andb_false_r.
Qed.

End ApiClientFacts.

(* ===================================================================== *)
(** * Theorems: UnifiedDataTable *)
(* ===================================================================== *)

Section PaginationFacts.
Import DataTable Examples.

(** C5.  A pagination update, given as a value or as an updater function,
    whose page index and page size both equal the current ones makes no
    call ([onPaginationChange], [setPagination], internal setter) and
    leaves the pagination state as it was. *)
Theorem handlePaginationChange_noop (props : PaginationProps)
    (internalPagination : PaginationState) (updater : Updater) :
  pageIndex (applyUpdater updater (pagination props internalPagination))
  = pageIndex (pagination props internalPagination) ->
  pageSize (applyUpdater updater (pagination props internalPagination))
  = pageSize (pagination props internalPagination) ->
  handlePaginationChange props internalPagination updater = ([], internalPagination)
  /\ pagination props (snd (handlePaginationChange props internalPagination updater))
     = pagination props internalPagination.
Proof.
  intros Hi Hs. unfold handlePaginationChange.
  rewrite Hi, Hs, !Z.eqb_refl. simpl. split; reflexivity.
Qed.

Lemma handlePaginationChange_noop_witness :
  handlePaginationChange uncontrolled firstPage (UpdaterFunction (fun p => p))
  = ([], firstPage)
  /\ handlePaginationChange controlled firstPage (UpdaterValue firstPage)
     = ([], firstPage).
Proof.
  split.
  - apply (handlePaginationChange_noop uncontrolled firstPage
             (UpdaterFunction (fun p => p)) eq_refl eq_refl).
  - apply (handlePaginationChange_noop controlled firstPage
             (UpdaterValue firstPage) eq_refl eq_refl).
Defined.

(** An update that changes the page index or the page size makes exactly
    one call. *)
Lemma handlePaginationChange_change (props : PaginationProps)
    (internalPagination : PaginationState) (updater : Updater) :
  pageIndex (applyUpdater updater (pagination props internalPagination))
  <> pageIndex (pagination props internalPagination)
  \/ pageSize (applyUpdater updater (pagination props internalPagination))
     <> pageSize (pagination props internalPagination) ->
  length (fst (handlePaginationChange props internalPagination updater)) = 1.
Proof.
  intros H. unfold handlePaginationChange.
  destruct (_ && _) eqn:E.
  - apply andb_prop in E as [E1 E2].
    apply Z.eqb_eq in E1, E2. tauto.
  - unfold isExternalPagination.
    destruct (bool_decide _), (hasOnPaginationChange props),
      (hasSetExternalPagination props); reflexivity.
Qed.

End PaginationFacts.

Section ValidDataFacts.
Import Js DataTable Examples.













End ValidDataFacts.

Section SelectionFacts.
Import DataTable.

Context (TData : Type) (selectedRows : gmap string bool -> list TData).

Lemma selectionChanged_same (rowSelection : gmap string bool) :
  selectionChanged rowSelection rowSelection = false.
Proof.
  unfold selectionChanged. rewrite Nat.eqb_refl. simpl.
  induction (map fst (map_to_list rowSelection)) as [| key keys IH]; simpl.
  - reflexivity.
  - rewrite bool_decide_eq_true_2 by reflexivity. exact IH.
Qed.

Lemma selectionChanged_false_eq (rowSelection prevSelection : gmap string bool) :
  selectionChanged rowSelection prevSelection = false ->
  rowSelection = prevSelection.
Proof.
  unfold selectionChanged. intros H.
  apply orb_false_elim in H as [Hsize Hkeys].
  apply negb_false_iff, Nat.eqb_eq in Hsize.
  apply map_subseteq_size_eq; [| lia].
  apply map_subseteq_spec. intros key b Hkey.
  assert (Hin : In key (map fst (map_to_list rowSelection))).
  { apply in_map_iff. exists (key, b). split; [reflexivity |].
    apply list_elem_of_In, elem_of_map_to_list, Hkey. }
  destruct (decide (rowSelection !! key = prevSelection !! key)) as [E | Hne].
  - now rewrite <- E.
  - exfalso. assert (Hex : existsb
      (fun key => negb (bool_decide (rowSelection !! key = prevSelection !! key)))
      (map fst (map_to_list rowSelection)) = true).
    { apply existsb_exists. exists key. split; [exact Hin |].
      now rewrite bool_decide_eq_false_2. }
    congruence.
Qed.

(** The comparison of the effect decides whether the two selection maps
    differ: in their key sets or in the boolean of some key. *)
Lemma selectionChanged_iff (rowSelection prevSelection : gmap string bool) :
  selectionChanged rowSelection prevSelection = true <->
  rowSelection <> prevSelection.
Proof.
  split.
  - intros H E. subst. now rewrite selectionChanged_same in H.
  - intros Hne. destruct (selectionChanged rowSelection prevSelection) eqn:E;
      [reflexivity |].
    now apply selectionChanged_false_eq in E.
Qed.

Lemma selection_eq_iff (m1 m2 : gmap string bool) :
  m1 = m2 <-> forall key, m1 !! key = m2 !! key.
Proof. split; [now intros -> | apply map_eq]. Qed.

Lemma selectionEffect_spec (prevSelection rowSelection : gmap string bool) :
  selectionEffect TData selectedRows true prevSelection rowSelection
  = if decide (rowSelection = prevSelection) then (rowSelection, None)
    else (rowSelection, Some (selectedRows rowSelection)).
Proof.
  unfold selectionEffect.
  destruct (decide (rowSelection = prevSelection)) as [-> | Hne].
  - now rewrite selectionChanged_same.
  - now rewrite (proj2 (selectionChanged_iff _ _) Hne).
Qed.

Lemma selectionEffects_changes (prevSelection : gmap string bool)
    (renders : list (gmap string bool)) :
  selectionEffects TData selectedRows true prevSelection renders
  = map (fmap selectedRows) (changesFrom prevSelection renders).
Proof.
  revert prevSelection. induction renders as [| r rest IH]; intros prev.
  - reflexivity.
  - cbn [selectionEffects changesFrom map]. rewrite selectionEffect_spec.
    destruct (decide (r = prev)); simpl; now rewrite IH.
Qed.

Lemma changesFrom_reported (prevSelection : gmap string bool)
    (renders : list (gmap string bool)) :
  changesFrom prevSelection renders = expectedCalls prevSelection renders.
Proof.
  revert prevSelection. induction renders as [| r rest IH]; intros prev; simpl.
  - reflexivity.
  - destruct (decide (r = prev)) as [-> | Hne]; now rewrite IH.
Qed.

Lemma selectionEffects_silent (prevSelection : gmap string bool)
    (renders : list (gmap string bool)) :
  selectionEffects TData selectedRows false prevSelection renders
  = map (fun _ => None) renders.
Proof.
  revert prevSelection. induction renders as [| r rest IH]; intros prev; simpl.
  - reflexivity.
  - now rewrite IH.
Qed.

(** C4.  Over any sequence of row-selection states the table sees, with
    an [onSelectionChange] callback passed: the comparison of the effect
    is true exactly when the new selection map differs from the one
    reported last (some key is bound in one and not the other, or to a
    different boolean); hence the callback is called, with the rows
    selected then, exactly at the states that differ from the last
    reported one (initially the empty selection), which are the states
    that differ from the state before them, and never at a state equal to
    the last reported one. *)
Theorem onSelectionChange_once_per_change (renders : list (gmap string bool)) :
  (forall rowSelection prevSelection : gmap string bool,
     selectionChanged rowSelection prevSelection = true <->
     ~ (forall key, rowSelection !! key = prevSelection !! key))
  /\ selectionEffects TData selectedRows true ∅ renders
     = map (fmap selectedRows) (expectedCalls ∅ renders)
  /\ selectionEffects TData selectedRows true ∅ renders
     = map (fmap selectedRows) (changesFrom ∅ renders).
Proof.
  split; [| split].
  - intros m1 m2. rewrite selectionChanged_iff, selection_eq_iff. reflexivity.
  - now rewrite selectionEffects_changes, changesFrom_reported.
  - apply selectionEffects_changes.
Qed.

End SelectionFacts.

Section SelectionExamples.
Import DataTable Examples.

(** Five renders, three changes, three calls. *)
Lemma onSelectionChange_five_renders :
  selectionEffects string selectedIds true ∅ fiveRenders
  = [None; Some ["a"]; None; Some ["a"; "b"]; Some []].
Proof. vm_compute. reflexivity. Qed.

End SelectionExamples.

(* ===================================================================== *)
(** * Theorems: lib/table-utils and the auto-sizing effect *)
(* ===================================================================== *)

Section WidthFacts.
Import Js TableUtils DataTable.


Lemma fold_Qmax_ge_start (cs : list Q) (start : Q) :
  (start <= fold_left Qmax cs start)%Q.
Proof.
  revert start. induction cs as [| c cs IH]; intros start; simpl.
  - apply Qle_refl.
  - eapply Qle_trans; [apply Q.le_max_l | apply IH].
Qed.




Lemma truthyNumber_Some (o : option Q) (q : Q) :
  truthyNumber o = Some q <-> o = Some q /\ ~ (q == 0)%Q.
Proof.
  unfold truthyNumber. destruct o as [x |]; [| split; [discriminate | intros [? _]; discriminate]].
  destruct (Qeq_bool x 0) eqn:E.
  - apply Qeq_bool_iff in E. split; [discriminate |].
    intros [[= ->] H]. contradiction.
  - split.
    + intros [= ->]. split; [reflexivity |]. intros H.
      apply Qeq_bool_iff in H. congruence.
    + now intros [-> _].
Qed.

(** ** Plain objects *)

Lemma lookup_assign_eq {A : Type} (key : string) (v : A) (o : gmap string A) :
  key <> "__proto__" -> assign key v o !! key = Some v.
Proof.
  intros Hkey. unfold assign.
  rewrite (proj2 (String.eqb_neq key "__proto__") Hkey). apply lookup_insert_eq.
Qed.

Lemma lookup_assign_ne {A : Type} (k key : string) (v : A) (o : gmap string A) :
  k <> key -> assign k v o !! key = o !! key.
Proof.
  intros Hne. unfold assign. destruct (String.eqb k "__proto__"); [reflexivity |].
  now apply lookup_insert_ne.
Qed.

Lemma lookup_assign_proto {A : Type} (k : string) (v : A) (o : gmap string A) :
  assign k v o !! "__proto__" = o !! "__proto__".
Proof.
  unfold assign. destruct (String.eqb k "__proto__") eqn:E; [reflexivity |].
  apply String.eqb_neq in E. now apply lookup_insert_ne.
Qed.

(** ** The sample *)



Lemma slice_app {A : Type} (count : Z) (rows extra : list A) :
  exists more, slice count (rows ++ extra) = slice count rows ++ more.
Proof.
  unfold slice. rewrite length_app, Nat2Z.inj_add.
  set (len := Z.of_nat (length rows)). set (len' := Z.of_nat (length extra)).
  set (k := Z.to_nat (if (count <? 0)%Z then Z.max (len + count) 0 else Z.min count len)).
  set (k' := Z.to_nat (if (count <? 0)%Z then Z.max (len + len' + count) 0
                       else Z.min count (len + len'))).
  assert (Hk : k <= length rows).
  { unfold k, len. destruct (count <? 0)%Z eqn:E; [apply Z.ltb_lt in E | apply Z.ltb_ge in E]; lia. }
  assert (Hkk : k <= k').
  { unfold k, k', len, len'.
    destruct (count <? 0)%Z eqn:E; [apply Z.ltb_lt in E | apply Z.ltb_ge in E]; lia. }
  exists (drop k (take k' (rows ++ extra))).
  rewrite <- (take_drop k (take k' (rows ++ extra))) at 1.
  f_equal. rewrite take_take, Nat.min_l by exact Hkk.
  rewrite take_app_le by exact Hk. reflexivity.
Qed.

Context (engine : Engine).
Context (measureText : string -> string -> Q).
Context (toLocaleString : string -> string -> option string).

(** ** The inner loop *)

(** When the inner loop returns, it has computed the maximum of the
    start value and the sampled cell widths. *)
Lemma measureRows_cellWidths (font locale : string) (cellPadding : Q) (key : string)
    (sampleData : list JsValue) (start raw : Q) :
  measureRows engine measureText toLocaleString font locale cellPadding key sampleData start
  = Some raw ->
  raw = fold_left Qmax
          (cellWidths engine measureText toLocaleString font locale cellPadding key
             sampleData)
          start.
Proof.
  revert start. induction sampleData as [| row rest IH]; intros start; cbn [measureRows].
  - now intros [= <-].
  - unfold measureRow, cellWidths. cbn [omap list_omap].
    destruct (readCell engine toLocaleString locale key row) as [[textValue |] |];
      [| | discriminate]; intros H; apply IH in H; exact H.
Qed.




(** ** The loop over the columns *)

Section Columns.

Variables (font headerFont locale : string) (cellPadding : Q).
Variables (labels : gmap string string) (sampleData : list JsValue).

Let step := columnStep engine measureText toLocaleString font headerFont locale
              cellPadding labels sampleData.
Let steps := columnSteps engine measureText toLocaleString font headerFont locale
               cellPadding labels sampleData.
Let auto := autoWidth engine measureText toLocaleString font headerFont locale
              cellPadding labels sampleData.

(** What a contributing column leaves under its key. *)
Lemma columnSteps_proto (cols : list ColumnDef) (acc widths : gmap string Q) :
  steps cols acc = Some widths -> widths !! "__proto__" = acc !! "__proto__".
Proof using Type.
  revert acc. induction cols as [| c rest IH]; intros acc; cbn.
  - now intros [= <-].
  - destruct (columnStep _ _ _ _ _ _ _ _ _ acc c) as [acc1 |] eqn:Hstep; [| discriminate].
    intros H. rewrite (IH _ H). unfold columnStep in Hstep.
    destruct (columnId c) as [k |]; [| now injection Hstep as <-].
    case_bool_decide.
    + destruct (truthyNumber (size c)); injection Hstep as <-;
        [apply lookup_assign_proto | reflexivity].
    + destruct (autoWidth _ _ _ _ _ _ _ _ _ c k); [| discriminate].
      injection Hstep as <-. apply lookup_assign_proto.
Qed.

Lemma columnSteps_entries (cols : list ColumnDef) (acc widths : gmap string Q)
    (key : string) :
  steps cols acc = Some widths ->
  key <> "__proto__" ->
  (widths !! key = acc !! key /\ Forall (fun c => ~ Contributes c key) cols)
  \/ exists before column after w,
       cols = before ++ column :: after
       /\ Contributes column key
       /\ Forall (fun c => ~ Contributes c key) after
       /\ widths !! key = Some w
       /\ (enableAutoSize column = Some false /\ truthyNumber (size column) = Some w
           \/ enableAutoSize column <> Some false /\ auto column key = Some w).
Proof using Type.
  intros Hsteps Hkey. revert acc Hsteps.
  induction cols as [| c rest IH]; intros acc; cbn.
  - intros [= <-]. left. split; [reflexivity | constructor].
  - destruct (columnStep _ _ _ _ _ _ _ _ _ acc c) as [acc1 |] eqn:Hstep; [| discriminate].
    intros H. destruct (IH _ H) as [[Hw Hrest] | (before & column & after & w & -> & Hc)].
    2:{ right. exists (c :: before), column, after, w. split; [reflexivity | exact Hc]. }
    unfold columnStep in Hstep.
    destruct (columnId c) as [k |] eqn:Hk.
    2:{ injection Hstep as <-. left. split; [exact Hw |].
        constructor; [| exact Hrest]. intros [Hid _]. congruence. }
    destruct (decide (k = key)) as [-> | Hne].
    + case_bool_decide as Hoff.
      * destruct (truthyNumber (size c)) as [s |] eqn:Hs; injection Hstep as <-.
        -- right. exists [], c, rest, s. split; [reflexivity |].
           split; [split; [exact Hk | right; eauto] |].
           split; [exact Hrest |].
           split; [rewrite Hw; now apply lookup_assign_eq | left; auto].
        -- left. split; [exact Hw |]. constructor; [| exact Hrest].
           intros [_ [Hon | [s Hsome]]]; [contradiction | congruence].
      * destruct (autoWidth _ _ _ _ _ _ _ _ _ c key) as [w |] eqn:Hauto; [| discriminate].
        injection Hstep as <-.
        right. exists [], c, rest, w. split; [reflexivity |].
        split; [split; [exact Hk | left; exact Hoff] |].
        split; [exact Hrest |].
        split; [rewrite Hw; now apply lookup_assign_eq | right; auto].
    + assert (Hacc : acc1 !! key = acc !! key).
      { case_bool_decide.
        - destruct (truthyNumber (size c)); injection Hstep as <-;
            [now apply lookup_assign_ne | reflexivity].
        - destruct (autoWidth _ _ _ _ _ _ _ _ _ c k); [| discriminate].
          injection Hstep as <-. now apply lookup_assign_ne. }
      left. split; [now rewrite Hw |]. constructor; [| exact Hrest].
      intros [Hid _]. congruence.
Qed.


End Columns.

(** A key is in the result exactly when it is not [__proto__] and some
    column contributes to it. *)
Lemma calculateColumnWidths_key (o : CalculateColumnWidthsOptions)
    (widths : gmap string Q) (key : string) :
  calculateColumnWidths engine measureText toLocaleString o = Some widths ->
  is_Some (widths !! key) <->
  key <> "__proto__" /\ exists column, In column (columns o) /\ Contributes column key.
Proof.
  unfold calculateColumnWidths. intros Hsteps.
  destruct (decide (key = "__proto__")) as [-> | Hkey].
  - rewrite (columnSteps_proto _ _ _ _ _ _ _ _ _ Hsteps), lookup_empty.
    split; [intros [? [=]] | intros [H _]; contradiction].
  - destruct (columnSteps_entries _ _ _ _ _ _ _ _ _ key Hsteps Hkey)
      as [[Hw Hnone] | (before & column & after & w & Hcols & Hc & _ & Hw & _)].
    + rewrite Hw, lookup_empty. split; [intros [? [=]] |].
      intros (_ & column & Hin & Hc).
      rewrite List.Forall_forall in Hnone. exfalso. exact (Hnone column Hin Hc).
    + rewrite Hw. split; [| eauto]. intros _. split; [exact Hkey |].
      exists column. split; [| exact Hc]. rewrite Hcols.
      apply in_or_app. right. now left.
Qed.


(** ** The effect *)



Lemma autoSizingEffect_run (input : SizingInput) (st : SizingState) :
  enableAutoColumnSizing input = true -> rows input <> [] ->
  autoSizingCalculated st = false ->
  autoSizingEffect engine measureText toLocaleString input st
  = match calculateColumnWidths engine measureText toLocaleString (sizingOptions input) with
    | Some calculatedWidths =>
        if decide (calculatedWidths = ∅) then Some (st, 1)
        else Some ({| columnSizing := calculatedWidths; autoSizingCalculated := true |}, 1)
    | None => None
    end.
Proof.
  intros He Hr Hc. unfold autoSizingEffect. rewrite He, Hc.
  destruct (rows input) as [| row rest] eqn:Er; [contradiction |].
  cbn [negb orb length Nat.eqb].
  destruct (calculateColumnWidths _ _ _ _) as [calculatedWidths |]; [| reflexivity].
  destruct (decide (calculatedWidths = ∅)) as [E | Hne].
  - rewrite E. reflexivity.
  - apply map_size_non_empty_iff in Hne.
    destruct (base.size _) eqn:Es; [contradiction | reflexivity].
Qed.


End WidthFacts.

Section WidthExamples.
Import Js TableUtils DataTable Examples.



(** The corners of the calculation on the sample engine: a column named
    [__proto__] gets no width; the header of a column named [constructor]
    is measured as the text of the inherited function; the number 1e21 is
    measured as its exponent form; a [null] row makes the calculation
    throw. *)
Lemma calculateColumnWidths_corners :
  calculateColumnWidths sampleEngine eightPerChar noDateFormat
    (widthOptions [rowWithId] [keyColumn "__proto__"]) = Some ∅
  /\ calculateColumnWidths sampleEngine eightPerChar noDateFormat
       (widthOptions [rowWithId] [keyColumn "constructor"])
     ≫= (fun widths => widths !! "constructor") = Some 312%Q
  /\ calculateColumnWidths sampleEngine eightPerChar noDateFormat
       (widthOptions [hugeRow] [keyColumn "n"])
     ≫= (fun widths => widths !! "n") = Some 72%Q
  /\ calculateColumnWidths sampleEngine eightPerChar noDateFormat
       (widthOptions [rowWithId; JNull] [keyColumn "url"]) = None.
Proof.
  repeat split; vm_compute; reflexivity.
Qed.

End WidthExamples.

(* ===================================================================== *)
(** * Theorems: the matcher on literal patterns *)
(* ===================================================================== *)

Section RegexFacts.
Import Regex.

Lemma sameChar_refl (fl : Flags) (c : N) : sameChar fl c c = true.
Proof. unfold sameChar. apply N.eqb_refl. Qed.

Lemma prefixMatches_app (fl : Flags) (p rest : Text) :
  prefixMatches fl p (p ++ rest) = true.
Proof.
  induction p as [| c p IH]; simpl; [reflexivity |].
  now rewrite sameChar_refl, IH.
Qed.

Lemma prefixMatches_length (fl : Flags) (p s : Text) :
  prefixMatches fl p s = true -> length p <= length s.
Proof.
  revert s. induction p as [| c p IH]; intros [| d s]; simpl; try lia; try discriminate.
  intros H. apply andb_prop in H as [_ H]. apply IH in H. lia.
Qed.

Lemma prefixMatches_take (fl : Flags) (p s : Text) :
  prefixMatches fl p s = true -> prefixMatches fl p (take (length p) s) = true.
Proof.
  revert s. induction p as [| c p IH]; intros [| d s]; simpl; try reflexivity;
    try discriminate.
  intros H. apply andb_prop in H as [H1 H2]. now rewrite H1, IH.
Qed.

(** A literal pattern matches where its characters match one by one. *)
Lemma run_Lit {A : Type} (fl : Flags) (p s : Text) (caps : Caps)
    (k : Text -> Caps -> option A) :
  run fl (Lit p) s caps k
  = if prefixMatches fl p s then k (drop (length p) s) caps else None.
Proof.
  revert s. induction p as [| c p IH]; intros s.
  - reflexivity.
  - cbn [Lit run]. destruct s as [| d s]; [reflexivity |].
    cbn [prefixMatches length drop]. destruct (sameChar fl c d); [| reflexivity].
    apply IH.
Qed.

Lemma matchPrefix_literal (fl : Flags) (i : nat) (p s : Text) :
  matchPrefix fl (Group i (Lit p)) s
  = if prefixMatches fl p s
    then Some (take (length p) s, drop (length p) s, [(i, take (length p) s)])
    else None.
Proof.
  unfold matchPrefix. cbn [run]. rewrite run_Lit.
  destruct (prefixMatches fl p s) eqn:E; [| reflexivity].
  apply prefixMatches_length in E. rewrite length_drop.
  replace (length s - (length s - length p)) with (length p) by lia.
  reflexivity.
Qed.

(** One step of the global scan for a non-empty literal. *)
Lemma scan_literal_step (fl : Flags) (i : nat) (c : N) (p s : Text) (fuel : nat) :
  scan fl (Group i (Lit (c :: p))) (S fuel) s
  = if prefixMatches fl (c :: p) s
    then Hit (take (length (c :: p)) s) [(i, take (length (c :: p)) s)]
         :: scan fl (Group i (Lit (c :: p))) fuel (drop (length (c :: p)) s)
    else match s with
         | [] => []
         | d :: s' => Plain d :: scan fl (Group i (Lit (c :: p))) fuel s'
         end.
Proof.
  cbn [scan]. rewrite matchPrefix_literal.
  destruct (prefixMatches fl (c :: p) s) eqn:E; [| reflexivity].
  destruct s as [| d s]; [discriminate |]. reflexivity.
Qed.

(** The scan loses nothing of the text. *)
Lemma scan_literal_text (fl : Flags) (i : nat) (c : N) (p : Text) (fuel : nat) (s : Text) :
  length s < fuel ->
  piecesText (scan fl (Group i (Lit (c :: p))) fuel s) = s.
Proof.
  revert s. induction fuel as [| fuel IH]; intros s Hfuel; [lia |].
  rewrite scan_literal_step.
  destruct (prefixMatches fl (c :: p) s) eqn:E.
  - unfold piecesText. cbn [flat_map pieceText].
    change (flat_map pieceText) with piecesText.
    rewrite IH; [apply take_drop |].
    apply prefixMatches_length in E.
    rewrite length_drop. cbn [length] in *. lia.
  - destruct s as [| d s]; [reflexivity |].
    unfold piecesText. cbn [flat_map pieceText app].
    change (flat_map pieceText) with piecesText.
    rewrite IH; [reflexivity | cbn [length] in Hfuel; lia].
Qed.

(** Every place where the literal matches is met by a hit of the scan:
    the hit starts at or before the place and ends after it. *)
Lemma scan_literal_covers (fl : Flags) (i : nat) (c : N) (p : Text)
    (fuel : nat) (s : Text) (o : nat) :
  length s < fuel ->
  prefixMatches fl (c :: p) (drop o s) = true ->
  exists pre m post,
    scan fl (Group i (Lit (c :: p))) fuel s = pre ++ Hit m [(i, m)] :: post
    /\ length (piecesText pre) <= o < length (piecesText pre) + length m
    /\ length m = length (c :: p)
    /\ prefixMatches fl (c :: p) m = true.
Proof.
  revert s o. induction fuel as [| fuel IH]; intros s o Hfuel Hocc; [lia |].
  rewrite scan_literal_step.
  pose proof (prefixMatches_length _ _ _ Hocc) as Hlen.
  rewrite length_drop in Hlen. cbn [length] in Hlen.
  destruct (prefixMatches fl (c :: p) s) eqn:E.
  - pose proof (prefixMatches_length _ _ _ E) as Hs. cbn [length] in Hs.
    destruct (decide (o < length (c :: p))) as [Hin | Hout].
    + exists [], (take (length (c :: p)) s),
        (scan fl (Group i (Lit (c :: p))) fuel (drop (length (c :: p)) s)).
      split; [reflexivity |].
      rewrite length_take. cbn [length piecesText flat_map] in *.
      split; [lia | split; [lia |]].
      now apply (prefixMatches_take fl (c :: p)).
    + destruct (IH (drop (length (c :: p)) s) (o - length (c :: p)))
        as (pre & m & post & Hscan & Hpos & Hm & Hpm).
      * rewrite length_drop. cbn [length]. lia.
      * rewrite drop_drop.
        replace (length (c :: p) + (o - length (c :: p))) with o by lia.
        exact Hocc.
      * exists (Hit (take (length (c :: p)) s) [(i, take (length (c :: p)) s)] :: pre),
          m, post.
        split; [now rewrite Hscan |].
        unfold piecesText in *. cbn [flat_map pieceText].
        rewrite length_app, length_take. cbn [length] in *.
        split; [lia | split; [exact Hm | exact Hpm]].
  - destruct s as [| d s]; [cbn [length] in Hlen; lia |].
    destruct o as [| o]; [cbn [drop] in Hocc; congruence |].
    destruct (IH s o) as (pre & m & post & Hscan & Hpos & Hm & Hpm).
    + cbn [length] in Hfuel. lia.
    + exact Hocc.
    + exists (Plain d :: pre), m, post.
      split; [now rewrite Hscan |].
      unfold piecesText in *. cbn [flat_map pieceText app length].
      split; [lia | split; [exact Hm | exact Hpm]].
Qed.

(** Greedy repetition of a character class swallows the run of
    characters of the class at the head of the text, up to the first
    character outside it, when the continuation accepts what follows. *)
Lemma starLoop_span {A : Type} (fl : Flags) (cls : N -> bool)
    (k : Text -> Caps -> option A) (fuel : nat) (body rest : Text) (caps : Caps)
    (x : A) :
  Forall (fun c => cls c = true) body ->
  match rest with [] => True | d :: _ => cls d = false end ->
  length (body ++ rest) <= fuel ->
  k rest caps = Some x ->
  starLoop (run fl (Cls cls)) k fuel (body ++ rest) caps = Some x.
Proof.
  intros Hbody Hrest Hfuel Hk. revert fuel Hfuel.
  induction Hbody as [| d body Hd _ IH]; intros fuel Hfuel.
  - cbn [app]. destruct fuel as [| fuel]; [exact Hk |]. cbn [starLoop run].
    destruct rest as [| d rest]; [exact Hk |]. now rewrite Hrest.
  - destruct fuel as [| fuel]; [cbn [length app] in Hfuel; lia |].
    cbn [starLoop run app]. rewrite Hd.
    replace (length (body ++ rest) <? length (d :: body ++ rest)) with true
      by (symmetry; apply Nat.ltb_lt; cbn [length]; lia).
    rewrite IH; [reflexivity | cbn [length app] in Hfuel; lia].
Qed.

(** The equations of the matcher, for rewriting step by step. *)
Lemma run_Seq_eq {A : Type} (fl : Flags) (a b : Re) (s : Text) (caps : Caps)
    (k : Text -> Caps -> option A) :
  run fl (Seq a b) s caps k = run fl a s caps (fun s' caps' => run fl b s' caps' k).
Proof. reflexivity. Qed.

Lemma run_Group_eq {A : Type} (fl : Flags) (i : nat) (a : Re) (s : Text) (caps : Caps)
    (k : Text -> Caps -> option A) :
  run fl (Group i a) s caps k
  = run fl a s caps
      (fun s' caps' => k s' ((i, take (length s - length s') s) :: caps')).
Proof. reflexivity. Qed.

Lemma run_Alt_left {A : Type} (fl : Flags) (a b : Re) (s : Text) (caps : Caps)
    (k : Text -> Caps -> option A) (x : A) :
  run fl a s caps k = Some x -> run fl (Alt a b) s caps k = Some x.
Proof. cbn [run]. now intros ->. Qed.

Lemma run_Alt_right {A : Type} (fl : Flags) (a b : Re) (s : Text) (caps : Caps)
    (k : Text -> Caps -> option A) :
  run fl a s caps k = None -> run fl (Alt a b) s caps k = run fl b s caps k.
Proof. cbn [run]. now intros ->. Qed.

Lemma run_Cls_cons {A : Type} (fl : Flags) (cls : N -> bool) (d : N) (s : Text)
    (caps : Caps) (k : Text -> Caps -> option A) :
  run fl (Cls cls) (d :: s) caps k = if cls d then k s caps else None.
Proof. reflexivity. Qed.

(** One or more characters of a class: the whole run of them at the head
    of the text is taken when the continuation accepts what follows. *)
Lemma run_Plus_Cls {A : Type} (fl : Flags) (cls : N -> bool)
    (k : Text -> Caps -> option A) (c : N) (body rest : Text) (caps : Caps) (x : A) :
  cls c = true ->
  Forall (fun d => cls d = true) body ->
  match rest with [] => True | d :: _ => cls d = false end ->
  k rest caps = Some x ->
  run fl (Plus (Cls cls)) (c :: body ++ rest) caps k = Some x.
Proof.
  intros Hc Hbody Hrest Hk. unfold Plus.
  rewrite run_Seq_eq, run_Cls_cons, Hc.
  change (starLoop (run fl (Cls cls)) k (length (body ++ rest)) (body ++ rest) caps
          = Some x).
  now apply starLoop_span.
Qed.

Lemma take_matched (m rest : Text) :
  take (length (m ++ rest) - length rest) (m ++ rest) = m.
Proof.
  rewrite length_app, Nat.add_sub. apply take_app_length.
Qed.

(** The scan for a character class visits the characters one by one. *)
Lemma scan_class (fl : Flags) (cls : N -> bool) (fuel : nat) (s : Text) :
  length s < fuel ->
  scan fl (Cls cls) fuel s
  = map (fun c => if cls c then Hit [c] [] else Plain c) s.
Proof.
  revert s. induction fuel as [| fuel IH]; intros s Hfuel; [lia |].
  destruct s as [| c s].
  - reflexivity.
  - cbn [scan matchPrefix run map]. cbn [length] in Hfuel.
    destruct (cls c).
    + replace (length (c :: s) - length s) with 1 by (cbn [length]; lia).
      cbn [take]. rewrite IH by lia. reflexivity.
    + rewrite IH by lia. reflexivity.
Qed.

(** A pattern without groups hands the captures on unchanged. *)
Lemma starLoop_captures {A : Type}
    (body : Text -> Caps -> (Text -> Caps -> option A) -> option A)
    (k : Text -> Caps -> option A) (fuel : nat) (s : Text) (caps : Caps) (x : A) :
  (forall s0 caps0 k0 x0,
     body s0 caps0 k0 = Some x0 -> exists s', k0 s' caps0 = Some x0) ->
  starLoop body k fuel s caps = Some x ->
  exists s', k s' caps = Some x.
Proof.
  intros Hbody. revert s. induction fuel as [| fuel IH]; intros s; cbn [starLoop].
  - eauto.
  - destruct (body s caps _) as [y |] eqn:E; [| eauto].
    intros [= ->]. apply Hbody in E as [s' E].
    destruct (length s' <? length s); [| discriminate]. eauto.
Qed.

Lemma run_groupFree {A : Type} (fl : Flags) (r : Re) (s : Text) (caps : Caps)
    (k : Text -> Caps -> option A) (x : A) :
  groupFree r = true ->
  run fl r s caps k = Some x ->
  exists s', k s' caps = Some x.
Proof.
  revert s caps k x.
  induction r as [| c | p | a IHa b IHb | a IHa b IHb | a IHa | i a IHa |];
    intros s caps k x Hfree; cbn [run groupFree] in *.
  - eauto.
  - destruct s as [| d s]; [discriminate |].
    destruct (sameChar fl c d); [eauto | discriminate].
  - destruct s as [| d s]; [discriminate |].
    destruct (p d); [eauto | discriminate].
  - apply andb_prop in Hfree as [Ha Hb]. intros H.
    apply (IHa _ _ _ _ Ha) in H as [s1 H]. now apply (IHb _ _ _ _ Hb) in H.
  - apply andb_prop in Hfree as [Ha Hb].
    destruct (run fl a s caps k) as [y |] eqn:E.
    + intros [= ->]. now apply (IHa _ _ _ _ Ha) in E.
    + now apply IHb.
  - apply starLoop_captures. intros s0 caps0 k0 x0. now apply IHa.
  - discriminate.
  - destruct s; [eauto | discriminate].
Qed.

Lemma run_Lit_inv {A : Type} (fl : Flags) (lit s : Text) (caps : Caps)
    (k : Text -> Caps -> option A) (x : A) :
  run fl (Lit lit) s caps k = Some x ->
  prefixMatches fl lit s = true /\ k (drop (length lit) s) caps = Some x.
Proof.
  rewrite run_Lit. destruct (prefixMatches fl lit s); [auto | discriminate].
Qed.

(** An alternation of literals matches with one of them. *)
Lemma run_AnyOf_Lit {A : Type} (fl : Flags) (lits : list Text) (s : Text) (caps : Caps)
    (k : Text -> Caps -> option A) (x : A) :
  run fl (AnyOf (map Lit lits)) s caps k = Some x ->
  exists lit,
    In lit lits /\ prefixMatches fl lit s = true
    /\ k (drop (length lit) s) caps = Some x.
Proof.
  induction lits as [| lit lits IH];
    [cbn [map AnyOf run]; destruct s; discriminate |].
  destruct lits as [| lit' lits].
  - cbn [map AnyOf]. intros H. apply run_Lit_inv in H.
    exists lit. split; [now left | exact H].
  - change (AnyOf (map Lit (lit :: lit' :: lits)))
      with (Alt (Lit lit) (AnyOf (map Lit (lit' :: lits)))).
    cbn [run]. destruct (run fl (Lit lit) s caps k) as [y |] eqn:E.
    + intros [= ->]. apply run_Lit_inv in E. exists lit. split; [now left | exact E].
    + intros H. apply IH in H as (l & Hin & Hl). exists l. split; [now right | exact Hl].
Qed.

End RegexFacts.


(* ===================================================================== *)
(** * Theorems: the level filter of the log viewer *)
(* ===================================================================== *)

Section LevelFilterFacts.
Import Regex LogViewer Examples.

(** ** What the level patterns capture *)

Lemma toUpperCase_matched (lit t : Text) :
  Forall (fun c => isUpper c = true) lit ->
  length t = length lit ->
  prefixMatches flagI lit t = true ->
  toUpperCase t = lit.
Proof.
  intros Hup. revert t. induction Hup as [| c lit Hc _ IH]; intros [| d t] Hlen Hm;
    try discriminate; [reflexivity |].
  cbn [prefixMatches] in Hm. apply andb_prop in Hm as [Hcd Hm].
  cbn [toUpperCase map]. fold (toUpperCase t).
  rewrite IH by (cbn [length] in Hlen; auto with arith).
  f_equal. unfold sameChar, canonicalize, flagI in Hcd. cbn [ignoreCase unicode negb andb] in Hcd.
  unfold isUpper, isLower, inRange in *.
  apply N.eqb_eq in Hcd.
  destruct ((97 <=? c)%N && (c <=? 122)%N) eqn:Ec.
  - apply andb_prop in Hc as [H1 H2]. apply andb_prop in Ec as [H3 H4].
    apply N.leb_le in H1, H2, H3, H4. lia.
  - destruct ((97 <=? d)%N && (d <=? 122)%N) eqn:Ed; [| now symmetry].
    now symmetry.
Qed.

Lemma LEVEL_NAMES_upper (lit : Text) :
  In lit LEVEL_NAMES -> Forall (fun c => isUpper c = true) lit.
Proof.
  unfold LEVEL_NAMES. cbn [In]. intros H.
  repeat (destruct H as [<- | H]; [vm_compute; repeat constructor |]).
  destruct H.
Qed.

Lemma levelGroup_inv {A : Type} (i : nat) (s : Text) (caps : Caps)
    (k : Text -> Caps -> option A) (x : A) :
  run flagI (levelGroup i) s caps k = Some x ->
  exists t s', In (toUpperCase t) LEVEL_NAMES /\ k s' ((i, t) :: caps) = Some x.
Proof.
  change (levelGroup i) with (Group i (AnyOf (map Lit LEVEL_NAMES))).
  cbn [run]. intros H. apply run_AnyOf_Lit in H as (lit & Hin & Hm & Hk).
  pose proof (prefixMatches_length _ _ _ Hm) as Hlen.
  rewrite length_drop in Hk.
  replace (length s - (length s - length lit)) with (length lit) in Hk by lia.
  exists (take (length lit) s), (drop (length lit) s). split; [| exact Hk].
  rewrite (toUpperCase_matched lit).
  - exact Hin.
  - now apply LEVEL_NAMES_upper.
  - rewrite length_take. lia.
  - now apply prefixMatches_take.
Qed.

Lemma levelShape_inv {A : Type} (r : Re) (s : Text) (caps : Caps)
    (k : Text -> Caps -> option A) (x : A) :
  LevelShape r ->
  run flagI r s caps k = Some x ->
  exists t s', In (toUpperCase t) LEVEL_NAMES /\ k s' ((1, t) :: caps) = Some x.
Proof.
  intros Hshape. revert s. induction Hshape as [rest Hrest | a rest Ha _ IH]; intros s.
  - cbn [run]. intros H. apply levelGroup_inv in H as (t & s1 & Hin & H).
    apply run_groupFree in H as [s2 H]; [| exact Hrest]. eauto.
  - cbn [run]. intros H. apply run_groupFree in H as [s1 H]; [| exact Ha].
    now apply IH in H.
Qed.

Lemma LOG_LEVEL_PATTERNS_shape : Forall LevelShape LOG_LEVEL_PATTERNS.
Proof.
  unfold LOG_LEVEL_PATTERNS.
  repeat (constructor;
          [cbn [Cat];
           repeat first [ apply LevelHere; reflexivity
                        | apply LevelLater; [reflexivity |] ] |]).
  constructor.
Qed.

Lemma extractWith_range (patterns : list Re) (line level : Text) :
  Forall LevelShape patterns ->
  extractWith patterns line = Some level -> In level LEVEL_NAMES.
Proof.
  induction 1 as [| pattern patterns Hp _ IH]; cbn [extractWith]; [discriminate |].
  destruct (matchPrefix flagI pattern line) as [[[m rest] caps] |] eqn:E; [| exact IH].
  intros [= <-]. unfold matchPrefix in E.
  apply (levelShape_inv _ _ _ _ _ Hp) in E as (t & s' & Hin & [= _ _ <-]).
  cbn [capture Nat.eqb default]. exact Hin.
Qed.

(** The level extracted from a line is one of the six names, in upper
    case; in particular it is never the empty string. *)
Lemma extractLogLevel_range (line level : Text) :
  extractLogLevel line = Some level -> In level LEVEL_NAMES.
Proof. apply extractWith_range, LOG_LEVEL_PATTERNS_shape. Qed.

Lemma recognizedLevel_extract (line : Text) :
  recognizedLevel line = extractLogLevel line.
Proof.
  unfold recognizedLevel. destruct (extractLogLevel line) as [level |] eqn:E;
    [| reflexivity].
  apply extractLogLevel_range in E. unfold LEVEL_NAMES in E. cbn [In] in E.
  repeat (destruct E as [<- | E]; [reflexivity |]). destruct E.
Qed.

Lemma recognizedLevel_range (line level : Text) :
  recognizedLevel line = Some level -> In level LEVEL_NAMES.
Proof. rewrite recognizedLevel_extract. apply extractLogLevel_range. Qed.

(** ** The loop *)

Lemma lineStep_state (targetLevel : Text) (lines : list Text) :
  fold_left (lineStep targetLevel) lines (false, [])
  = (visibility targetLevel lines, filterLines targetLevel lines).
Proof. unfold visibility, filterLines. now destruct (fold_left _ _ _). Qed.

Lemma filterLines_snoc (targetLevel : Text) (before : list Text) (line : Text) :
  filterLines targetLevel (before ++ [line])
  = filterLines targetLevel before
    ++ (if visibility targetLevel (before ++ [line]) then [line] else []).
Proof.
  unfold filterLines at 1, visibility.
  rewrite fold_left_app, lineStep_state. cbn [fold_left lineStep fst snd].
  destruct (blockVisible _ _ _); [reflexivity | now rewrite app_nil_r].
Qed.

Lemma visibility_snoc (targetLevel : Text) (before : list Text) (line : Text) :
  visibility targetLevel (before ++ [line])
  = blockVisible targetLevel (visibility targetLevel before) line.
Proof.
  unfold visibility at 1. rewrite fold_left_app, lineStep_state. reflexivity.
Qed.

Lemma isContinuation_true (line : Text) :
  isContinuation line = true ->
  recognizedLevel line = None /\ isNewEntryStart line = false.
Proof.
  unfold isContinuation. intros H. apply andb_prop in H as [H1 H2].
  apply bool_decide_eq_true in H1. now apply negb_true_iff in H2.
Qed.

(** Continuation lines follow the block they are in. *)
Lemma lineStep_continuation (targetLevel : Text) (lines : list Text)
    (vis : bool) (acc : list Text) :
  Forall (fun line => isContinuation line = true) lines ->
  fold_left (lineStep targetLevel) lines (vis, acc)
  = (vis, if vis then acc ++ lines else acc).
Proof.
  intros H. revert acc. induction H as [| line lines Hline _ IH]; intros acc.
  - simpl. destruct vis; [now rewrite app_nil_r | reflexivity].
  - apply isContinuation_true in Hline as [Hl Hn].
    cbn [fold_left]. unfold lineStep at 2, blockVisible. cbn [fst snd].
    rewrite Hl, Hn, IH. destruct vis; [| reflexivity].
    now rewrite <- app_assoc.
Qed.

Lemma lineStep_block (targetLevel : Text) (b : Block) (vis : bool) (acc : list Text) :
  WellFormedBlock b ->
  fold_left (lineStep targetLevel) (blockLines b) (vis, acc)
  = (blockHasLevel targetLevel b,
     if blockHasLevel targetLevel b then acc ++ blockLines b else acc).
Proof.
  intros [[level Hlevel] Hcont]. unfold blockLines, blockHasLevel.
  cbn [fold_left]. unfold lineStep at 2, blockVisible. cbn [fst snd].
  rewrite Hlevel, lineStep_continuation by exact Hcont.
  destruct (bool_decide _); [| reflexivity].
  now rewrite <- app_assoc.
Qed.

Lemma lineStep_blocks (targetLevel : Text) (blocks : list Block)
    (vis : bool) (acc : list Text) :
  Forall WellFormedBlock blocks ->
  snd (fold_left (lineStep targetLevel) (concat (map blockLines blocks)) (vis, acc))
  = acc ++ concat (map blockLines (List.filter (blockHasLevel targetLevel) blocks)).
Proof.
  intros H. revert vis acc.
  induction H as [| b blocks Hb _ IH]; intros vis acc.
  - simpl. now rewrite app_nil_r.
  - cbn [map concat List.filter]. rewrite fold_left_app, lineStep_block by exact Hb.
    rewrite IH. destruct (blockHasLevel targetLevel b); cbn [map concat].
    + now rewrite <- app_assoc.
    + reflexivity.
Qed.

(** A continuation line has the visibility of the nearest recognized-level
    line before it. *)
Lemma visibility_owner (targetLevel : Text) (before : list Text) (b : Block) :
  WellFormedBlock b ->
  visibility targetLevel (before ++ blockLines b) = blockHasLevel targetLevel b.
Proof.
  intros Hb. unfold visibility.
  rewrite fold_left_app, lineStep_state, lineStep_block by exact Hb. reflexivity.
Qed.

Lemma filterLines_blocks (targetLevel : Text) (orphans : list Text) (blocks : list Block) :
  Forall (fun line => isContinuation line = true) orphans ->
  Forall WellFormedBlock blocks ->
  filterLines targetLevel (orphans ++ concat (map blockLines blocks))
  = concat (map blockLines (List.filter (blockHasLevel targetLevel) blocks)).
Proof.
  intros Ho Hb. unfold filterLines.
  rewrite fold_left_app, lineStep_continuation by exact Ho.
  now rewrite lineStep_blocks.
Qed.

(** ** Lines and text *)

Lemma split_nonempty (content : Text) : split content <> [].
Proof.
  induction content as [| c content IH]; cbn [split]; [discriminate |].
  destruct (c =? LF)%N; [discriminate |].
  destruct (split content); discriminate.
Qed.

Lemma split_no_LF (content : Text) :
  Forall (fun line => ~ In LF line) (split content).
Proof.
  induction content as [| c content IH]; cbn [split].
  - repeat constructor. intros [].
  - destruct (c =? LF)%N eqn:E.
    + constructor; [intros [] | exact IH].
    + destruct (split content) as [| l ls]; [repeat constructor |].
      * intros [-> | []]. now rewrite N.eqb_refl in E.
      * inversion IH as [| ? ? Hl Hls]; subst. constructor; [| exact Hls].
        intros [-> | H]; [now rewrite N.eqb_refl in E | contradiction].
Qed.

Lemma split_line_app (line rest : Text) :
  ~ In LF line -> split (line ++ LF :: rest) = line :: split rest.
Proof.
  induction line as [| c line IH]; intros Hline; cbn [app split].
  - now rewrite N.eqb_refl.
  - destruct (c =? LF)%N eqn:E.
    + apply N.eqb_eq in E. subst c. contradiction Hline. now left.
    + rewrite IH; [reflexivity |]. intros H. apply Hline. now right.
Qed.

Lemma split_single (line : Text) : ~ In LF line -> split line = [line].
Proof.
  induction line as [| c line IH]; intros Hline; cbn [split]; [reflexivity |].
  destruct (c =? LF)%N eqn:E.
  - apply N.eqb_eq in E. subst c. contradiction Hline. now left.
  - rewrite IH; [reflexivity |]. intros H. apply Hline. now right.
Qed.

(** Joining lines and splitting again gives the lines back. *)
Lemma split_join (lines : list Text) :
  lines <> [] ->
  Forall (fun line => ~ In LF line) lines ->
  split (join lines) = lines.
Proof.
  intros Hne H. induction H as [| line lines Hline Hlines IH]; [contradiction |].
  destruct lines as [| line' lines].
  - cbn [join]. now apply split_single.
  - change (join (line :: line' :: lines)) with (line ++ LF :: join (line' :: lines)).
    rewrite split_line_app by exact Hline. rewrite IH; [reflexivity | discriminate].
Qed.

(** What the loop keeps, it keeps from its input. *)
Lemma lineStep_Forall (P : Text -> Prop) (targetLevel : Text) (lines : list Text)
    (st : bool * list Text) :
  Forall P lines -> Forall P (snd st) ->
  Forall P (snd (fold_left (lineStep targetLevel) lines st)).
Proof.
  intros H. revert st. induction H as [| line lines Hline _ IH]; intros st Hst.
  - exact Hst.
  - cbn [fold_left]. apply IH. unfold lineStep. cbn [snd].
    destruct (blockVisible _ _ _); [| exact Hst].
    apply Forall_app. split; [exact Hst | now constructor].
Qed.

Lemma filterLines_Forall (P : Text -> Prop) (targetLevel : Text) (lines : list Text) :
  Forall P lines -> Forall P (filterLines targetLevel lines).
Proof. intros H. apply lineStep_Forall; [exact H | constructor]. Qed.

(** The text the filter returns has the kept lines as its lines. *)
Lemma split_filterByLevel (content level : Text) :
  level <> cp "all" ->
  filterLines (normalizeLevel level) (split content) <> [] ->
  split (filterByLevel content level)
  = filterLines (normalizeLevel level) (split content).
Proof.
  intros Hall Hne. unfold filterByLevel. rewrite bool_decide_eq_false_2 by exact Hall.
  apply split_join; [exact Hne |]. apply filterLines_Forall, split_no_LF.
Qed.

(** What is kept stays kept when more lines follow. *)
Lemma filterLines_app (targetLevel : Text) (before after : list Text) :
  exists more, filterLines targetLevel (before ++ after)
               = filterLines targetLevel before ++ more.
Proof.
  induction after as [| line after IH] using rev_ind.
  - exists []. now rewrite !app_nil_r.
  - destruct IH as [more IH]. rewrite app_assoc, filterLines_snoc, IH.
    eexists. now rewrite <- app_assoc.
Qed.

Lemma filterLines_keeps (targetLevel : Text) (before after : list Text) (line : Text) :
  visibility targetLevel (before ++ [line]) = true ->
  In line (filterLines targetLevel (before ++ line :: after)).
Proof.
  intros Hvis.
  destruct (filterLines_app targetLevel (before ++ [line]) after) as [more E].
  rewrite <- app_assoc in E. cbn [app] in E. rewrite E, filterLines_snoc, Hvis.
  apply in_or_app. left. apply in_or_app. right. now left.
Qed.

(** C2 (as amended).  Filtering by a level other than "all" keeps, of the
    lines of the text, those of visible blocks (the lines of the result
    are the kept lines, unless none is kept).  A line with a recognized
    level is kept exactly when its level equals the target level (both
    normalized); a line with no recognized level that starts a new entry
    (step marker, [CONFIG], separator, time stamp, Python path) is
    hidden; any other line with no recognized level is kept exactly when
    the line before it is; before the first line nothing is visible.  So
    a continuation line has the visibility of the recognized-level line
    that owns its block, and for input made of blocks, each a
    recognized-level line followed by continuation lines, after any
    leading continuation lines, the result is exactly the blocks whose
    owning level equals the target. *)
Theorem filterByLevel_blocks (targetLevel : Text) :
  (forall content level,
     level <> cp "all" ->
     filterByLevel content level
     = join (filterLines (normalizeLevel level) (split content))
     /\ (filterLines (normalizeLevel level) (split content) <> [] ->
         split (filterByLevel content level)
         = filterLines (normalizeLevel level) (split content)))
  /\ (forall before line,
        filterLines targetLevel (before ++ [line])
        = filterLines targetLevel before
          ++ (if visibility targetLevel (before ++ [line]) then [line] else []))
  /\ (forall before line level,
        recognizedLevel line = Some level ->
        visibility targetLevel (before ++ [line])
        = bool_decide (normalizeLevel level = targetLevel))
  /\ (forall before line,
        recognizedLevel line = None -> isNewEntryStart line = true ->
        visibility targetLevel (before ++ [line]) = false)
  /\ (forall before line,
        recognizedLevel line = None -> isNewEntryStart line = false ->
        visibility targetLevel (before ++ [line]) = visibility targetLevel before)
  /\ visibility targetLevel [] = false
  /\ (forall before b,
        WellFormedBlock b ->
        visibility targetLevel (before ++ blockLines b) = blockHasLevel targetLevel b)
  /\ (forall orphans blocks,
        Forall (fun line => isContinuation line = true) orphans ->
        Forall WellFormedBlock blocks ->
        filterLines targetLevel (orphans ++ concat (map blockLines blocks))
        = concat (map blockLines (List.filter (blockHasLevel targetLevel) blocks))).
Proof.
  split; [| split; [| split; [| split; [| split; [| split; [| split]]]]]].
  - intros content level Hall. split; [| now apply split_filterByLevel].
    unfold filterByLevel. now rewrite bool_decide_eq_false_2.
  - apply filterLines_snoc.
  - intros before line level H. rewrite visibility_snoc. unfold blockVisible.
    now rewrite H.
  - intros before line H1 H2. rewrite visibility_snoc. unfold blockVisible.
    now rewrite H1, H2.
  - intros before line H1 H2. rewrite visibility_snoc. unfold blockVisible.
    now rewrite H1, H2.
  - reflexivity.
  - intros before b. apply visibility_owner.
  - apply filterLines_blocks.
Qed.

(** Two blocks, the first with a stack trace: filtering by "warn" leaves
    the second. *)
Lemma filterByLevel_blocks_witness :
  filterLines (cp "WARN")
    ([traceLine] ++ concat (map blockLines
       [ {| owner := errorLine; continuation := [traceLine; traceLine] |};
         {| owner := warningLine; continuation := [traceLine] |} ]))
  = [warningLine; traceLine]
  /\ visibility (cp "INFO") ([infoLine] ++ [traceLine]) = true.
Proof.
  split.
  - apply (proj2 (proj2 (proj2 (proj2 (proj2 (proj2 (proj2
             (filterByLevel_blocks (cp "WARN"))))))))
             [traceLine]
             [ {| owner := errorLine; continuation := [traceLine; traceLine] |};
               {| owner := warningLine; continuation := [traceLine] |} ]).
    + repeat constructor.
    + repeat constructor; vm_compute; eauto.
  - rewrite (proj1 (proj2 (proj2 (proj2 (proj2 (filterByLevel_blocks (cp "INFO"))))))
               [infoLine] traceLine eq_refl eq_refl).
    reflexivity.
Defined.

(** C2, counterexample.  A step marker has no recognized level and
    follows a visible INFO line, yet the filter drops it: it starts a new
    entry.  Of the two alternating lines only the first is left. *)
Lemma filterByLevel_drops_new_entry :
  recognizedLevel infoLine = Some (cp "INFO")
  /\ recognizedLevel stepLine = None
  /\ visibility (normalizeLevel (cp "info")) [infoLine] = true
  /\ visibility (normalizeLevel (cp "info")) [infoLine; stepLine] = false
  /\ filterByLevel (join [infoLine; stepLine]) (cp "info") = infoLine.
Proof. repeat split; vm_compute; reflexivity. Qed.

(** C10.  The filter does not tell WARNING from WARN nor CRITICAL from
    ERROR: filtering a text by "warn" keeps every line of it whose
    recognized marker is WARNING, filtering by "error" keeps every line
    whose marker is CRITICAL, and for any target level a WARNING line is visible exactly
    when a WARN line in its place would be, likewise CRITICAL and ERROR.
    Of the lines with a recognized marker, "warn" makes visible exactly
    those marked WARN or WARNING, and "error" exactly those marked ERROR
    or CRITICAL. *)
Theorem level_synonyms (before : list Text) :
  (forall content after line,
     split content = before ++ line :: after ->
     recognizedLevel line = Some (cp "WARNING") ->
     In line (split (filterByLevel content (cp "warn"))))
  /\ (forall content after line,
        split content = before ++ line :: after ->
        recognizedLevel line = Some (cp "CRITICAL") ->
        In line (split (filterByLevel content (cp "error"))))
  /\ (forall line,
        recognizedLevel line = Some (cp "WARNING") ->
        filterLines (normalizeLevel (cp "warn")) (before ++ [line])
        = filterLines (normalizeLevel (cp "warn")) before ++ [line])
  /\ (forall line,
        recognizedLevel line = Some (cp "CRITICAL") ->
        filterLines (normalizeLevel (cp "error")) (before ++ [line])
        = filterLines (normalizeLevel (cp "error")) before ++ [line])
  /\ (forall targetLevel line1 line2,
        recognizedLevel line1 = Some (cp "WARNING") ->
        recognizedLevel line2 = Some (cp "WARN") ->
        visibility targetLevel (before ++ [line1])
        = visibility targetLevel (before ++ [line2]))
  /\ (forall targetLevel line1 line2,
        recognizedLevel line1 = Some (cp "CRITICAL") ->
        recognizedLevel line2 = Some (cp "ERROR") ->
        visibility targetLevel (before ++ [line1])
        = visibility targetLevel (before ++ [line2]))
  /\ (forall line level,
        recognizedLevel line = Some level ->
        visibility (normalizeLevel (cp "warn")) (before ++ [line]) = true <->
        level = cp "WARN" \/ level = cp "WARNING")
  /\ (forall line level,
        recognizedLevel line = Some level ->
        visibility (normalizeLevel (cp "error")) (before ++ [line]) = true <->
        level = cp "ERROR" \/ level = cp "CRITICAL")
  /\ normalizeLevel (cp "WARNING") = normalizeLevel (cp "WARN")
  /\ normalizeLevel (cp "CRITICAL") = normalizeLevel (cp "ERROR").
Proof.
  split; [| split; [| split; [| split; [| split; [| split; [| split; [| split;
    [| split]]]]]]]].
  - intros content after line Hsplit H.
    assert (Hin : In line (filterLines (normalizeLevel (cp "warn")) (split content))).
    { rewrite Hsplit. apply filterLines_keeps. rewrite visibility_snoc.
      unfold blockVisible. now rewrite H. }
    rewrite split_filterByLevel; [exact Hin | discriminate |].
    intros E. now rewrite E in Hin.
  - intros content after line Hsplit H.
    assert (Hin : In line (filterLines (normalizeLevel (cp "error")) (split content))).
    { rewrite Hsplit. apply filterLines_keeps. rewrite visibility_snoc.
      unfold blockVisible. now rewrite H. }
    rewrite split_filterByLevel; [exact Hin | discriminate |].
    intros E. now rewrite E in Hin.
  - intros line H. rewrite filterLines_snoc, visibility_snoc.
    unfold blockVisible. rewrite H. reflexivity.
  - intros line H. rewrite filterLines_snoc, visibility_snoc.
    unfold blockVisible. rewrite H. reflexivity.
  - intros targetLevel line1 line2 H1 H2. rewrite !visibility_snoc.
    unfold blockVisible. rewrite H1, H2. reflexivity.
  - intros targetLevel line1 line2 H1 H2. rewrite !visibility_snoc.
    unfold blockVisible. rewrite H1, H2. reflexivity.
  - intros line level H. rewrite visibility_snoc. unfold blockVisible. rewrite H.
    apply recognizedLevel_range in H. unfold LEVEL_NAMES in H. cbn [In] in H.
    repeat (destruct H as [<- | H];
            [vm_compute; split; [try discriminate; auto | intros [? | ?]; congruence] |]).
    destruct H.
  - intros line level H. rewrite visibility_snoc. unfold blockVisible. rewrite H.
    apply recognizedLevel_range in H. unfold LEVEL_NAMES in H. cbn [In] in H.
    repeat (destruct H as [<- | H];
            [vm_compute; split; [try discriminate; auto | intros [? | ?]; congruence] |]).
    destruct H.
  - reflexivity.
  - reflexivity.
Qed.

Lemma level_synonyms_witness :
  filterLines (normalizeLevel (cp "warn")) ([infoLine; warnLine] ++ [warningLine])
  = [warnLine; warningLine]
  /\ filterLines (normalizeLevel (cp "error")) ([errorLine; infoLine] ++ [criticalLine])
     = [errorLine; criticalLine]
  /\ filterByLevel (join [warningLine; infoLine; warnLine]) (cp "warn")
     = join [warningLine; warnLine]
  /\ In warningLine
       (split (filterByLevel (join [infoLine; warningLine; traceLine]) (cp "warn"))).
Proof.
  split; [| split; [| split]]; cycle 3.
  - apply (proj1 (level_synonyms [infoLine])
             (join [infoLine; warningLine; traceLine]) [traceLine] warningLine);
      reflexivity.
  - apply (proj1 (proj2 (proj2 (level_synonyms [infoLine; warnLine]))) warningLine).
    reflexivity.
  - apply (proj1 (proj2 (proj2 (proj2 (level_synonyms [errorLine; infoLine]))))
             criticalLine).
    reflexivity.
  - vm_compute. reflexivity.
Defined.

End LevelFilterFacts.
(* ===================================================================== *)
(** * Theorems: search highlighting *)
(* ===================================================================== *)

Section HighlightFacts.
Import Regex LogViewer.

(** Escaping puts a backslash before each syntax character. *)
Lemma escapeRegExp_spec (t : Text) :
  escapeRegExp t
  = flat_map (fun c => if isRegExpSpecial c then [BACKSLASH; c] else [c]) t.
Proof.
  unfold escapeRegExp, replaceAll, renderPieces, pieces. rewrite scan_class by lia.
  induction t as [| c t IH]; [reflexivity |].
  cbn [map flat_map]. rewrite IH. destruct (isRegExpSpecial c); reflexivity.
Qed.

(** Round trip: the escaped source is read back as the literal. *)
Lemma parseLiteral_escapeRegExp (t : Text) :
  parseLiteral (escapeRegExp t) = Some (Lit t).
Proof.
  rewrite escapeRegExp_spec. induction t as [| c t IH]; [reflexivity |].
  cbn [flat_map]. destruct (isRegExpSpecial c) eqn:E.
  - cbn [app parseLiteral]. unfold BACKSLASH at 1. rewrite N.eqb_refl, E, IH.
    reflexivity.
  - cbn [app parseLiteral]. rewrite E.
    destruct (c =? BACKSLASH)%N eqn:Eb.
    + apply N.eqb_eq in Eb. subst c. discriminate E.
    + rewrite IH. reflexivity.
Qed.

Lemma renderPieces_app (f : Text -> Caps -> Text) (ps qs : list Piece) :
  renderPieces f (ps ++ qs) = renderPieces f ps ++ renderPieces f qs.
Proof. apply flat_map_app. Qed.

(** ** The scan for tags and text runs *)

Lemma forallb_not_char (c : N) (t : Text) :
  forallb (fun d => negb (d =? c)%N) t = true ->
  Forall (fun d => negb (d =? c)%N = true) t.
Proof.
  induction t as [| d t IH]; cbn [forallb]; intros H; constructor.
  - now apply andb_prop in H.
  - apply IH. now apply andb_prop in H.
Qed.

(** At a tag the first alternative matches it. *)
Lemma matchPrefix_tag (body rest : Text) :
  negb (length body =? 0) = true ->
  forallb (fun c => negb (c =? 62)%N) body = true ->
  matchPrefix caseSensitive tagOrText (renderSegment (TagSeg body) ++ rest)
  = Some (renderSegment (TagSeg body), rest, [(1, renderSegment (TagSeg body))]).
Proof.
  intros Hne Hbody. apply forallb_not_char in Hbody.
  destruct body as [| b body]; [discriminate |].
  inversion Hbody as [| ? ? Hb Hbody']; subst.
  unfold matchPrefix, tagOrText. apply run_Alt_left.
  rewrite run_Group_eq. cbn [Cat].
  change (Str "<") with (Lit [60%N]). change (Str ">") with (Lit [62%N]).
  rewrite run_Seq_eq, run_Lit.
  change (prefixMatches caseSensitive [60%N] (renderSegment (TagSeg (b :: body)) ++ rest))
    with true.
  cbn iota.
  change (drop (length [60%N]) (renderSegment (TagSeg (b :: body)) ++ rest))
    with (b :: (body ++ [62%N]) ++ rest).
  rewrite <- (app_assoc body [62%N] rest). cbn [app].
  rewrite run_Seq_eq.
  apply run_Plus_Cls; [exact Hb | exact Hbody' | reflexivity |].
  rewrite run_Seq_eq, run_Lit.
  change (prefixMatches caseSensitive [62%N] (62%N :: rest)) with true.
  cbn [run length drop].
  rewrite take_matched. reflexivity.
Qed.

(** At a text run the second alternative matches the run, up to the next
    tag or the end. *)
Lemma matchPrefix_text (text rest : Text) :
  negb (length text =? 0) = true ->
  forallb (fun c => negb (c =? 60)%N) text = true ->
  match rest with [] => True | d :: _ => d = 60%N end ->
  matchPrefix caseSensitive tagOrText (text ++ rest)
  = Some (text, rest, [(2, text)]).
Proof.
  intros Hne Htext Hrest. apply forallb_not_char in Htext.
  destruct text as [| c text]; [discriminate |].
  inversion Htext as [| ? ? Hc Htext']; subst.
  unfold matchPrefix, tagOrText. rewrite run_Alt_right.
  - rewrite run_Group_eq. cbn [app].
    apply run_Plus_Cls; [exact Hc | exact Htext' | |].
    + destruct rest as [| d rest]; [exact I | now subst d].
    + change (c :: text ++ rest) with ((c :: text) ++ rest).
      rewrite take_matched. reflexivity.
  - rewrite run_Group_eq. cbn [Cat].
    change (Str "<") with (Lit [60%N]).
    rewrite run_Seq_eq, run_Lit. cbn [app prefixMatches].
    replace (sameChar caseSensitive 60%N c) with false; [reflexivity |].
    symmetry. unfold sameChar, canonicalize, caseSensitive.
    cbn [ignoreCase negb]. apply negb_true_iff in Hc.
    rewrite N.eqb_sym. exact Hc.
Qed.

Lemma renderSegments_head (segs : list Segment) :
  wellFormedSegments segs = true ->
  match segs with TextRun _ :: _ => False | _ => True end ->
  match renderSegments segs with [] => True | d :: _ => d = 60%N end.
Proof.
  destruct segs as [| [body | text] segs]; intros _ H; [exact I | reflexivity | destruct H].
Qed.

(** The scan cuts a well-formed rendering into its segments. *)
Lemma scan_segments (segs : list Segment) (fuel : nat) :
  wellFormedSegments segs = true ->
  length (renderSegments segs) < fuel ->
  scan caseSensitive tagOrText fuel (renderSegments segs)
  = map (fun seg =>
           match seg with
           | TagSeg _ => Hit (renderSegment seg) [(1, renderSegment seg)]
           | TextRun _ => Hit (renderSegment seg) [(2, renderSegment seg)]
           end) segs.
Proof.
  revert fuel. induction segs as [| seg segs IH]; intros fuel Hwf Hfuel.
  - destruct fuel; [lia |]. reflexivity.
  - destruct fuel as [| fuel]; [lia |].
    unfold renderSegments in *. cbn [flat_map map] in *.
    rewrite length_app in Hfuel.
    destruct seg as [body | text]; cbn [wellFormedSegments] in Hwf.
    + apply andb_prop in Hwf as [Hwf Hrest]. apply andb_prop in Hwf as [Hne Hbody].
      cbn [scan]. rewrite matchPrefix_tag by assumption.
      cbn [renderSegment app]. rewrite IH; [reflexivity | exact Hrest |].
      cbn [renderSegment length] in Hfuel. lia.
    + apply andb_prop in Hwf as [Hwf Hrest]. apply andb_prop in Hwf as [Hwf Hnext].
      apply andb_prop in Hwf as [Hne Htext].
      cbn [scan]. rewrite matchPrefix_text; try assumption.
      * destruct text as [| c text]; [discriminate |].
        cbn [renderSegment]. rewrite IH; [reflexivity | exact Hrest |].
        cbn [renderSegment length] in Hfuel. lia.
      * apply (renderSegments_head segs Hrest).
        destruct segs as [| [? | ?] ?]; [exact I | exact I | discriminate].
Qed.

Section ConverterFacts.

Context (toHtml : Text -> Text).

(** The search pattern is the escaped query, read character by
    character. *)
Lemma searchRegExp_literal (query : Text) :
  searchRegExp toHtml query = Some (Group 1 (Lit (toHtml query))).
Proof. unfold searchRegExp. now rewrite parseLiteral_escapeRegExp. Qed.

(** Tags are kept and each text run is searched apart. *)
Lemma highlightSearch_segments (segs : list Segment) (query : Text) :
  isBlank query = false ->
  wellFormedSegments segs = true ->
  highlightSearch toHtml (renderSegments segs) query
  = flat_map (highlightSegment (Group 1 (Lit (toHtml query)))) segs.
Proof.
  intros Hq Hwf. unfold highlightSearch. rewrite Hq, searchRegExp_literal.
  unfold replaceAll at 1, pieces. rewrite scan_segments by (auto; lia).
  unfold renderPieces. clear Hq.
  induction segs as [| seg segs IH]; [reflexivity |].
  cbn [map flat_map]. rewrite IH.
  - f_equal. destruct seg as [body | text]; [reflexivity |].
    cbn [wellFormedSegments] in Hwf. destruct text as [| c text]; [discriminate |].
    reflexivity.
  - destruct seg; cbn [wellFormedSegments] in Hwf;
      repeat (apply andb_prop in Hwf as [Hwf ?]); assumption.
Qed.


(** The occurrence lemma behind the highlighting theorem: the pieces of
    the scan of a text run around the place where the escaped query
    starts. *)
Lemma scan_meets_occurrence (x p y : Text) :
  p <> [] ->
  piecesText (pieces flagIU (Group 1 (Lit p)) (x ++ p ++ y)) = x ++ p ++ y
  /\ exists pre m post,
       pieces flagIU (Group 1 (Lit p)) (x ++ p ++ y) = pre ++ Hit m [(1, m)] :: post
       /\ length (piecesText pre) <= length x < length (piecesText pre) + length m
       /\ length m = length p
       /\ prefixMatches flagIU p m = true
       /\ replaceAll flagIU (Group 1 (Lit p)) markReplacement (x ++ p ++ y)
          = renderPieces markReplacement pre ++ markOpen ++ m ++ markClose
            ++ renderPieces markReplacement post.
Proof.
  intros Hne. destruct p as [| c p]; [contradiction |].
  split; [apply scan_literal_text; lia |].
  destruct (scan_literal_covers flagIU 1 c p
              (S (length (x ++ (c :: p) ++ y))) (x ++ (c :: p) ++ y) (length x))
    as (pre & m & post & Hscan & Hpos & Hm & Hpm).
  - lia.
  - rewrite drop_app_length. apply prefixMatches_app.
  - exists pre, m, post.
    fold (pieces flagIU (Group 1 (Lit (c :: p))) (x ++ (c :: p) ++ y)) in Hscan.
    split; [exact Hscan | split; [exact Hpos | split; [exact Hm | split; [exact Hpm |]]]].
    unfold replaceAll. rewrite Hscan, renderPieces_app.
    change (renderPieces markReplacement (Hit m [(1, m)] :: post))
      with ((markOpen ++ m ++ markClose) ++ renderPieces markReplacement post).
    now rewrite <- !app_assoc.
Qed.


End ConverterFacts.

(** ** The escaping of plain text *)

Lemma hexDigit_not_lt (d : N) : hexDigit d <> 60%N.
Proof. unfold hexDigit. destruct (d <? 10)%N eqn:E; [apply N.ltb_lt in E | apply N.ltb_ge in E]; lia. Qed.

Lemma hexFrom_not_lt (fuel : nat) (n : N) :
  Forall (fun c => c <> 60%N) (hexFrom fuel n).
Proof.
  revert n. induction fuel as [| fuel IH]; intros n; cbn [hexFrom].
  - constructor.
  - destruct (n <? 16)%N.
    + repeat constructor. apply hexDigit_not_lt.
    + apply Forall_app. split; [apply IH |].
      repeat constructor. apply hexDigit_not_lt.
Qed.

Lemma escapeChar_not_lt (c : N) : Forall (fun d => d <> 60%N) (escapeChar c).
Proof.
  unfold escapeChar.
  repeat (match goal with
          | |- context [if ?b then _ else _] => destruct b eqn:?
          end);
    try (vm_compute; repeat constructor; discriminate).
  - apply Forall_app. split; [vm_compute; repeat constructor; discriminate |].
    apply Forall_app. split; [apply hexFrom_not_lt |].
    vm_compute; repeat constructor; discriminate.
  - repeat constructor. now apply N.eqb_neq.
Qed.

Lemma escapeChar_nonempty (c : N) : escapeChar c <> [].
Proof.
  unfold escapeChar.
  repeat (match goal with
          | |- context [if ?b then _ else _] => destruct b
          end); discriminate.
Qed.

Lemma encodeXML_app (a b : Text) : encodeXML (a ++ b) = encodeXML a ++ encodeXML b.
Proof. apply flat_map_app. Qed.

Lemma encodeXML_not_lt (t : Text) : Forall (fun c => c <> 60%N) (encodeXML t).
Proof.
  induction t as [| c t IH]; [constructor |].
  cbn [encodeXML flat_map]. apply Forall_app. split; [apply escapeChar_not_lt | exact IH].
Qed.

Lemma encodeXML_nonempty (t : Text) : t <> [] -> encodeXML t <> [].
Proof.
  destruct t as [| c t]; [congruence |]. intros _ H.
  cbn [encodeXML flat_map] in H. apply app_eq_nil in H as [H _].
  now apply escapeChar_nonempty in H.
Qed.

Lemma encodeXML_no_lt (t : Text) :
  forallb (fun c => negb (c =? 60)%N) (encodeXML t) = true.
Proof.
  apply forallb_forall. intros c Hc.
  pose proof (encodeXML_not_lt t) as H.
  apply negb_true_iff, N.eqb_neq.
  exact (proj1 (List.Forall_forall _ _) H c Hc).
Qed.

(** With the XML escaping as the converter, every occurrence of a
    non-blank query in a plain text is met by a highlighted match. *)
Lemma highlightSearch_encodeXML (u q v : Text) :
  isBlank q = false ->
  exists pre m post,
    highlightSearch encodeXML (encodeXML (u ++ q ++ v)) q
    = renderPieces markReplacement pre ++ markOpen ++ m ++ markClose
      ++ renderPieces markReplacement post
    /\ piecesText pre ++ m ++ piecesText post = encodeXML (u ++ q ++ v)
    /\ length (piecesText pre) <= length (encodeXML u)
       < length (piecesText pre) + length m
    /\ prefixMatches flagIU (encodeXML q) m = true.
Proof.
  intros Hq.
  assert (Hne : q <> []) by (intros ->; discriminate Hq).
  pose proof (encodeXML_nonempty _ Hne) as Hp.
  assert (Happ : encodeXML (u ++ q ++ v) = encodeXML u ++ encodeXML q ++ encodeXML v)
    by now rewrite !encodeXML_app.
  assert (Hwf : wellFormedSegments [TextRun (encodeXML (u ++ q ++ v))] = true).
  { cbn [wellFormedSegments]. rewrite encodeXML_no_lt, !andb_true_r.
    rewrite Happ. destruct (encodeXML q); [contradiction |].
    rewrite !length_app. cbn [length].
    apply negb_true_iff, Nat.eqb_neq. lia. }
  destruct (scan_meets_occurrence (encodeXML u) (encodeXML q) (encodeXML v) Hp)
    as (Htext & pre & m & post & Hscan & Hpos & _ & Hpm & Hout).
  exists pre, m, post. rewrite <- Happ in *.
  split; [| split; [| split; [exact Hpos | exact Hpm]]].
  - replace (encodeXML (u ++ q ++ v))
      with (renderSegments [TextRun (encodeXML (u ++ q ++ v))]) at 1
      by apply app_nil_r.
    rewrite (highlightSearch_segments encodeXML _ q Hq Hwf).
    cbn [flat_map highlightSegment]. now rewrite app_nil_r.
  - rewrite <- Htext, Hscan. unfold piecesText. rewrite flat_map_app. reflexivity.
Qed.

End HighlightFacts.

Section HighlightExamples.
Import Regex LogViewer Examples.



End HighlightExamples.

(* ===================================================================== *)
(** * Further theorems: lib/response-parser *)
(* ===================================================================== *)

Section ResponseParserMore.
Import Js ResponseParser Examples.

Lemma nullish_JNull_is_null (v : JsValue) :
  nullish v JNull = JNull <-> isNullish v = true.
Proof. destruct v; cbv; split; congruence. Qed.

Lemma nullish_defined (v : JsValue) : nullish v JNull <> JUndefined.
Proof. destruct v; cbv; congruence. Qed.

(** [parseResponse] never answers [undefined]: its result is [null], the
    response itself, or the [data] of a legacy envelope; and it is [null]
    exactly for a missing response, an error envelope, a legacy envelope
    whose state is not success, and a legacy success without data. *)
Theorem parseResponse_results (response : JsValue) :
  parseResponse response <> JUndefined
  /\ (parseResponse response = JNull
      \/ parseResponse response = response
      \/ isLegacyResponse response = true
         /\ parseResponse response = getProperty "data" response)
  /\ (parseResponse response = JNull <->
      isNullish response = true
      \/ isErrorResponse response = true
      \/ isLegacyResponse response = true
         /\ (isLegacyErrorResponse response = true
             \/ isNullish (getProperty "data" response) = true)).
Proof.
  unfold parseResponse. fold (isNullish response).
  destruct (isNullish response) eqn:Hn.
  { split; [discriminate | split; [now left | split; auto]]. }
  destruct (isErrorResponse response) eqn:He.
  { split; [discriminate | split; [now left | split; auto]]. }
  destruct (isLegacyResponse response) eqn:Hl.
  - destruct (isLegacyErrorResponse response) eqn:Hs.
    { split; [discriminate | split; [now left | split; auto]]. }
    split; [apply nullish_defined |]. split.
    + destruct (isNullish (getProperty "data" response)) eqn:Hd.
      * left. now apply nullish_JNull_is_null.
      * right. right. split; [reflexivity |]. unfold nullish. now rewrite Hd.
    + rewrite nullish_JNull_is_null. split; [auto |].
      intros [H | [H | [_ [H | H]]]]; congruence.
  - split; [| split].
    + intros ->. discriminate Hn.
    + right. now left.
    + split.
      * intros ->. discriminate Hn.
      * intros [H | [H | [H _]]]; congruence.
Qed.

Lemma getErrorCode_None (response : JsValue) :
  getErrorCode response = None ->
  isErrorResponse response = false
  /\ isLegacyResponse response && isLegacyErrorResponse response = false.
Proof.
  unfold getErrorCode. destruct (isErrorResponse response) eqn:He.
  - destruct (isErrorResponse_code _ He) as [code ->]. discriminate.
  - destruct (isLegacyResponse response && isLegacyErrorResponse response);
      [discriminate | auto].
Qed.

(** A message is found only where a code is: when [getErrorCode] is
    [null], so is [getErrorMessage].  For an error envelope the message
    is never [undefined], and it is [null] exactly when the envelope
    carries no message; a legacy error gives what it holds under
    [message], which is [undefined] when the field is missing. *)
Theorem getErrorMessage_follows_code (response : JsValue) :
  (getErrorCode response = None -> getErrorMessage response = JNull)
  /\ (isErrorResponse response = true ->
      getErrorMessage response <> JUndefined
      /\ (getErrorMessage response = JNull <->
          isNullish (getProperty "message" (getProperty "error" response)) = true))
  /\ (isErrorResponse response = false ->
      isLegacyResponse response = true ->
      isLegacyErrorResponse response = true ->
      getErrorMessage response = getProperty "message" response).
Proof.
  split; [| split].
  - intros H. apply getErrorCode_None in H as [He Hl].
    unfold getErrorMessage. now rewrite He, Hl.
  - intros He. unfold getErrorMessage. rewrite He.
    split; [apply nullish_defined | apply nullish_JNull_is_null].
  - intros He Hl Hs. unfold getErrorMessage. now rewrite He, Hl, Hs.
Qed.

Lemma getErrorMessage_follows_code_witness :
  getErrorMessage barePayload = JNull
  /\ getErrorMessage notFoundError = JNull
  /\ getErrorMessage legacyError = JString "bad"
  /\ getErrorMessage legacyErrorNoMessage = JUndefined.
Proof.
  split; [| split; [| split]].
  - apply (proj1 (getErrorMessage_follows_code barePayload)). reflexivity.
  - apply (proj1 (proj2 (getErrorMessage_follows_code notFoundError))); reflexivity.
  - apply (proj2 (proj2 (getErrorMessage_follows_code legacyError))); reflexivity.
  - apply (proj2 (proj2 (getErrorMessage_follows_code legacyErrorNoMessage)));
      reflexivity.
Defined.

Lemma isSuccessResponse_true (response : JsValue) :
  isSuccessResponse response = true ->
  isObjectLike response = true /\ hasProperty "error" response = false.
Proof.
  unfold isSuccessResponse, isObjectLike.
  destruct (String.eqb (typeof response) "object"); cbn [negb orb andb];
    [| discriminate].
  destruct (isNull response); cbn [negb]; [discriminate |].
  destruct (hasProperty "error" response); [discriminate | auto].
Qed.

(** No response is both an error envelope and a success response; and a
    success response other than a legacy envelope is its own data, with
    no error code and no error message.  (A legacy envelope with a failed
    state has no [error] field either and counts as a success response,
    though it yields the code ["SERVER_ERROR"].) *)
Theorem success_response_is_data (response : JsValue) :
  isSuccessResponse response = true ->
  isErrorResponse response = false
  /\ (isLegacyResponse response = false ->
      parseResponse response = response
      /\ getErrorCode response = None
      /\ getErrorMessage response = JNull)
  /\ (isLegacyResponse response = true ->
      isLegacyErrorResponse response = true ->
      getErrorCode response = Some "SERVER_ERROR").
Proof.
  intros H. apply isSuccessResponse_true in H as [Ho He].
  assert (Herr : isErrorResponse response = false).
  { unfold isErrorResponse. now rewrite He, andb_false_r. }
  split; [exact Herr | split].
  - intros Hl. unfold parseResponse, getErrorCode, getErrorMessage.
    rewrite Herr, Hl. cbn [andb].
    pose proof (isObjectLike_not_nullish _ Ho) as Hn.
    now rewrite Hn.
  - intros Hl Hs. unfold getErrorCode. now rewrite Herr, Hl, Hs.
Qed.

Lemma success_response_is_data_witness :
  isErrorResponse barePayload = false
  /\ parseResponse barePayload = barePayload
  /\ isSuccessResponse legacyError = true
  /\ getErrorCode legacyError = Some "SERVER_ERROR".
Proof.
  split; [| split; [| split]].
  - apply (proj1 (success_response_is_data barePayload eq_refl)).
  - apply (proj1 (proj2 (success_response_is_data barePayload eq_refl))). reflexivity.
  - reflexivity.
  - apply (proj2 (proj2 (success_response_is_data legacyError eq_refl)));
      reflexivity.
Defined.

End ResponseParserMore.

(* ===================================================================== *)
(** * Further theorems: lib/api-client, the message of a failed request *)
(* ===================================================================== *)

Section ClientMessageFacts.
Import Js ApiClient Examples.

Lemma isErrorResponse_error_object (data : JsValue) :
  ResponseParser.isErrorResponse data = true ->
  isObjectLike data = true
  /\ isObjectLike (getProperty "error" data) = true.
Proof.
  unfold ResponseParser.isErrorResponse, isObjectLike. intros H.
  rewrite !andb_true_iff in H. rewrite !andb_true_iff. tauto.
Qed.

Lemma isObjectLike_facts (v : JsValue) :
  isObjectLike v = true ->
  isNullish v = false /\ toBoolean v = true /\ typeof v = "object".
Proof. destruct v; cbv; auto; discriminate. Qed.

Lemma getProperty_nullish (k : string) (v : JsValue) :
  isNullish v = true -> getProperty k v = JUndefined.
Proof. destruct v; cbv; congruence. Qed.

Context (isCancel : JsValue -> bool).

(** On a value that is neither [null] nor [undefined] the helper always
    returns, and what it returns is truthy: never an empty string, never
    [null] or [undefined].  On [null] and [undefined] (when axios does not
    take them for a cancellation) it throws. *)
Theorem getErrorMessage_truthy (error : JsValue) :
  (isCancel error = false -> isNullish error = true ->
   getErrorMessage isCancel error = ThrowsTypeError)
  /\ (isCancel error = true \/ isNullish error = false ->
      exists v, getErrorMessage isCancel error = Returns v /\ toBoolean v = true).
Proof.
  unfold getErrorMessage. split.
  - intros -> ->. reflexivity.
  - intros H. destruct (isCancel error); [eexists; split; reflexivity |].
    destruct H as [H | H]; [discriminate |]. rewrite H.
    destruct (strictEqualsString _ _); [eexists; split; reflexivity |].
    destruct (toBoolean (responseDataField "error" error)) eqn:E1;
      [eexists; split; [reflexivity | exact E1] |].
    destruct (toBoolean (responseDataField "message" error)) eqn:E2;
      [eexists; split; [reflexivity | exact E2] |].
    destruct (toBoolean (responseDataField "detail" error)) eqn:E3;
      [eexists; split; [reflexivity | exact E3] |].
    destruct (toBoolean (getProperty "message" error)) eqn:E4;
      [eexists; split; [reflexivity | exact E4] |].
    eexists; split; reflexivity.
Qed.

(** When the body of the failed response is an error envelope of the
    current format, the helper returns the envelope's [error] object
    itself (an object, not a string), whatever message the envelope or
    the error carries: the field [error] is tried before [message]. *)
Theorem getErrorMessage_envelope (error : JsValue) :
  let data := getProperty "data" (getProperty "response" error) in
  isCancel error = false ->
  strictEqualsString (getProperty "code" error) "ECONNABORTED" = false ->
  ResponseParser.isErrorResponse data = true ->
  getErrorMessage isCancel error = Returns (getProperty "error" data)
  /\ typeof (getProperty "error" data) = "object"
  /\ forall s, getErrorMessage isCancel error <> Returns (JString s).
Proof.
  intros data Hc Ht He.
  destruct (isErrorResponse_error_object _ He) as [Hd Hobj].
  destruct (isObjectLike_facts _ Hd) as (Hdn & _ & _).
  destruct (isObjectLike_facts _ Hobj) as (_ & Htrue & Htype).
  assert (Hresp : isNullish (getProperty "response" error) = false).
  { destruct (isNullish (getProperty "response" error)) eqn:E; [| reflexivity].
    unfold data in Hdn. rewrite (getProperty_nullish _ _ E) in Hdn. discriminate. }
  assert (Herr : isNullish error = false).
  { destruct (isNullish error) eqn:E; [| reflexivity].
    rewrite (getProperty_nullish _ _ E) in Hresp. discriminate. }
  assert (Hfield : responseDataField "error" error = getProperty "error" data).
  { unfold responseDataField, optionalProperty. rewrite Hresp. fold data.
    now rewrite Hdn. }
  assert (Hres : getErrorMessage isCancel error = Returns (getProperty "error" data)).
  { unfold getErrorMessage. now rewrite Hc, Herr, Ht, Hfield, Htrue. }
  split; [exact Hres | split; [exact Htype |]].
  intros s. rewrite Hres. intros [= E]. rewrite E in Htype. discriminate.
Qed.

End ClientMessageFacts.

Section ClientMessageExamples.
Import Js ApiClient Examples.

Lemma getErrorMessage_truthy_witness :
  getErrorMessage neverCancelled JNull = ThrowsTypeError
  /\ exists v, getErrorMessage neverCancelled emptyMessageError = Returns v
               /\ toBoolean v = true.
Proof.
  split.
  - apply (proj1 (getErrorMessage_truthy neverCancelled JNull)); reflexivity.
  - apply (proj2 (getErrorMessage_truthy neverCancelled emptyMessageError)).
    right. reflexivity.
Defined.

Lemma getErrorMessage_envelope_witness :
  getErrorMessage neverCancelled notFoundFailure
  = Returns (JObject [("code", JString "NOT_FOUND"); ("message", JString "No such scan")]).
Proof.
  apply (proj1 (getErrorMessage_envelope neverCancelled notFoundFailure
                  eq_refl eq_refl eq_refl)).
Defined.

End ClientMessageExamples.

(* ===================================================================== *)
(** * Further theorems: lib/table-utils *)
(* ===================================================================== *)

Section IsoDateFacts.
Import Js TableUtils.

Local Ltac next_char H :=
  match type of H with
  | context [match ?s with [] => _ | _ :: _ => _ end] =>
      let c := fresh "c" in
      destruct s as [| c s]; [now destruct H |]
  end.

Local Ltac next_test H :=
  match type of H with
  | context [if ?b then _ else _] =>
      let E := fresh "E" in
      destruct b eqn:E; [| now destruct H]
  end.

(** [isISODateString] looks at the first nineteen characters only, and
    at their kind only: it holds exactly for the strings that begin with
    four digits, a hyphen, two digits, a hyphen, two digits, the letter T
    and three groups of two digits separated by colons.  What follows is
    not read, and the digits are not checked to be a date or a time. *)
Theorem isISODateString_shape (value : string) :
  isISODateString value = true <->
  exists y1 y2 y3 y4 mo1 mo2 d1 d2 h1 h2 mi1 mi2 s1 s2 rest,
    Regex.codepoints value
    = [y1; y2; y3; y4; 45; mo1; mo2; 45; d1; d2; 84;
       h1; h2; 58; mi1; mi2; 58; s1; s2]%N ++ rest
    /\ forallb Regex.isDigit
         [y1; y2; y3; y4; mo1; mo2; d1; d2; h1; h2; mi1; mi2; s1; s2] = true.
Proof.
  unfold isISODateString, Regex.test. rewrite bool_decide_eq_true.
  generalize (Regex.codepoints value). intros s. split.
  - intros H. unfold Regex.matchPrefix, isoDatePattern in H.
    cbn -[Regex.isDigit N.eqb take length] in H.
    do 19 (next_char H; next_test H).
    repeat match goal with
           | E : Regex.sameChar _ _ ?c = true |- _ =>
               apply N.eqb_eq in E; cbn in E; subst c
           end.
    do 15 eexists. split; [reflexivity |].
    cbn [forallb]. rewrite !andb_true_iff. repeat split; assumption.
  - intros (y1 & y2 & y3 & y4 & mo1 & mo2 & d1 & d2 & h1 & h2 & mi1 & mi2
            & s1 & s2 & rest & -> & Hd).
    cbn [forallb] in Hd. rewrite !andb_true_iff in Hd.
    destruct Hd as (? & ? & ? & ? & ? & ? & ? & ? & ? & ? & ? & ? & ? & ? & _).
    unfold Regex.matchPrefix, isoDatePattern.
    cbn -[Regex.isDigit N.eqb take length].
    repeat match goal with
           | E : Regex.isDigit ?c = true |- context [Regex.isDigit ?c] => rewrite E
           end.
    cbn. eexists. reflexivity.
Qed.

End IsoDateFacts.

Section WidthKeys.
Import Js TableUtils.

Context (engine : Engine).
Context (measureText : string -> string -> Q).
Context (toLocaleString : string -> string -> option string).

(** Which columns get a width is decided by the column definitions
    alone, once the calculation returns: a key is in the result exactly
    when it is not [__proto__] and some column with that key is
    auto-sized or has a truthy [size].  The rows, the fonts, the labels,
    the engine and the canvas play no part in it; in particular the
    result is empty exactly when no column contributes under a key other
    than [__proto__], whatever the data. *)
Theorem column_width_keys (o : CalculateColumnWidthsOptions) (widths : gmap string Q) :
  calculateColumnWidths engine measureText toLocaleString o = Some widths ->
  (forall key,
     is_Some (widths !! key) <->
     key <> "__proto__"
     /\ exists column,
          In column (columns o) /\ columnId column = Some key
          /\ (enableAutoSize column <> Some false
              \/ exists s, size column = Some s /\ ~ (s == 0)%Q))
  /\ (forall engine' measureText' toLocaleString' o' widths' key,
        columns o' = columns o ->
        calculateColumnWidths engine' measureText' toLocaleString' o' = Some widths' ->
        is_Some (widths' !! key) <-> is_Some (widths !! key))
  /\ (widths = ∅ <->
      forall column key,
        In column (columns o) -> Contributes column key -> key = "__proto__").
Proof.
  intros Hres.
  split; [| split].
  - intros key. rewrite (calculateColumnWidths_key _ _ _ o widths key Hres).
    unfold Contributes.
    split; intros (Hkey & column & Hin & Hid & Hc); (split; [exact Hkey |]);
      exists column; (split; [exact Hin |]); (split; [exact Hid |]);
      (destruct Hc as [Hon | Hs]; [now left | right]).
    + destruct Hs as [s Hs]. exists s. now apply truthyNumber_Some.
    + destruct Hs as (s & Hs & Hz). exists s. now apply truthyNumber_Some.
  - intros engine' measureText' toLocaleString' o' widths' key Hcols Hres'.
    rewrite (calculateColumnWidths_key _ _ _ o widths key Hres).
    rewrite (calculateColumnWidths_key _ _ _ o' widths' key Hres'), Hcols.
    reflexivity.
  - split.
    + intros -> column key Hin Hc.
      destruct (decide (key = "__proto__")) as [E | Hkey]; [exact E | exfalso].
      assert (Hsome : is_Some ((∅ : gmap string Q) !! key)).
      { apply (calculateColumnWidths_key _ _ _ o ∅ key Hres). eauto. }
      rewrite lookup_empty in Hsome. now destruct Hsome.
    + intros Hall. apply map_empty. intros key.
      apply eq_None_not_Some.
      rewrite (calculateColumnWidths_key _ _ _ o widths key Hres).
      intros (Hkey & column & Hin & Hc). apply Hkey. eauto.
Qed.

End WidthKeys.

Section WidthKeysExamples.
Import Js TableUtils DataTable Examples.

Lemma column_width_keys_witness :
  exists widths,
    calculateColumnWidths sampleEngine eightPerChar noDateFormat (sizingOptions urlRender)
    = Some widths
    /\ is_Some (widths !! "url") /\ widths !! "Actions" = None.
Proof.
  eexists. split; [vm_compute; reflexivity |].
  split.
  - apply (proj1 (column_width_keys sampleEngine eightPerChar noDateFormat
                    (sizingOptions urlRender) _ eq_refl)).
    split; [discriminate |]. exists urlColumn.
    split; [now left | split; [reflexivity | left; discriminate]].
  - reflexivity.
Defined.

End WidthKeysExamples.

Section WidthMonotone.
Import Js TableUtils.

Lemma ceil_le (x y : Q) : (x <= y)%Q -> (ceil x <= ceil y)%Q.
Proof.
  intros H. unfold ceil. rewrite <- Zle_Qle. now apply Qceiling_resp_le.
Qed.

Lemma applyMin_le (column : ColumnDef) (x y : Q) :
  (x <= y)%Q -> (applyMin column x <= applyMin column y)%Q.
Proof.
  intros H. unfold applyMin. destruct (truthyNumber (minSize column)); [| exact H].
  apply Q.max_le_compat_r. exact H.
Qed.

Lemma applyMax_le (column : ColumnDef) (x y : Q) :
  (x <= y)%Q -> (applyMax column x <= applyMax column y)%Q.
Proof.
  intros H. unfold applyMax. destruct (truthyNumber (maxSize column)); [| exact H].
  apply Q.min_le_compat_r. exact H.
Qed.

Lemma NoWider_assign (k : string) (w w' : Q) (widths widths' : gmap string Q) :
  (w <= w')%Q -> NoWider widths widths' ->
  NoWider (assign k w widths) (assign k w' widths').
Proof.
  intros Hw H key. unfold assign. destruct (String.eqb k "__proto__"); [apply H |].
  destruct (decide (k = key)) as [-> | Hne].
  - now rewrite !lookup_insert_eq.
  - rewrite !lookup_insert_ne by exact Hne. apply H.
Qed.

Context (engine : Engine).
Context (measureText : string -> string -> Q).
Context (toLocaleString : string -> string -> option string).

Lemma measureRows_app (font locale : string) (cellPadding : Q) (key : string)
    (sample more : list JsValue) (start : Q) :
  measureRows engine measureText toLocaleString font locale cellPadding key
    (sample ++ more) start
  = match measureRows engine measureText toLocaleString font locale cellPadding key
            sample start with
    | Some maxWidth =>
        measureRows engine measureText toLocaleString font locale cellPadding key
          more maxWidth
    | None => None
    end.
Proof.
  revert start. induction sample as [| row rest IH]; intros start; cbn; [reflexivity |].
  destruct (measureRow _ _ _ _ _ _ _ _ row); [apply IH | reflexivity].
Qed.

Lemma autoWidth_more_rows (font headerFont locale : string) (cellPadding : Q)
    (labels : gmap string string) (sample more : list JsValue)
    (column : ColumnDef) (key : string) (w' : Q) :
  autoWidth engine measureText toLocaleString font headerFont locale cellPadding labels
    (sample ++ more) column key = Some w' ->
  exists w,
    autoWidth engine measureText toLocaleString font headerFont locale cellPadding labels
      sample column key = Some w
    /\ (w <= w')%Q.
Proof.
  unfold autoWidth. rewrite measureRows_app.
  destruct (measureRows _ _ _ _ _ _ _ sample _) as [mid |]; [| discriminate].
  destruct (measureRows _ _ _ _ _ _ _ more mid) as [raw |] eqn:Hmore; [| discriminate].
  intros [= <-]. eexists. split; [reflexivity |].
  apply ceil_le, applyMax_le, applyMin_le.
  apply measureRows_cellWidths in Hmore. rewrite Hmore. apply fold_Qmax_ge_start.
Qed.

Lemma columnSteps_more_rows (font headerFont locale : string) (cellPadding : Q)
    (labels : gmap string string) (sample more : list JsValue)
    (cols : list ColumnDef) (acc acc' widths' : gmap string Q) :
  NoWider acc acc' ->
  columnSteps engine measureText toLocaleString font headerFont locale cellPadding labels
    (sample ++ more) cols acc' = Some widths' ->
  exists widths,
    columnSteps engine measureText toLocaleString font headerFont locale cellPadding labels
      sample cols acc = Some widths
    /\ NoWider widths widths'.
Proof.
  revert acc acc'. induction cols as [| column cols IH]; intros acc acc' H; cbn.
  - intros [= <-]. eauto.
  - unfold columnStep. destruct (columnId column) as [k |]; [| now apply IH].
    case_bool_decide.
    + destruct (truthyNumber (size column)) as [s |]; [| now apply IH].
      apply IH. apply NoWider_assign; [apply Qle_refl | exact H].
    + destruct (autoWidth _ _ _ _ _ _ _ _ (sample ++ more) column k) as [w' |] eqn:Hauto;
        [| discriminate].
      apply autoWidth_more_rows in Hauto as (w & -> & Hw).
      apply IH. now apply NoWider_assign.
Qed.

(** More rows never make a column narrower: when the calculation returns
    for the data with rows added at the end, it returns for the data as
    well, the two results have the same keys, and each width is at least
    what it was.  (Rows past the sample limit change nothing.) *)
Theorem more_rows_no_narrower (o : CalculateColumnWidthsOptions) (extra : list JsValue)
    (widths' : gmap string Q) :
  calculateColumnWidths engine measureText toLocaleString (withData o (data o ++ extra))
  = Some widths' ->
  exists widths,
    calculateColumnWidths engine measureText toLocaleString o = Some widths
    /\ NoWider widths widths'.
Proof.
  unfold calculateColumnWidths, withData. cbn -[NoWider].
  destruct (slice_app (default 100%Z (maxSampleRows o)) (data o) extra) as [more ->].
  apply columnSteps_more_rows.
  intros key. now rewrite lookup_empty.
Qed.

End WidthMonotone.

Section WidthMonotoneExamples.
Import Js TableUtils DataTable Examples.

Lemma more_rows_no_narrower_witness :
  exists widths widths',
    calculateColumnWidths sampleEngine eightPerChar noDateFormat
      (widthOptions [rowWithId] [keyColumn "url"]) = Some widths
    /\ calculateColumnWidths sampleEngine eightPerChar noDateFormat
         (widthOptions [rowWithId; hugeRow; JObject [("url", JString "/a/longer/path")]]
            [keyColumn "url"]) = Some widths'
    /\ NoWider widths widths'.
Proof.
  destruct (more_rows_no_narrower sampleEngine eightPerChar noDateFormat
              (widthOptions [rowWithId] [keyColumn "url"])
              [hugeRow; JObject [("url", JString "/a/longer/path")]] _ eq_refl)
    as (widths & Hw & Hno).
  eexists widths, _. split; [exact Hw | split; [reflexivity | exact Hno]].
Defined.

End WidthMonotoneExamples.

(* ===================================================================== *)
(** * Further theorems: the data tables *)
(* ===================================================================== *)

Section SelectionEventFacts.
Import DataTable.

Context (TData : Type) (selectedRows : gmap string bool -> list TData).

(** The row selection handler and the selection effect together.  In a
    table that owns its selection and was given [onSelectionChange], with
    the ref in step with the state (as it is from the first render on):
    an update from the table stores its value, leaves the ref in step,
    and calls [onSelectionChange], with the rows selected then, exactly
    when the value differs from the selection before.  A function updater
    is applied to the selection shown.  In a table that was given a
    [rowSelection] prop the handler never changes the selection shown,
    and without [onRowSelectionChange] nobody is told about the update. *)
Theorem row_selection_updates (st : SelectionState) (updater : SelectionUpdater) :
  (prevRowSelectionRef st = internalRowSelection st ->
   let newValue :=
     match updater with
     | SelectionValue v => v
     | SelectionFunction f => f (internalRowSelection st)
     end in
   selectionEvent TData selectedRows st updater
   = ({| internalRowSelection := newValue; prevRowSelectionRef := newValue |},
      if decide (newValue = internalRowSelection st) then None
      else Some (selectedRows newValue)))
  /\ (forall props shown,
        externalRowSelection props = Some shown ->
        rowSelection props
          (handleRowSelectionChange props (internalRowSelection st) updater).2
        = shown
        /\ (hasExternalOnRowSelectionChange props = false ->
            (handleRowSelectionChange props (internalRowSelection st) updater).1
            = None)).
Proof.
  split.
  - intros Hprev newValue. unfold selectionEvent, handleRowSelectionChange.
    cbn [hasExternalOnRowSelectionChange externalRowSelection rowSelection default].
    fold newValue. rewrite selectionEffect_spec, Hprev.
    destruct (decide (newValue = internalRowSelection st)) as [E | Hne].
    + now rewrite E.
    + reflexivity.
  - intros props shown Hshown. unfold rowSelection. rewrite Hshown. split.
    + reflexivity.
    + intros Hno. unfold handleRowSelectionChange. now rewrite Hno.
Qed.

End SelectionEventFacts.

Section SelectionEventExamples.
Import DataTable Examples.

Lemma row_selection_updates_witness :
  selectionEvent string selectedIds
    {| internalRowSelection := {["a" := true]};
       prevRowSelectionRef := {["a" := true]} |}
    (SelectionFunction (fun old => <["b" := true]> old))
  = ({| internalRowSelection := <["b" := true]> {["a" := true]};
        prevRowSelectionRef := <["b" := true]> {["a" := true]} |},
     Some ["a"; "b"]).
Proof.
  etransitivity.
  - apply (proj1 (row_selection_updates string selectedIds _ _)). reflexivity.
  - vm_compute. reflexivity.
Defined.

End SelectionEventExamples.

Section EndpointsFacts.
Import DataTable EndpointsTable Examples.

Lemma pagination_eq (p q : PaginationState) :
  (pageIndex p =? pageIndex q)%Z && (pageSize p =? pageSize q)%Z = true <-> p = q.
Proof.
  rewrite andb_true_iff, !Z.eqb_eq. destruct p, q; cbn. split.
  - intros [-> ->]. reflexivity.
  - intros [= -> ->]. auto.
Qed.

(** The endpoints table and the unified table together.  A pagination
    update from the table that changes neither the page index nor the
    page size reaches nobody.  Any other update makes exactly one call:
    the parent's [onPaginationChange] when there is one, the endpoints
    table's own setter otherwise, each with the new pagination, which a
    function updater computes from the pagination shown.  The unified
    table's own pagination state is never written. *)
Theorem endpoints_page_change (props : Props)
    (internalPagination tableInternalPagination : PaginationState)
    (updater : Updater) :
  let current := pagination props internalPagination in
  let newPagination := applyUpdater updater current in
  (newPagination = current ->
   pageChange props internalPagination tableInternalPagination updater
   = ([], tableInternalPagination))
  /\ (newPagination <> current ->
      pageChange props internalPagination tableInternalPagination updater
      = ([if hasOnPaginationChange props then OnPaginationChange newPagination
          else SetInternalPagination newPagination],
         tableInternalPagination)).
Proof.
  intros current newPagination.
  assert (Hext : isExternalPagination (tableProps props internalPagination) = true).
  { unfold isExternalPagination, tableProps.
    cbn [DataTable.externalPagination DataTable.hasOnPaginationChange].
    now rewrite bool_decide_eq_true_2 by eauto. }
  unfold pageChange, DataTable.handlePaginationChange. rewrite Hext.
  change (DataTable.pagination (tableProps props internalPagination)
            tableInternalPagination) with current.
  change (DataTable.hasOnPaginationChange (tableProps props internalPagination))
    with true.
  fold newPagination. split.
  - intros E. rewrite (proj2 (pagination_eq _ _) E). reflexivity.
  - intros Hne.
    destruct ((pageIndex newPagination =? pageIndex current)%Z
              && (pageSize newPagination =? pageSize current)%Z) eqn:Eb.
    + apply pagination_eq in Eb. contradiction.
    + reflexivity.
Qed.

Lemma endpoints_page_change_witness :
  pageChange pagedEndpoints firstPage firstPage
    (UpdaterFunction
       (fun old => {| pageIndex := pageIndex old + 1; pageSize := pageSize old |}))
  = ([OnPaginationChange {| pageIndex := 3; pageSize := 10 |}], firstPage).
Proof.
  apply (proj2 (endpoints_page_change pagedEndpoints firstPage firstPage
                  (UpdaterFunction
                     (fun old => {| pageIndex := pageIndex old + 1;
                                    pageSize := pageSize old |})))).
  discriminate.
Defined.

Lemma ceil_quotient_bounds (a b : Z) :
  (0 < b)%Z ->
  let k := Qceiling (inject_Z a / inject_Z b) in
  ((k - 1) * b < a <= k * b)%Z.
Proof.
  intros Hb k.
  assert (HB : (0 < inject_Z b)%Q) by (unfold Qlt; cbn; lia).
  set (x := (inject_Z a / inject_Z b)%Q) in *.
  assert (Hx : (x * inject_Z b == inject_Z a)%Q).
  { unfold x. field. intros E. rewrite E in HB. now apply Qlt_irrefl in HB. }
  clearbody x.
  pose proof (Qle_ceiling x) as Hle. pose proof (Qceiling_lt x) as Hlt.
  fold k in Hle, Hlt.
  unfold Z.sub in Hlt. rewrite inject_Z_plus, inject_Z_opp in Hlt.
  change (inject_Z 1) with 1%Q in Hlt.
  split.
  - rewrite Zlt_Qlt, inject_Z_mult. unfold Z.sub.
    rewrite inject_Z_plus, inject_Z_opp. change (inject_Z 1) with 1%Q. nra.
  - rewrite Zle_Qle, inject_Z_mult. nra.
Qed.

(** The pagination info the endpoints table hands down.  There is none
    without a [pagination] prop, and none when [totalCount] is missing or
    zero.  When there is one the page is one-based, and a page count that
    is not given (or is zero) is computed: for a positive page size it is
    the number of pages that just hold [totalCount] items, and for a page
    size of zero it is infinite. *)
Theorem endpoints_pagination_info (props : Props) (internalPagination : PaginationState) :
  (paginationInfo props internalPagination = None <->
   externalPagination props = None
   \/ totalCount props = None \/ totalCount props = Some 0%Z)
  /\ (forall info,
        paginationInfo props internalPagination = Some info ->
        exists shown,
          externalPagination props = Some shown
          /\ totalCount props = Some (total info) /\ total info <> 0%Z
          /\ page info = (pageIndex shown + 1)%Z
          /\ infoPageSize info = pageSize shown
          /\ (forall n, totalPages props = Some n -> n <> 0%Z ->
                        infoTotalPages info = Finite n)
          /\ (totalPages props = None \/ totalPages props = Some 0%Z ->
              ((0 < pageSize shown)%Z -> (0 < total info)%Z ->
               exists k,
                 infoTotalPages info = Finite k
                 /\ ((k - 1) * pageSize shown < total info <= k * pageSize shown)%Z)
              /\ (pageSize shown = 0%Z -> (0 < total info)%Z ->
                  infoTotalPages info = PlusInfinity))).
Proof.
  unfold paginationInfo, pagination. split.
  - destruct (externalPagination props) as [shown |]; [| split; auto].
    destruct (totalCount props) as [count |]; cbn [truthyCount];
      [| split; auto].
    destruct (count =? 0)%Z eqn:E.
    + apply Z.eqb_eq in E. subst. split; auto.
    + apply Z.eqb_neq in E. split; [discriminate |].
      intros [H | [H | H]]; congruence.
  - intros info. destruct (externalPagination props) as [shown |]; [| discriminate].
    destruct (totalCount props) as [count |]; cbn [truthyCount]; [| discriminate].
    destruct (count =? 0)%Z eqn:E; [discriminate |]. apply Z.eqb_neq in E.
    intros [= <-]. cbn [default total page infoPageSize infoTotalPages].
    exists shown. repeat (split; [first [reflexivity | assumption] |]). split.
    + intros n -> Hn. cbn [truthyCount].
      apply Z.eqb_neq in Hn. now rewrite Hn.
    + intros Hnone.
      assert (Ht : truthyCount (totalPages props) = None)
        by (destruct Hnone as [-> | ->]; reflexivity).
      rewrite Ht. unfold ceilOfQuotient. split.
      * intros Hsize Hcount.
        destruct (pageSize shown =? 0)%Z eqn:Ez; [apply Z.eqb_eq in Ez; lia |].
        eexists. split; [reflexivity |]. now apply ceil_quotient_bounds.
      * intros -> Hcount. cbn [Z.eqb].
        apply Z.ltb_lt in Hcount. now rewrite Hcount.
Qed.

End EndpointsFacts.

Section EndpointsExamples.
Import DataTable EndpointsTable Examples.

Lemma endpoints_pagination_info_witness :
  exists info,
    paginationInfo pagedEndpoints firstPage = Some info
    /\ page info = 3%Z
    /\ infoTotalPages info = Finite 5%Z.
Proof.
  eexists. split; [reflexivity |]. split; [reflexivity |].
  destruct (proj2 (endpoints_pagination_info pagedEndpoints firstPage) _ eq_refl)
    as (shown & Hshown & _ & _ & _ & _ & _ & H).
  injection Hshown as <-.
  destruct (proj1 (H (or_introl eq_refl))) as (k & Hk & Hlo & Hhi);
    [reflexivity | reflexivity |].
  rewrite Hk. f_equal. cbn in Hlo, Hhi. lia.
Defined.

End EndpointsExamples.

(* ===================================================================== *)
(** * Further theorems: the screenshots gallery *)
(* ===================================================================== *)

Section GalleryFacts.
Import DataTable Gallery Examples.

(** Toggling an id flips the membership of that id and of no other;
    toggling it twice gives the selection back; toggling two ids does not
    depend on the order; and each toggle changes the number of selected
    ids by exactly one. *)
Theorem toggleSelect_flips (id : Z) (prev : gset Z) :
  (forall other,
     other ∈ toggleSelect id prev <->
     other = id /\ id ∉ prev \/ other <> id /\ other ∈ prev)
  /\ toggleSelect id (toggleSelect id prev) = prev
  /\ (forall id',
        toggleSelect id (toggleSelect id' prev)
        = toggleSelect id' (toggleSelect id prev))
  /\ (id ∈ prev -> S (size (toggleSelect id prev)) = size prev)
  /\ (id ∉ prev -> size (toggleSelect id prev) = S (size prev)).
Proof.
  assert (Hmem : forall i s other,
            other ∈ toggleSelect i s <->
            other = i /\ i ∉ s \/ other <> i /\ other ∈ s).
  { intros i s other. unfold toggleSelect.
    destruct (decide (i ∈ s)); destruct (decide (other = i)); set_solver. }
  split; [apply Hmem | split; [| split; [| split]]].
  - apply set_eq. intros other. rewrite !Hmem.
    destruct (decide (other = id)); destruct (decide (id ∈ prev)); set_solver.
  - intros id'. apply set_eq. intros other. rewrite !Hmem.
    destruct (decide (other = id)); destruct (decide (other = id'));
      destruct (decide (id = id')); destruct (decide (id ∈ prev));
      destruct (decide (id' ∈ prev)); subst; try tauto; set_solver.
  - intros Hin. unfold toggleSelect. rewrite decide_True by exact Hin.
    rewrite (size_difference prev {[id]}) by set_solver.
    rewrite size_singleton.
    assert (size prev <> 0).
    { intros E. apply size_empty_inv in E. set_solver. }
    lia.
  - intros Hout. unfold toggleSelect. rewrite decide_False by exact Hout.
    rewrite size_union by set_solver. rewrite size_singleton. lia.
Qed.

Lemma toggleSelect_flips_witness :
  S (size (toggleSelect 2 {[1%Z; 2%Z]})) = 2
  /\ size (toggleSelect 3 {[1%Z; 2%Z]}) = 3.
Proof.
  split.
  - etransitivity.
    + apply (proj1 (proj2 (proj2 (proj2 (toggleSelect_flips 2 {[1%Z; 2%Z]}))))).
      apply elem_of_union. right. now apply elem_of_singleton.
    + vm_compute. reflexivity.
  - etransitivity.
    + apply (proj2 (proj2 (proj2 (proj2 (toggleSelect_flips 3 {[1%Z; 2%Z]}))))).
      intros H. apply elem_of_union in H as [H | H];
        apply elem_of_singleton in H; discriminate.
    + vm_compute. reflexivity.
Defined.

(** [selectAll] decides by the number of selected ids alone.  When the
    screenshots shown have distinct ids and every selected id is one of
    them, it clears the selection if all of them are selected and selects
    all of them otherwise; so pressing it twice always ends with nothing
    selected or with everything selected, in turn.  Whatever the
    selection, its result is the empty set or the ids shown. *)
Theorem selectAll_by_count (selectedIds : gset Z) (screenshots : list Screenshot) :
  let shown : gset Z := list_to_set (map Gallery.id screenshots) in
  (selectAll selectedIds screenshots = ∅
   \/ selectAll selectedIds screenshots = shown)
  /\ (NoDup (map Gallery.id screenshots) ->
      selectedIds ⊆ shown ->
      (selectedIds = shown -> selectAll selectedIds screenshots = ∅)
      /\ (selectedIds <> shown -> selectAll selectedIds screenshots = shown)
      /\ (screenshots <> [] ->
          selectAll (selectAll selectedIds screenshots) screenshots
          = if decide (selectedIds = shown) then shown else ∅)).
Proof.
  intros shown. split.
  - unfold selectAll. destruct (_ =? _); auto.
  - intros Hnd Hsub.
    assert (Hsize : size shown = length screenshots).
    { unfold shown. rewrite size_list_to_set by exact Hnd. apply length_map. }
    assert (Hall : selectAll shown screenshots = ∅).
    { unfold selectAll. now rewrite Hsize, Nat.eqb_refl. }
    assert (Hother : selectedIds <> shown -> selectAll selectedIds screenshots = shown).
    { intros Hne. unfold selectAll.
      destruct (size selectedIds =? length screenshots) eqn:E; [| reflexivity].
      apply Nat.eqb_eq in E. contradiction Hne.
      apply leibniz_equiv, set_subseteq_size_equiv; [exact Hsub | lia]. }
    split; [now intros -> | split; [exact Hother |]].
    intros Hne. destruct (decide (selectedIds = shown)) as [-> | Hd].
    + rewrite Hall. unfold selectAll. rewrite size_empty.
      destruct screenshots; [contradiction | reflexivity].
    + rewrite (Hother Hd). exact Hall.
Qed.

Lemma selectAll_by_count_witness :
  selectAll {[7%Z]} twoShots = {[7%Z; 9%Z]}
  /\ selectAll {[7%Z; 9%Z]} twoShots = ∅.
Proof.
  assert (Hnd : NoDup (map Gallery.id twoShots)).
  { repeat constructor; set_solver. }
  split.
  - etransitivity.
    + apply (proj1 (proj2 (proj2 (selectAll_by_count {[7%Z]} twoShots) Hnd
                              ltac:(set_solver)))).
      intros E. assert (H : 9%Z ∈ ({[7%Z]} : gset Z)) by (rewrite E; set_solver).
      set_solver.
    + apply set_eq. intros x. set_solver.
  - apply (proj1 (proj2 (selectAll_by_count {[7%Z; 9%Z]} twoShots) Hnd
                    ltac:(set_solver))).
    apply set_eq. intros x. set_solver.
Defined.

(** A selection left over from another page has as many ids as the page
    shown: [selectAll] then clears it, and selects none of the
    screenshots shown. *)
Lemma selectAll_stale_selection :
  selectAll {[1%Z; 2%Z]} twoShots = ∅.
Proof. reflexivity. Qed.

(** In the lightbox, over a gallery that is not empty and from an index
    within it: [nextImage] and [prevImage] give an index within the
    gallery, the next one and the one before, going round at the ends;
    and each undoes the other. *)
Theorem image_navigation (screenshots : list Screenshot) (index : Z) :
  let n := Z.of_nat (length screenshots) in
  (0 <= index < n)%Z ->
  exists next previous,
    nextImage screenshots index = Some next
    /\ prevImage screenshots index = Some previous
    /\ (0 <= next < n)%Z /\ (0 <= previous < n)%Z
    /\ next = (if decide (index + 1 = n) then 0 else index + 1)%Z
    /\ previous = (if decide (index = 0) then n - 1 else index - 1)%Z
    /\ prevImage screenshots next = Some index
    /\ nextImage screenshots previous = Some index.
Proof.
  intros n Hi. unfold nextImage, prevImage, remainder. fold n.
  assert (Hn : (n =? 0)%Z = false) by (apply Z.eqb_neq; lia).
  rewrite Hn.
  assert (Hnext : Z.rem (index + 1) n = (if decide (index + 1 = n) then 0 else index + 1)%Z).
  { destruct (decide (index + 1 = n)%Z) as [-> | Hne].
    - apply Z.rem_same. lia.
    - apply Z.rem_small. lia. }
  assert (Hprev : Z.rem (index - 1 + n) n
                  = (if decide (index = 0) then n - 1 else index - 1)%Z).
  { destruct (decide (index = 0)%Z) as [-> | Hne].
    - replace (0 - 1 + n)%Z with (n - 1)%Z by lia. apply Z.rem_small. lia.
    - rewrite Z.rem_mod_nonneg by lia.
      replace (index - 1 + n)%Z with (index - 1 + 1 * n)%Z by lia.
      rewrite Z.mod_add by lia. apply Z.mod_small. lia. }
  exists (Z.rem (index + 1) n), (Z.rem (index - 1 + n) n).
  rewrite Hnext, Hprev.
  repeat (split; [first [reflexivity | destruct (decide _), (decide _); lia] |]).
  split.
  - f_equal. destruct (decide (index + 1 = n)%Z) as [E | Hne].
    + replace (0 - 1 + n)%Z with index by lia. apply Z.rem_small. lia.
    + replace (index + 1 - 1 + n)%Z with (index + 1 * n)%Z by lia.
      rewrite Z.rem_mod_nonneg by lia.
      rewrite Z.mod_add by lia. apply Z.mod_small. lia.
  - f_equal. destruct (decide (index = 0)%Z) as [-> | Hne].
    + replace (n - 1 + 1)%Z with n by lia. apply Z.rem_same. lia.
    + replace (index - 1 + 1)%Z with index by lia. apply Z.rem_small. lia.
Qed.

Lemma image_navigation_witness :
  exists next previous,
    nextImage twoShots 1 = Some next /\ prevImage twoShots 1 = Some previous
    /\ next = 0%Z /\ previous = 0%Z.
Proof.
  destruct (image_navigation twoShots 1 ltac:(cbn; lia))
    as (next & previous & Hn & Hp & _ & _ & En & Ep & _).
  exists next, previous. repeat split; assumption.
Defined.

(** On an empty gallery both give [NaN]. *)
Lemma image_navigation_empty (index : Z) :
  nextImage [] index = None /\ prevImage [] index = None.
Proof. split; reflexivity. Qed.

(** The page buttons of the gallery.  From a page index that is not
    negative, the previous button never leads below page zero; a button
    that is enabled moves by exactly one page and stays within the
    [totalPages] pages; and each button undoes the other. *)
Theorem page_buttons_stay_in_range (totalPages : Z) (pagination : PaginationState) :
  (0 <= pageIndex pagination)%Z ->
  (0 <= pageIndex (previousPage pagination))%Z
  /\ pageSize (previousPage pagination) = pageSize pagination
  /\ pageSize (nextPage totalPages pagination) = pageSize pagination
  /\ (previousDisabled pagination = false ->
      pageIndex (previousPage pagination) = (pageIndex pagination - 1)%Z
      /\ (pageIndex pagination < totalPages ->
          nextPage totalPages (previousPage pagination) = pagination)%Z)
  /\ (nextDisabled totalPages pagination = false ->
      pageIndex (nextPage totalPages pagination) = (pageIndex pagination + 1)%Z
      /\ (pageIndex (nextPage totalPages pagination) < totalPages)%Z
      /\ previousPage (nextPage totalPages pagination) = pagination).
Proof.
  intros H0. destruct pagination as [i size].
  unfold previousPage, nextPage, previousDisabled, nextDisabled.
  cbn [pageIndex pageSize] in *.
  split; [lia | split; [reflexivity | split; [reflexivity | split]]].
  - intros Hd. apply Z.eqb_neq in Hd. split; [lia |].
    intros Hlt. f_equal. lia.
  - intros Hd. apply Z.leb_gt in Hd. split; [lia | split; [lia |]].
    f_equal. lia.
Qed.

Lemma page_buttons_stay_in_range_witness :
  pageIndex (previousPage firstPage) = 0%Z
  /\ pageIndex (nextPage 3 firstPage) = 1%Z.
Proof.
  pose proof (page_buttons_stay_in_range 3 firstPage ltac:(cbn; lia))
    as (H0 & _ & _ & _ & Hn).
  split.
  - reflexivity.
  - apply (proj1 (Hn eq_refl)).
Defined.

End GalleryFacts.

(* ===================================================================== *)
(** * Further theorems: the matcher stays within its subject *)
(* ===================================================================== *)

Section WithinFacts.
Import Regex.

Lemma Within_tail (subject : Text) (d : N) (s : Text) (caps : Caps) :
  Within subject (d :: s) caps -> Within subject s caps.
Proof.
  intros [[before ->] Hcaps]. split; [| exact Hcaps].
  exists (before ++ [d]). now rewrite <- app_assoc.
Qed.

Lemma starLoop_within {A : Type} (subject : Text)
    (body : Text -> Caps -> (Text -> Caps -> option A) -> option A)
    (k : Text -> Caps -> option A) (fuel : nat) (s : Text) (caps : Caps) (x : A) :
  (forall s0 caps0 k0 x0,
     Within subject s0 caps0 -> body s0 caps0 k0 = Some x0 ->
     exists s' caps', Within subject s' caps' /\ k0 s' caps' = Some x0) ->
  Within subject s caps ->
  starLoop body k fuel s caps = Some x ->
  exists s' caps', Within subject s' caps' /\ k s' caps' = Some x.
Proof.
  intros Hbody. revert s caps.
  induction fuel as [| fuel IH]; intros s caps Hin; cbn [starLoop].
  - eauto.
  - destruct (body s caps _) as [y |] eqn:E; [| eauto].
    intros [= ->]. apply (Hbody _ _ _ _ Hin) in E as (s' & caps' & Hin' & E).
    destruct (length s' <? length s); [| discriminate]. eauto.
Qed.

(** Whatever the pattern, the continuation is entered within the
    subject: with an end of it left and parts of it captured. *)
Lemma run_within {A : Type} (subject : Text) (fl : Flags) (r : Re) (s : Text)
    (caps : Caps) (k : Text -> Caps -> option A) (x : A) :
  Within subject s caps ->
  run fl r s caps k = Some x ->
  exists s' caps', Within subject s' caps' /\ k s' caps' = Some x.
Proof.
  revert s caps k x.
  induction r as [| c | p | a IHa b IHb | a IHa b IHb | a IHa | i a IHa |];
    intros s caps k x Hin; cbn [run].
  - eauto.
  - destruct s as [| d s]; [discriminate |].
    destruct (sameChar fl c d); [| discriminate].
    apply Within_tail in Hin. eauto.
  - destruct s as [| d s]; [discriminate |].
    destruct (p d); [| discriminate].
    apply Within_tail in Hin. eauto.
  - intros H. apply (IHa _ _ _ _ Hin) in H as (s1 & caps1 & Hin1 & H).
    now apply (IHb _ _ _ _ Hin1) in H.
  - destruct (run fl a s caps k) as [y |] eqn:E.
    + intros [= ->]. now apply (IHa _ _ _ _ Hin) in E.
    + now apply IHb.
  - apply starLoop_within; [| exact Hin].
    intros s0 caps0 k0 x0. apply IHa.
  - intros H. apply (IHa _ _ _ _ Hin) in H as (s1 & caps1 & Hin1 & H).
    exists s1, ((i, take (length s - length s1) s) :: caps1).
    split; [| exact H].
    destruct Hin as [[before ->] _]. destruct Hin1 as [Hs1 Hcaps1].
    split; [exact Hs1 |]. constructor; [| exact Hcaps1].
    exists before, (drop (length s - length s1) s). cbn [snd].
    now rewrite take_drop.
  - destruct s; [eauto | discriminate].
Qed.

(** The captures of a match are parts of the text matched against. *)
Lemma matchPrefix_captures (fl : Flags) (r : Re) (s m rest : Text) (caps : Caps)
    (i : nat) (t : Text) :
  matchPrefix fl r s = Some (m, rest, caps) ->
  capture i caps = Some t ->
  exists a b, s = a ++ t ++ b.
Proof.
  unfold matchPrefix. intros H Hcap.
  apply (run_within s) in H as (s' & caps' & [_ Hcaps] & [= _ _ ->]).
  - clear - Hcaps Hcap. induction Hcaps as [| [j u] caps [a [b E]] _ IH];
      cbn [capture] in Hcap; [discriminate |].
    destruct (i =? j); [| now apply IH].
    injection Hcap as <-. eauto.
  - split; [now exists [] | constructor].
Qed.

End WithinFacts.

(* ===================================================================== *)
(** * Further theorems: the level filter *)
(* ===================================================================== *)

Section LevelFilterMore.
Import Regex LogViewer Examples.

Lemma blockVisible_true (targetLevel : Text) (vis : bool) (line : Text) :
  blockVisible targetLevel vis line = true ->
  (forall level, recognizedLevel line = Some level ->
                 normalizeLevel level = targetLevel)
  /\ (recognizedLevel line = None -> isNewEntryStart line = false /\ vis = true).
Proof.
  unfold blockVisible. destruct (recognizedLevel line) as [level |].
  - intros H. apply bool_decide_eq_true in H. split; [| discriminate].
    now intros ? [= <-].
  - destruct (isNewEntryStart line); [discriminate |]. intros ->.
    split; [discriminate | auto].
Qed.

Lemma blockVisible_later (targetLevel : Text) (vis vis' : bool) (line : Text) :
  (vis = true -> vis' = true) ->
  blockVisible targetLevel vis line = true ->
  blockVisible targetLevel vis' line = true.
Proof.
  unfold blockVisible. destruct (recognizedLevel line); [auto |].
  destruct (isNewEntryStart line); auto.
Qed.

(** While a block is visible, something has been kept. *)
Lemma visibility_kept (targetLevel : Text) (lines : list Text) :
  visibility targetLevel lines = true -> filterLines targetLevel lines <> [].
Proof.
  induction lines as [| line before IH] using rev_ind; [discriminate |].
  intros H. rewrite filterLines_snoc, H. intros E.
  apply app_eq_nil in E as [_ E]. discriminate.
Qed.

Lemma filterLines_again (targetLevel : Text) (lines : list Text) :
  filterLines targetLevel (filterLines targetLevel lines)
  = filterLines targetLevel lines
  /\ (visibility targetLevel lines = true ->
      visibility targetLevel (filterLines targetLevel lines) = true).
Proof.
  induction lines as [| line before [IH1 IH2]] using rev_ind; [split; [reflexivity | discriminate] |].
  rewrite filterLines_snoc.
  destruct (visibility targetLevel (before ++ [line])) eqn:Hv.
  - rewrite visibility_snoc in Hv.
    assert (Hv' : visibility targetLevel (filterLines targetLevel before ++ [line]) = true).
    { rewrite visibility_snoc. now apply (blockVisible_later _ _ _ _ IH2). }
    split; [| auto]. now rewrite filterLines_snoc, IH1, Hv'.
  - rewrite app_nil_r. split; [exact IH1 | discriminate].
Qed.

Lemma filterLines_blank (targetLevel : Text) : filterLines targetLevel [[]] = [].
Proof.
  unfold filterLines. cbn [fold_left]. unfold lineStep, blockVisible. cbn [fst snd].
  replace (recognizedLevel []) with (@None Text) by (vm_compute; reflexivity).
  now destruct (isNewEntryStart []).
Qed.

(** Filtering a second time by the same level changes nothing. *)
Theorem filterByLevel_idempotent (content level : Text) :
  filterByLevel (filterByLevel content level) level = filterByLevel content level.
Proof.
  unfold filterByLevel. case_bool_decide as Hall; [reflexivity |].
  destruct (filterLines (normalizeLevel level) (split content)) as [| l ls] eqn:E.
  - cbn [join split]. now rewrite filterLines_blank.
  - rewrite split_join.
    + rewrite <- E. now rewrite (proj1 (filterLines_again _ _)).
    + discriminate.
    + rewrite <- E. apply filterLines_Forall, split_no_LF.
Qed.

Lemma filterLines_sublist (targetLevel : Text) (lines : list Text) :
  filterLines targetLevel lines `sublist_of` lines.
Proof.
  induction lines as [| line before IH] using rev_ind; [constructor |].
  rewrite filterLines_snoc. apply sublist_app; [exact IH |].
  destruct (visibility _ _); [reflexivity | apply sublist_nil_l].
Qed.

Lemma filterLines_visible (targetLevel : Text) (lines : list Text) (line : Text) :
  In line (filterLines targetLevel lines) ->
  exists vis, blockVisible targetLevel vis line = true.
Proof.
  induction lines as [| l before IH] using rev_ind; [intros [] |].
  rewrite filterLines_snoc, in_app_iff. intros [H | H]; [auto |].
  destruct (visibility targetLevel (before ++ [l])) eqn:Hv; [| destruct H].
  destruct H as [<- | []]. rewrite visibility_snoc in Hv. eauto.
Qed.

Lemma filterLines_first (targetLevel : Text) (lines : list Text) (first : Text)
    (rest : list Text) :
  filterLines targetLevel lines = first :: rest ->
  is_Some (recognizedLevel first).
Proof.
  revert first rest. induction lines as [| l before IH] using rev_ind;
    intros first rest; [discriminate |].
  rewrite filterLines_snoc.
  destruct (filterLines targetLevel before) as [| k ks] eqn:Ek.
  - destruct (visibility targetLevel (before ++ [l])) eqn:Hv; [| discriminate].
    cbn [app]. intros [= <- <-]. rewrite visibility_snoc in Hv.
    destruct (visibility targetLevel before) eqn:Hb.
    + now apply visibility_kept in Hb.
    + unfold blockVisible in Hv.
      destruct (recognizedLevel l); [eauto |].
      destruct (isNewEntryStart l); discriminate.
  - cbn [app]. intros [= <- _]. now apply (IH k ks).
Qed.

(** The filter invents and reorders nothing, and shows no line of another
    level: the lines it keeps are lines of the text, in their order; a
    kept line in which a level is recognized has the level asked for
    (after normalization); a kept line without a level starts no new
    entry; and the first kept line has a level. *)
Theorem filterByLevel_keeps_only (content level : Text) :
  level <> cp "all" ->
  let kept := filterLines (normalizeLevel level) (split content) in
  filterByLevel content level = join kept
  /\ kept `sublist_of` split content
  /\ (forall line found,
        In line kept -> recognizedLevel line = Some found ->
        normalizeLevel found = normalizeLevel level)
  /\ (forall line,
        In line kept -> recognizedLevel line = None -> isNewEntryStart line = false)
  /\ (forall first rest, kept = first :: rest -> is_Some (recognizedLevel first)).
Proof.
  intros Hall kept. split; [| split; [| split; [| split]]].
  - unfold filterByLevel. now rewrite bool_decide_eq_false_2.
  - apply filterLines_sublist.
  - intros line found Hin Hfound. apply filterLines_visible in Hin as [vis Hvis].
    now apply (proj1 (blockVisible_true _ _ _ Hvis)).
  - intros line Hin Hnone. apply filterLines_visible in Hin as [vis Hvis].
    now apply (proj2 (blockVisible_true _ _ _ Hvis)).
  - apply filterLines_first.
Qed.

Lemma filterByLevel_keeps_only_witness :
  filterByLevel (join [infoLine; traceLine; errorLine; stepLine]) (cp "info")
  = join [infoLine; traceLine].
Proof.
  etransitivity.
  - apply (proj1 (filterByLevel_keeps_only
                    (join [infoLine; traceLine; errorLine; stepLine]) (cp "info")
                    ltac:(discriminate))).
  - vm_compute. reflexivity.
Defined.

Lemma normalizeLevel_range (level : Text) :
  In level LEVEL_NAMES ->
  In (normalizeLevel level) [cp "DEBUG"; cp "INFO"; cp "WARN"; cp "ERROR"].
Proof.
  unfold LEVEL_NAMES. cbn [In]. intros H.
  repeat (destruct H as [<- | H]; [vm_compute; tauto |]). destruct H.
Qed.

Lemma filterLines_unknown (targetLevel : Text) (lines : list Text) :
  ~ In targetLevel [cp "DEBUG"; cp "INFO"; cp "WARN"; cp "ERROR"] ->
  filterLines targetLevel lines = [] /\ visibility targetLevel lines = false.
Proof.
  intros Hunknown.
  induction lines as [| line before [IH1 IH2]] using rev_ind; [split; reflexivity |].
  assert (Hv : visibility targetLevel (before ++ [line]) = false).
  { rewrite visibility_snoc, IH2. unfold blockVisible.
    destruct (recognizedLevel line) as [found |] eqn:E.
    - apply bool_decide_eq_false. intros <-.
      apply Hunknown, normalizeLevel_range. now apply recognizedLevel_range in E.
    - now destruct (isNewEntryStart line). }
  split; [| exact Hv]. now rewrite filterLines_snoc, Hv, IH1.
Qed.

(** A level written in ASCII characters that is neither "all" nor, after
    normalization, one of DEBUG, INFO, WARN and ERROR shows nothing: the
    result is the empty text, whatever the log. *)
Theorem filterByLevel_unknown_level (content level : Text) :
  Forall (fun c => (c < 128)%N) level ->
  level <> cp "all" ->
  ~ In (normalizeLevel level) [cp "DEBUG"; cp "INFO"; cp "WARN"; cp "ERROR"] ->
  filterByLevel content level = [].
Proof.
  intros _ Hall Hunknown. unfold filterByLevel.
  rewrite bool_decide_eq_false_2 by exact Hall.
  now rewrite (proj1 (filterLines_unknown _ (split content) Hunknown)).
Qed.

Lemma filterByLevel_unknown_level_witness :
  filterByLevel (join [infoLine; errorLine; warningLine]) (cp "fatal") = [].
Proof.
  apply filterByLevel_unknown_level;
    [repeat constructor | discriminate |].
  vm_compute. intros H.
  repeat (destruct H as [H | H]; [discriminate H |]). exact H.
Defined.

End LevelFilterMore.

(* ===================================================================== *)
(** * Further theorems: colouring and highlighting *)
(* ===================================================================== *)

Section ColorizeFacts.
Import Regex LogViewer Examples.

Local Ltac no_LF :=
  let H := fresh in
  intros H; cbv in H; repeat (destruct H as [H | H]; [discriminate H |]); exact H.

Lemma part_no_LF (s a t b : Text) : s = a ++ t ++ b -> ~ In LF s -> ~ In LF t.
Proof. intros -> H Hin. apply H. rewrite !in_app_iff. auto. Qed.

Lemma capture_no_LF (fl : Flags) (r : Re) (s m rest : Text) (caps : Caps) (i : nat) :
  matchPrefix fl r s = Some (m, rest, caps) ->
  ~ In LF s ->
  ~ In LF (default [] (capture i caps)).
Proof.
  intros Hm Hs. destruct (capture i caps) as [t |] eqn:E; [| intros []].
  destruct (matchPrefix_captures _ _ _ _ _ _ _ _ Hm E) as (a & b & Hab).
  exact (part_no_LF _ _ _ _ Hab Hs).
Qed.

Lemma LOG_LEVEL_COLORS_no_LF (level : Text) :
  ~ In LF (default (cp "#d4d4d4") (LOG_LEVEL_COLORS level)).
Proof.
  unfold LOG_LEVEL_COLORS. repeat case_bool_decide; cbn [default]; no_LF.
Qed.

Lemma spanOpen_no_LF (style : Text) : ~ In LF style -> ~ In LF (spanOpen style).
Proof.
  intros Hs. unfold spanOpen. rewrite in_app_iff. intros [H | H]; [revert H; no_LF |].
  destruct H as [H | H]; [discriminate H |].
  rewrite in_app_iff in H. destruct H as [H | H]; [contradiction |].
  destruct H as [H | H]; [discriminate H |]. revert H. no_LF.
Qed.

Section Converter.

Context (toHtml : Text -> Text).
Hypothesis toHtml_no_LF : forall t, ~ In LF t -> ~ In LF (toHtml t).

Lemma colorizeLine_no_LF (line : Text) :
  ~ In LF line -> ~ In LF (colorizeLine toHtml line).
Proof using toHtml_no_LF.
  intros Hline. unfold colorizeLine.
  destruct (matchPrefix caseSensitive logLineRegex line) as [[[m rest] caps] |] eqn:E;
    [| now apply toHtml_no_LF].
  pose proof (fun i => toHtml_no_LF _ (capture_no_LF _ _ _ _ _ _ i E Hline)) as Hcap.
  rewrite !in_app_iff.
  intros [H | [H | [H | [H | [H | [H | [H | [H | H]]]]]]]].
  - revert H. apply spanOpen_no_LF. no_LF.
  - exact (Hcap 1 H).
  - revert H. no_LF.
  - revert H. no_LF.
  - revert H. apply spanOpen_no_LF. rewrite !in_app_iff.
    intros [H | [H | [H | H]]].
    + revert H. no_LF.
    + exact (LOG_LEVEL_COLORS_no_LF _ H).
    + revert H. no_LF.
    + revert H. case_bool_decide; no_LF.
  - exact (Hcap 2 H).
  - revert H. no_LF.
  - revert H. no_LF.
  - exact (Hcap 4 H).
Qed.

Lemma colorizeLogContent_lines (content : Text) :
  split (colorizeLogContent toHtml content)
  = map (colorizeLine toHtml) (split content).
Proof using toHtml_no_LF.
  unfold colorizeLogContent. apply split_join.
  - pose proof (split_nonempty content). now destruct (split content).
  - pose proof (split_no_LF content) as H.
    induction H as [| line lines Hline _ IH]; [constructor |].
    cbn [map]. constructor; [now apply colorizeLine_no_LF | exact IH].
Qed.

End Converter.

(** Colouring works line by line and keeps the lines apart: when the
    converter puts no line feed into a text that has none, the lines of
    the coloured text are the coloured lines of the text, one for one. *)
Theorem colorize_keeps_lines (toHtml : Text -> Text) (content : Text) :
  (forall t, ~ In LF t -> ~ In LF (toHtml t)) ->
  split (colorizeLogContent toHtml content) = map (colorizeLine toHtml) (split content)
  /\ length (split (colorizeLogContent toHtml content)) = length (split content).
Proof.
  intros H. rewrite (colorizeLogContent_lines toHtml H).
  split; [reflexivity | apply length_map].
Qed.

Lemma hexDigit_not_LF (d : N) : hexDigit d <> LF.
Proof.
  unfold hexDigit, LF.
  destruct (d <? 10)%N eqn:E; [apply N.ltb_lt in E | apply N.ltb_ge in E]; lia.
Qed.

Lemma hexFrom_no_LF (fuel : nat) (n : N) : ~ In LF (hexFrom fuel n).
Proof.
  revert n. induction fuel as [| fuel IH]; intros n; cbn [hexFrom]; [intros [] |].
  destruct (n <? 16)%N.
  - intros [H | []]. now apply hexDigit_not_LF in H.
  - rewrite in_app_iff. intros [H | [H | []]]; [now apply IH in H |].
    now apply hexDigit_not_LF in H.
Qed.

Lemma escapeChar_no_LF (c : N) : c <> LF -> ~ In LF (escapeChar c).
Proof.
  intros Hc. unfold escapeChar.
  repeat (match goal with
          | |- context [if ?b then _ else _] => destruct b eqn:?
          end); try no_LF.
  - rewrite !in_app_iff. intros [H | [H | H]]; [revert H; no_LF | | revert H; no_LF].
    now apply hexFrom_no_LF in H.
  - intros [H | []]. congruence.
Qed.

Lemma encodeXML_no_LF (t : Text) : ~ In LF t -> ~ In LF (encodeXML t).
Proof.
  induction t as [| c t IH]; [auto |]. intros H.
  cbn [encodeXML flat_map]. rewrite in_app_iff. intros [Hc | Ht].
  - revert Hc. apply escapeChar_no_LF. intros ->. apply H. now left.
  - revert Ht. apply IH. intros Hin. apply H. now right.
Qed.

Lemma colorize_keeps_lines_witness :
  length (split (colorizeLogContent encodeXML (join [stampedLine; traceLine; errorLine])))
  = 3.
Proof.
  etransitivity.
  - apply (proj2 (colorize_keeps_lines encodeXML
                    (join [stampedLine; traceLine; errorLine]) encodeXML_no_LF)).
  - vm_compute. reflexivity.
Defined.

End ColorizeFacts.

Section HighlightMore.
Import Regex LogViewer Examples.

(** What the scan for a literal finds: each hit is a match of the
    literal, of its length, captured as group [i]. *)
Lemma scan_literal_hits (fl : Flags) (i : nat) (c : N) (p : Text) (fuel : nat) (s : Text) :
  Forall
    (fun piece =>
       match piece with
       | Plain _ => True
       | Hit m caps =>
           caps = [(i, m)] /\ length m = length (c :: p)
           /\ prefixMatches fl (c :: p) m = true
       end)
    (scan fl (Group i (Lit (c :: p))) fuel s).
Proof.
  revert s. induction fuel as [| fuel IH]; intros s; [constructor |].
  rewrite scan_literal_step.
  destruct (prefixMatches fl (c :: p) s) eqn:E.
  - constructor; [| apply IH].
    split; [reflexivity |]. pose proof (prefixMatches_length _ _ _ E).
    split; [rewrite length_take; lia | now apply prefixMatches_take].
  - destruct s as [| d s]; constructor; [exact I | apply IH].
Qed.

(** Where the literal matches nowhere the scan finds nothing. *)
Lemma scan_literal_none (fl : Flags) (i : nat) (c : N) (p : Text) (fuel : nat) (s : Text) :
  length s < fuel ->
  (forall k, prefixMatches fl (c :: p) (drop k s) = false) ->
  scan fl (Group i (Lit (c :: p))) fuel s = map Plain s.
Proof.
  revert s. induction fuel as [| fuel IH]; intros s Hfuel Hnone; [lia |].
  rewrite scan_literal_step.
  pose proof (Hnone 0) as H0. change (drop 0 s) with s in H0. rewrite H0.
  destruct s as [| d s]; [reflexivity |].
  cbn [map]. f_equal. apply IH; [cbn [length] in Hfuel; lia |].
  intros k. exact (Hnone (S k)).
Qed.

Lemma renderPieces_plain (f : Text -> Caps -> Text) (s : Text) :
  renderPieces f (map Plain s) = s.
Proof.
  unfold renderPieces. induction s as [| c s IH]; [reflexivity |].
  cbn [map flat_map app]. now rewrite IH.
Qed.

Section Converter.

Context (toHtml : Text -> Text).

(** Highlighting marks matches of the query and nothing else.  For a
    non-blank query, in a rendering made of tags and text runs: each text
    run comes out cut into pieces that make up the run again, in which
    every marked piece has the length of the escaped query and equals it
    up to case, and everything else is copied; a text run in which the
    escaped query matches at no place comes out unchanged; and when that
    is so for all text runs the whole rendering comes out unchanged. *)
Theorem highlight_marks_only_matches (segs : list Segment) (query : Text) :
  isBlank query = false ->
  toHtml query <> [] ->
  wellFormedSegments segs = true ->
  let sought := toHtml query in
  let regex := Group 1 (Lit sought) in
  (forall text,
     exists cut,
       highlightSegment regex (TextRun text)
       = flat_map
           (fun piece =>
              match piece with
              | Plain c => [c]
              | Hit m _ => markOpen ++ m ++ markClose
              end)
           cut
       /\ piecesText cut = text
       /\ forall m caps,
            In (Hit m caps) cut ->
            length m = length sought /\ prefixMatches flagIU sought m = true)
  /\ (forall text,
        (forall k, prefixMatches flagIU sought (drop k text) = false) ->
        highlightSegment regex (TextRun text) = text)
  /\ ((forall text,
         In (TextRun text) segs ->
         forall k, prefixMatches flagIU sought (drop k text) = false) ->
      highlightSearch toHtml (renderSegments segs) query = renderSegments segs).
Proof.
  intros Hq Hne Hwf sought regex.
  destruct sought as [| c p] eqn:Es; [contradiction |].
  assert (Hnone : forall text,
            (forall k, prefixMatches flagIU (c :: p) (drop k text) = false) ->
            highlightSegment regex (TextRun text) = text).
  { intros text H. unfold regex. cbn [highlightSegment].
    unfold replaceAll, pieces.
    rewrite scan_literal_none by (auto; lia). apply renderPieces_plain. }
  split; [| split; [exact Hnone |]].
  - intros text. exists (pieces flagIU regex text).
    pose proof (scan_literal_hits flagIU 1 c p (S (length text)) text) as Hhits.
    fold (pieces flagIU (Group 1 (Lit (c :: p))) text) in Hhits. fold regex in Hhits.
    split; [| split].
    + cbn [highlightSegment]. unfold replaceAll, renderPieces.
      induction Hhits as [| piece cut Hpiece _ IH]; [reflexivity |].
      cbn [flat_map]. rewrite IH. f_equal.
      destruct piece as [d | m caps]; [reflexivity |].
      destruct Hpiece as (-> & _ & _). unfold markReplacement. cbn [capture].
      reflexivity.
    + apply scan_literal_text. lia.
    + intros m caps Hin.
      pose proof (proj1 (List.Forall_forall _ _) Hhits _ Hin) as H.
      cbn in H. tauto.
  - intros Hall. rewrite (highlightSearch_segments toHtml segs query Hq Hwf).
    fold sought. rewrite Es. fold regex.
    clear Hwf. induction segs as [| seg segs IH]; [reflexivity |].
    cbn [flat_map renderSegments]. fold (renderSegments segs).
    rewrite IH by (intros text Hin; apply Hall; now right).
    f_equal. destruct seg as [body | text]; [reflexivity |].
    apply Hnone, Hall. now left.
Qed.

End Converter.

Lemma highlight_marks_only_matches_witness :
  highlightSearch encodeXML (cp "scan <b>done</b>") (cp "failed")
  = cp "scan <b>done</b>".
Proof.
  apply (proj2 (proj2 (highlight_marks_only_matches encodeXML
                         [TextRun (cp "scan "); TagSeg (cp "b"); TextRun (cp "done");
                          TagSeg (cp "/b")]
                         (cp "failed") eq_refl ltac:(discriminate) eq_refl))).
  intros text Hin.
  assert (Hshort : length text < 6).
  { destruct Hin as [[= <-] | [[=] | [[= <-] | [[=] | []]]]]; vm_compute; lia. }
  intros k. destruct (prefixMatches flagIU (encodeXML (cp "failed")) (drop k text)) eqn:E;
    [| reflexivity].
  apply prefixMatches_length in E. rewrite length_drop in E.
  change (length (encodeXML (cp "failed"))) with 6 in E. lia.
Defined.

End HighlightMore.

(* ===================================================================== *)
(** * Further theorems: the scan log list *)
(* ===================================================================== *)

Section ScanLogFacts.
Import Regex LogViewer ScanLogs Examples.

(** Greedy repetition of a character class fails when the continuation
    refuses every place it can be entered at. *)
Lemma starLoop_Cls_fails {A : Type} (fl : Flags) (cls : N -> bool)
    (k : Text -> Caps -> option A) (fuel : nat) (body rest : Text) (caps : Caps) :
  Forall (fun c => cls c = true) body ->
  match rest with [] => True | d :: _ => cls d = false end ->
  (forall j, j <= length body -> k (drop j body ++ rest) caps = None) ->
  starLoop (run fl (Cls cls)) k fuel (body ++ rest) caps = None.
Proof.
  intros Hbody Hrest. revert fuel.
  induction Hbody as [| d body Hd _ IH]; intros fuel Hk.
  - pose proof (Hk 0 (Nat.le_refl 0)) as H0. cbn [drop app] in *.
    destruct fuel as [| fuel]; [exact H0 |]. cbn [starLoop run].
    destruct rest as [| e rest]; [exact H0 |]. now rewrite Hrest.
  - pose proof (Hk 0 (Nat.le_0_l _)) as H0. cbn [drop app] in H0.
    destruct fuel as [| fuel]; [exact H0 |].
    assert (Hinner : starLoop (run fl (Cls cls)) k fuel (body ++ rest) caps = None).
    { apply IH. intros j Hj. apply (Hk (S j)). cbn [length]. lia. }
    cbn [starLoop app]. rewrite run_Cls_cons, Hd, Hinner.
    destruct (_ <? _); exact H0.
Qed.

(** The step-marker pattern [\[\d+\/\d+\]] on a bracket followed by two
    digits and a colon. *)
Lemma step_marker_fails (d1 d2 : N) (tail : Text) :
  isDigit d1 = true -> isDigit d2 = true ->
  matchPrefix caseSensitive
    (Cat [Str "["; Plus Digit; Str "/"; Plus Digit; Str "]"])
    (91 :: d1 :: d2 :: 58 :: tail)%N = None.
Proof.
  intros H1 H2. unfold matchPrefix.
  cbn -[isDigit N.eqb Nat.ltb length take sameChar starLoop].
  replace (sameChar caseSensitive _ 91%N) with true by (vm_compute; reflexivity).
  rewrite H1.
  apply (starLoop_Cls_fails caseSensitive isDigit _ _ [d2] (58 :: tail)%N []).
  - now constructor.
  - reflexivity.
  - intros j Hj. cbn [length] in Hj.
    assert (Hd2 : sameChar caseSensitive 47%N d2 = false).
    { unfold isDigit, inRange in H2. apply andb_prop in H2 as [Hlo _].
      apply N.leb_le in Hlo. apply N.eqb_neq. cbn. lia. }
    destruct j as [| [| j]]; [| | lia]; cbn [drop app].
    + change (sameChar caseSensitive _ d2) with (sameChar caseSensitive 47%N d2).
      now rewrite Hd2.
    + reflexivity.
Qed.

Lemma hours_cases (h : N) :
  (h < 24)%N -> In h (map N.of_nat (seq 0 24)).
Proof.
  intros H. apply in_map_iff. exists (N.to_nat h).
  split; [lia | apply in_seq; lia].
Qed.

Section Clock.

Context (localTime : Text -> option (N * N * N)).

(** A line of the scan log list is not a log line to the viewer.  With a
    clock whose hours are below 24 (or an invalid date), in a line that
    begins with a bracket and the time [formatTime] gives, as every line
    of the list does: no level is recognized, no new entry is seen to
    start, and the pattern of the colourizer does not match, so that the
    line is shown as the converter renders it, without colours. *)
Theorem scan_log_lines_unrecognized (log : ScanLog) (rest : Text) :
  (forall h m s, localTime (createdAt log) = Some (h, m, s) -> (h < 24)%N) ->
  let line := cp "[" ++ formatTime localTime (createdAt log) ++ rest in
  logLine localTime log
  = cp "[" ++ formatTime localTime (createdAt log)
    ++ (cp "] [" ++ toUpperCase (level log) ++ cp "] " ++ content log)
  /\ extractLogLevel line = None
  /\ isNewEntryStart line = false
  /\ matchPrefix caseSensitive logLineRegex line = None
  /\ forall toHtml, colorizeLine toHtml line = toHtml line.
Proof.
  intros Hclock line.
  split; [reflexivity |].
  assert (H : extractLogLevel line = None
              /\ isNewEntryStart line = false
              /\ matchPrefix caseSensitive logLineRegex line = None).
  { unfold line, formatTime.
    destruct (localTime (createdAt log)) as [[[h m] s] |] eqn:E.
    - specialize (Hclock h m s eq_refl). apply hours_cases in Hclock.
      cbn [fmap option_fmap option_map fst snd].
      generalize (padStart2 (showReading (Some m)) ++ cp ":"
                  ++ padStart2 (showReading (Some s))).
      intros later. clear E.
      cbn [map seq In] in Hclock.
      repeat (destruct Hclock as [<- | Hclock];
              [ split; [vm_compute; reflexivity |];
                split; [| vm_compute; reflexivity];
                change isNewEntryStart
                  with (fun l =>
                          test caseSensitive
                            (Cat [Str "["; Plus Digit; Str "/"; Plus Digit; Str "]"]) l
                          || existsb (fun '(fl, pattern) => test fl pattern l)
                               (tl NEW_ENTRY_PATTERNS));
                cbv beta; apply orb_false_intro; [| vm_compute; reflexivity];
                unfold test; apply bool_decide_eq_false; intros [? Hsome];
                match type of Hsome with
                | matchPrefix _ _ ?l = _ =>
                    let l' := eval vm_compute in l in change l with l' in Hsome
                end;
                rewrite step_marker_fails in Hsome by reflexivity;
                discriminate Hsome
              |]).
      destruct Hclock.
    - cbn [fmap option_fmap option_map].
      repeat split; vm_compute; reflexivity. }
  destruct H as (H1 & H2 & H3).
  split; [exact H1 | split; [exact H2 | split; [exact H3 |]]].
  intros toHtml. unfold colorizeLine. now rewrite H3.
Qed.

End Clock.

Lemma scan_log_lines_unrecognized_witness :
  extractLogLevel (logLine noonClock firstLog) = None
  /\ colorizeLine encodeXML (logLine noonClock firstLog)
     = cp "[12:01:50] [INFO] scan started".
Proof.
  destruct (scan_log_lines_unrecognized noonClock firstLog
              (cp "] [" ++ toUpperCase (level firstLog) ++ cp "] " ++ content firstLog))
    as (Hline & Hlevel & _ & _ & Hcolor).
  - intros h m s [= <- _ _]. reflexivity.
  - rewrite <- Hline in Hlevel, Hcolor. split; [exact Hlevel |].
    rewrite Hcolor. vm_compute. reflexivity.
Defined.

End ScanLogFacts.

Section ScanLogCacheFacts.
Import Regex LogViewer ScanLogs Examples.

Context (localTime : Text -> option (N * N * N)).

Lemma contentMemo_fresh (logs : list ScanLog) (cache : Cache) (known : list ScanLog) :
  cache = initialCache
  \/ known <> [] /\ known `prefix_of` logs
     /\ cache = {| contentRef := logText localTime known;
                   lastLogCountRef := length known;
                   lastLogIdRef := ScanLogs.id <$> last known |} ->
  exists known',
    contentMemo localTime logs cache = (logText localTime logs, (contentMemo localTime logs cache).2)
    /\ ((contentMemo localTime logs cache).2 = initialCache
        \/ known' <> [] /\ known' `prefix_of` logs
           /\ (contentMemo localTime logs cache).2
              = {| contentRef := logText localTime known';
                   lastLogCountRef := length known';
                   lastLogIdRef := ScanLogs.id <$> last known' |}).
Proof.
  intros Hcache. unfold contentMemo.
  destruct (last logs) as [lastLog |] eqn:Elast.
  - destruct ((length logs =? lastLogCountRef cache)
              && bool_decide (Some (ScanLogs.id lastLog) = lastLogIdRef cache)) eqn:Ehit.
    + apply andb_prop in Ehit as [Hcount _]. apply Nat.eqb_eq in Hcount.
      destruct Hcache as [-> | (Hne & Hpre & ->)].
      * cbn [lastLogCountRef initialCache] in Hcount.
        destruct logs; [discriminate Elast | discriminate Hcount].
      * cbn [lastLogCountRef] in Hcount.
        assert (known = logs) as ->.
        { apply prefix_length_eq; [exact Hpre | lia]. }
        exists logs. cbn [snd contentRef]. split; [reflexivity |].
        right. auto.
    + exists logs. cbn [snd]. split; [reflexivity |]. right.
      split; [intros ->; discriminate Elast |]. split; [reflexivity |].
      now rewrite Elast.
  - apply last_None in Elast. subst logs. exists known. cbn [snd].
    split; [reflexivity |].
    destruct Hcache as [-> | (Hne & Hpre & _)]; [now left |].
    apply prefix_nil_inv in Hpre. contradiction.
Qed.

Lemma contents_fresh (renders : list (list ScanLog)) (previous : list ScanLog)
    (cache : Cache) (known : list ScanLog) :
  cache = initialCache
  \/ known <> [] /\ known `prefix_of` previous
     /\ cache = {| contentRef := logText localTime known;
                   lastLogCountRef := length known;
                   lastLogIdRef := ScanLogs.id <$> last known |} ->
  AppendOnly previous renders ->
  contents localTime renders cache = map (logText localTime) renders.
Proof.
  revert previous cache known.
  induction renders as [| logs rest IH]; intros previous cache known Hcache Hgrow;
    [reflexivity |].
  destruct Hgrow as [Hpre Hgrow]. cbn [contents map].
  destruct (contentMemo_fresh logs cache known) as (known' & Hmemo & Hcache').
  { destruct Hcache as [-> | (Hne & Hk & ->)]; [now left | right].
    split; [exact Hne |]. split; [now transitivity previous | reflexivity]. }
  rewrite Hmemo. f_equal. now apply (IH logs _ known').
Qed.

(** The cached text is the text of the list as long as the list only
    grows.  From the first render on, over log arrays each of which
    continues the one before: what the memo returns at a render is the
    text of that render's logs, whether it was computed anew or taken
    from the cache (which is keyed by the number of logs and the id of
    the last one). *)
Theorem content_fresh_when_appending (renders : list (list ScanLog)) :
  AppendOnly [] renders ->
  contents localTime renders initialCache = map (logText localTime) renders.
Proof. apply (contents_fresh renders [] initialCache []). now left. Qed.

End ScanLogCacheFacts.

Section ScanLogCacheExamples.
Import Regex LogViewer ScanLogs Examples.

Lemma content_fresh_when_appending_witness :
  contents noonClock [[]; [firstLog]; [firstLog]; [firstLog; secondLog]] initialCache
  = [ [];
      cp "[12:01:50] [INFO] scan started";
      cp "[12:01:50] [INFO] scan started";
      cp "[12:01:50] [INFO] scan started" ++ LF :: cp "[12:01:50] [ERROR] worker lost" ].
Proof.
  etransitivity.
  - apply (content_fresh_when_appending noonClock).
    cbn [AppendOnly]. repeat split;
      first [apply prefix_nil | reflexivity | now exists [secondLog]].
  - vm_compute. reflexivity.
Defined.

(** Where an entry is replaced and the number of logs and the last id
    stay the same, the memo returns the text it cached. *)
Lemma content_stale_when_replaced :
  contents noonClock [[firstLog; secondLog]; [otherLog; secondLog]] initialCache
  = [logText noonClock [firstLog; secondLog]; logText noonClock [firstLog; secondLog]]
  /\ logText noonClock [otherLog; secondLog] <> logText noonClock [firstLog; secondLog].
Proof. split; [vm_compute; reflexivity | vm_compute; discriminate]. Qed.

End ScanLogCacheExamples.

(* ===================================================================== *)
(** * Further theorems: the scan overview *)
(* ===================================================================== *)

Section StageDurationFacts.
Import ScanOverview.

Lemma round_bounds (q : Q) :
  (inject_Z (round q) - (1 # 2) <= q)%Q /\ (q < inject_Z (round q) + (1 # 2))%Q.
Proof.
  unfold round. pose proof (Qfloor_le (q + (1 # 2))) as Hle.
  pose proof (Qlt_floor (q + (1 # 2))) as Hlt.
  rewrite inject_Z_plus in Hlt. change (inject_Z 1) with 1%Q in Hlt.
  split; lra.
Qed.

Lemma round_between (q : Q) (lo hi : Z) :
  (inject_Z lo <= q)%Q -> (q < inject_Z hi)%Q -> (lo <= round q <= hi)%Z.
Proof.
  intros Hlo Hhi. destruct (round_bounds q) as [H1 H2].
  split.
  - assert (H : (inject_Z lo < inject_Z (round q + 1))%Q).
    { rewrite inject_Z_plus. change (inject_Z 1) with 1%Q. lra. }
    rewrite <- Zlt_Qlt in H. lia.
  - assert (H : (inject_Z (round q) < inject_Z (hi + 1))%Q).
    { rewrite inject_Z_plus. change (inject_Z 1) with 1%Q. lra. }
    rewrite <- Zlt_Qlt in H. lia.
Qed.

Lemma remainder_sixty (seconds : Q) :
  (0 <= seconds)%Q ->
  let minutes := Qfloor (seconds / 60) in
  (remainder seconds 60 == seconds - 60 * inject_Z minutes)%Q
  /\ (0 <= remainder seconds 60)%Q /\ (remainder seconds 60 < 60)%Q.
Proof.
  intros Hs minutes. unfold remainder, truncate. subst minutes.
  assert (Hx : (seconds == 60 * (seconds / 60))%Q) by field.
  generalize dependent (seconds / 60)%Q. intros x Hx.
  assert (Hx0 : (0 <= x)%Q) by lra.
  rewrite (proj2 (Qle_bool_iff 0 x) Hx0).
  pose proof (Qfloor_le x) as Hle. pose proof (Qlt_floor x) as Hlt.
  rewrite inject_Z_plus in Hlt. change (inject_Z 1) with 1%Q in Hlt.
  split; [reflexivity | split; lra].
Qed.

(** The stage duration shown is the duration to the nearest second.
    Below one second it is ["<1s"].  From one second to under a minute it
    is a whole number of seconds between 1 and 60, within half a second
    of the duration.  From a minute on it is whole minutes and a whole
    number of seconds between 0 and 60, which together are within half a
    second of the duration; the seconds are left out when they are zero.
    (The seconds can be 60: they are rounded after the minutes are taken
    off.) *)
Theorem stage_duration_nearest_second (seconds : Q) :
  ((seconds < 1)%Q -> formatStageDuration (Some seconds) = Some "<1s")
  /\ ((1 <= seconds)%Q -> (seconds < 60)%Q ->
      exists n,
        formatStageDuration (Some seconds) = Some (pretty n +:+ "s")
        /\ (1 <= n <= 60)%Z
        /\ (inject_Z n - (1 # 2) <= seconds)%Q
        /\ (seconds < inject_Z n + (1 # 2))%Q)
  /\ ((60 <= seconds)%Q ->
      exists minutes secs,
        formatStageDuration (Some seconds)
        = Some (if (0 <? secs)%Z
                then pretty minutes +:+ "m " +:+ pretty secs +:+ "s"
                else pretty minutes +:+ "m")
        /\ (1 <= minutes)%Z /\ (0 <= secs <= 60)%Z
        /\ (60 * inject_Z minutes + inject_Z secs - (1 # 2) <= seconds)%Q
        /\ (seconds < 60 * inject_Z minutes + inject_Z secs + (1 # 2))%Q).
Proof.
  unfold formatStageDuration. split; [| split].
  - intros H. destruct (Qlt_le_dec seconds 1) as [_ | H']; [reflexivity | lra].
  - intros H1 H60.
    destruct (Qlt_le_dec seconds 1) as [H' | _]; [lra |].
    destruct (Qlt_le_dec seconds 60) as [_ | H']; [| lra].
    exists (round seconds). split; [reflexivity |].
    destruct (round_bounds seconds) as [Hlo Hhi].
    split; [| split; [exact Hlo | exact Hhi]].
    apply round_between; [exact H1 |]. change (inject_Z 60) with 60%Q. lra.
  - intros H60.
    destruct (Qlt_le_dec seconds 1) as [H' | _]; [lra |].
    destruct (Qlt_le_dec seconds 60) as [H' | _]; [lra |].
    exists (Qfloor (seconds / 60)), (round (remainder seconds 60)).
    split; [destruct (0 <? round (remainder seconds 60))%Z; reflexivity |].
    destruct (remainder_sixty seconds ltac:(lra)) as (Hr & Hr0 & Hr60).
    destruct (round_bounds (remainder seconds 60)) as [Hlo Hhi].
    split; [| split; [| split; lra]].
    + assert (H : (Qfloor 1 <= Qfloor (seconds / 60))%Z).
      { apply Qfloor_resp_le. apply Qle_shift_div_l; lra. }
      exact H.
    + apply round_between; [exact Hr0 |]. change (inject_Z 60) with 60%Q. lra.
Qed.

Lemma stage_duration_nearest_second_witness :
  formatStageDuration (Some (1 # 4)) = Some "<1s"
  /\ (exists n, formatStageDuration (Some (119 # 2)) = Some (pretty n +:+ "s")
                /\ (1 <= n <= 60)%Z)
  /\ (exists minutes secs,
        formatStageDuration (Some (1196 # 10))
        = Some (if (0 <? secs)%Z
                then pretty minutes +:+ "m " +:+ pretty secs +:+ "s"
                else pretty minutes +:+ "m")
        /\ (1 <= minutes)%Z /\ (0 <= secs <= 60)%Z).
Proof.
  split; [| split].
  - apply (proj1 (stage_duration_nearest_second (1 # 4))). reflexivity.
  - destruct (proj1 (proj2 (stage_duration_nearest_second (119 # 2))))
      as (n & Hn & Hrange & _); [discriminate | reflexivity |].
    exists n. auto.
  - destruct (proj2 (proj2 (stage_duration_nearest_second (1196 # 10))))
      as (minutes & secs & H & Hm & Hs & _); [discriminate |].
    exists minutes, secs. auto.
Defined.

(** The seconds shown can be 60. *)
Lemma stage_duration_sixty_seconds :
  formatStageDuration (Some (119 # 2)) = Some "60s"
  /\ formatStageDuration (Some (1196 # 10)) = Some "1m 60s"
  /\ formatStageDuration (Some (120 # 1)) = Some "2m".
Proof. repeat split; vm_compute; reflexivity. Qed.

End StageDurationFacts.

(* ===================================================================== *)
(** * Further theorems: the callers of the response parser *)
(* ===================================================================== *)

Section AuthHookFacts.
Import Js ResponseParser AuthHooks Examples.

(** What a failed login, logout or password change shows.  From a
    failure whose response body is an error envelope with a code that is
    not empty, the code; from one whose body is a legacy envelope with a
    failed state (and no error envelope), the code ["SERVER_ERROR"], so
    that the legacy code and message are never shown; and the fallback
    message from every other failure: a body with an empty code, a body
    that is no envelope, and a failure without a response.  On [null]
    and [undefined] the handler throws. *)
Theorem auth_error_toast (fallbackKey : string) (error : JsValue) :
  let data := optionalProperty "data" (getProperty "response" error) in
  (isNullish error = true -> onError fallbackKey error = None)
  /\ (isNullish error = false ->
      (forall code,
         isErrorResponse data = true ->
         getProperty "code" (getProperty "error" data) = JString code ->
         onError fallbackKey error
         = Some (if String.eqb code "" then Error fallbackKey else ErrorFromCode code))
      /\ (isErrorResponse data = false -> isLegacyResponse data = true ->
          isLegacyErrorResponse data = true ->
          onError fallbackKey error = Some (ErrorFromCode "SERVER_ERROR"))
      /\ (isErrorResponse data = false ->
          isLegacyResponse data = false \/ isLegacyErrorResponse data = false ->
          onError fallbackKey error = Some (Error fallbackKey))
      /\ (isNullish (getProperty "response" error) = true ->
          onError fallbackKey error = Some (Error fallbackKey))).
Proof.
  intros data. unfold onError. fold data. split; [now intros -> |].
  intros ->.
  assert (Hother : isErrorResponse data = false ->
                   isLegacyResponse data = false \/ isLegacyErrorResponse data = false ->
                   getErrorCode data = None).
  { intros He Hl. unfold getErrorCode. rewrite He.
    destruct Hl as [-> | ->]; now rewrite ?andb_false_r. }
  split; [| split; [| split]].
  - intros code He Hcode. rewrite (getErrorCode_error _ _ He Hcode).
    now destruct (String.eqb code "").
  - intros He Hl Hs. now rewrite (getErrorCode_legacy _ He Hl Hs).
  - intros He Hl. now rewrite (Hother He Hl).
  - intros Hr. unfold data, optionalProperty. rewrite Hr.
    reflexivity.
Qed.

Lemma auth_error_toast_witness :
  useLoginOnError notFoundFailure = Some (ErrorFromCode "NOT_FOUND")
  /\ useLogoutOnError legacyFailure = Some (ErrorFromCode "SERVER_ERROR")
  /\ useChangePasswordOnError emptyMessageError
     = Some (Error "toast.auth.changePassword.error").
Proof.
  split; [| split].
  - apply (proj1 (proj2 (auth_error_toast "auth.loginFailed" notFoundFailure) eq_refl)
             "NOT_FOUND"); reflexivity.
  - apply (proj1 (proj2 (proj2 (auth_error_toast "errors.unknown" legacyFailure)
                                  eq_refl)));
      reflexivity.
  - apply (proj2 (proj2 (proj2 (auth_error_toast "toast.auth.changePassword.error"
                                  emptyMessageError) eq_refl))).
    reflexivity.
Defined.

End AuthHookFacts.

Section CommandHookFacts.
Import CommandHooks.

Lemma pages_concat {A : Type} (l : list A) (n m : nat) :
  concat (map (fun k => take n (drop (k * n) l)) (seq 0 m)) = take (m * n) l.
Proof.
  induction m as [| m IH]; [reflexivity |].
  rewrite seq_S, map_app, concat_app, IH. cbn [map concat plus].
  rewrite app_nil_r, take_take_drop. f_equal. lia.
Qed.

Lemma slice_page {A : Type} (l : list A) (n size : Z) :
  (1 <= n)%Z -> (0 < size)%Z ->
  slice l ((n - 1) * size) ((n - 1) * size + size)
  = take (Z.to_nat size) (drop (Z.to_nat ((n - 1) * size)) l).
Proof.
  intros Hn Hsize. unfold slice, sliceIndex.
  assert (Hstart : (0 <= (n - 1) * size)%Z) by nia.
  rewrite (proj2 (Z.ltb_ge _ _)) by lia.
  rewrite (proj2 (Z.ltb_ge _ _)) by lia.
  set (start := Z.to_nat ((n - 1) * size)).
  replace (Z.to_nat ((n - 1) * size + size)) with (start + Z.to_nat size) by lia.
  destruct (decide (length l <= start)) as [Hout | Hin].
  - rewrite Nat.min_r by lia. rewrite !drop_ge by lia. now rewrite !take_nil.
  - rewrite (Nat.min_l start) by lia.
    destruct (decide (start + Z.to_nat size <= length l)) as [Hfull | Hpart].
    + rewrite Nat.min_l by lia. f_equal. lia.
    + rewrite Nat.min_r by lia.
      rewrite !take_ge; [reflexivity | |]; rewrite length_drop; lia.
Qed.

(** The mock listing pages through the commands without losing or
    repeating any.  For a page size that is positive (ten when none is
    asked for), and whatever the tool filter: page [n] (from 1) holds the
    [n]-th run of at most page-size commands; the pages from 1 to the
    page count reported, put one after the other, are the filtered
    commands; the page count is the least number of pages that hold them
    all; every page after it is empty; and a request without a page
    number (or with page 0) gets the first page. *)
Theorem command_pages_partition (params : GetCommandsRequest) :
  let size := default 10%Z (truthyNumber (pageSize params)) in
  (0 < size)%Z ->
  let all := filteredCommands params in
  let count := totalPages (useCommandsQueryFn params) in
  let pageOf := fun n => commands (useCommandsQueryFn (pageRequest params n)) in
  (forall n, (1 <= n)%Z ->
             pageOf n = take (Z.to_nat size) (drop (Z.to_nat ((n - 1) * size)) all)
             /\ length (pageOf n) <= Z.to_nat size)
  /\ concat (map (fun n => pageOf (Z.of_nat n)) (seq 1 (Z.to_nat count))) = all
  /\ ((count - 1) * size < Z.of_nat (length all) <= count * size)%Z
  /\ (forall n, (count < n)%Z -> pageOf n = [])
  /\ (truthyNumber (page params) = None ->
      commands (useCommandsQueryFn params) = pageOf 1%Z).
Proof.
  intros size Hsize all count pageOf.
  assert (Hpage : forall n, (1 <= n)%Z ->
            pageOf n = take (Z.to_nat size) (drop (Z.to_nat ((n - 1) * size)) all)).
  { intros n Hn. unfold pageOf, useCommandsQueryFn.
    cbn [commands pageRequest page pageSize truthyNumber].
    replace (n =? 0)%Z with false by (symmetry; apply Z.eqb_neq; lia).
    cbn [default]. fold size.
    change (filteredCommands (pageRequest params n)) with all.
    now apply slice_page. }
  assert (Hcount : ((count - 1) * size < Z.of_nat (length all) <= count * size)%Z).
  { unfold count, useCommandsQueryFn. cbn [totalPages]. fold size. fold all.
    now apply ceil_quotient_bounds. }
  split; [| split; [| split; [exact Hcount | split]]].
  - intros n Hn. split; [now apply Hpage |].
    rewrite (Hpage n Hn), length_take. lia.
  - rewrite <- seq_shift, map_map.
    rewrite (map_ext _ (fun k => take (Z.to_nat size) (drop (k * Z.to_nat size) all))).
    + rewrite pages_concat. apply take_ge. nia.
    + intros k. rewrite Hpage by lia. do 2 f_equal. nia.
  - intros n Hn. rewrite Hpage by nia. rewrite drop_ge; [apply take_nil |]. nia.
  - intros Hnone. unfold pageOf, useCommandsQueryFn at 1.
    cbn [commands]. rewrite Hnone.
    unfold useCommandsQueryFn. cbn [commands pageRequest page pageSize truthyNumber].
    reflexivity.
Qed.

Lemma command_pages_partition_witness :
  map (fun cmd => CommandHooks.id cmd)
    (commands (useCommandsQueryFn
                 {| page := Some 2%Z; pageSize := Some 3%Z; requestToolId := None |}))
  = [4%Z; 5%Z; 6%Z]
  /\ totalPages (useCommandsQueryFn
                   {| page := None; pageSize := Some 3%Z; requestToolId := None |})
     = 3%Z.
Proof.
  pose proof (command_pages_partition
                {| page := None; pageSize := Some 3%Z; requestToolId := None |}
                ltac:(reflexivity)) as (Hpage & _ & Hcount & _).
  split.
  - etransitivity.
    + apply (f_equal (map (fun cmd => CommandHooks.id cmd))).
      exact (proj1 (Hpage 2%Z ltac:(lia))).
    + reflexivity.
  - set (count := totalPages _) in *.
    change ((count - 1) * 3 < 8 <= count * 3)%Z in Hcount. lia.
Defined.

End CommandHookFacts.

Section DurationFacts.
Import ScanOverview.

Context (getTime : string -> option Z) (now : Z).

(** The duration of a scan is shown in whole minutes elapsed, rounded
    down.  With a start and an end that are valid dates (the end being
    the present when the scan has no completion time): from an hour on
    it is written as hours and minutes, the minutes below 60, and below
    an hour as minutes alone; when the end lies before the start the
    minutes are negative.  Without a start time it is ["-"]. *)
Theorem duration_whole_minutes (started : string) (completedAt : option string)
    (startMs finishMs : Z) :
  started <> "" ->
  getTime started = Some startMs ->
  match TableUtils.truthyString completedAt with
  | Some completed => getTime completed = Some finishMs
  | None => finishMs = now
  end ->
  exists minutes,
    (minutes * 60000 <= finishMs - startMs < (minutes + 1) * 60000)%Z
    /\ formatDuration getTime now (Some started) completedAt
       = (if (60 <=? minutes)%Z
          then pretty (minutes / 60)%Z +:+ "h " +:+ pretty (minutes mod 60)%Z +:+ "m"
          else pretty minutes +:+ "m")
    /\ (0 <= minutes mod 60 < 60)%Z
    /\ ((60 <= minutes)%Z -> (1 <= minutes / 60)%Z
                             /\ minutes = (60 * (minutes / 60) + minutes mod 60)%Z)
    /\ formatDuration getTime now None completedAt = "-"
    /\ formatDuration getTime now (Some "") completedAt = "-".
Proof.
  intros Hne Hstart Hfinish.
  exists ((finishMs - startMs) / 60000)%Z.
  set (minutes := ((finishMs - startMs) / 60000)%Z).
  split; [| split; [| split; [| split; [| split]]]]; try reflexivity.
  - unfold minutes.
    pose proof (Z.div_mod (finishMs - startMs) 60000 ltac:(lia)).
    pose proof (Z.mod_pos_bound (finishMs - startMs) 60000 ltac:(lia)). lia.
  - unfold formatDuration, TableUtils.truthyString at 1.
    rewrite (proj2 (String.eqb_neq started "") Hne), Hstart.
    assert (Hend : match TableUtils.truthyString completedAt with
                   | Some completed => getTime completed
                   | None => Some now
                   end = Some finishMs).
    { destruct (TableUtils.truthyString completedAt); [exact Hfinish | now subst]. }
    rewrite Hend. fold minutes.
    destruct (60 <=? minutes)%Z eqn:E.
    + apply Z.leb_le in E.
      assert (H1 : (1 <= minutes / 60)%Z) by (apply Z.div_le_lower_bound; lia).
      rewrite (proj2 (Z.ltb_lt 0 (minutes / 60)) ltac:(lia)).
      rewrite Z.rem_mod_nonneg by lia. reflexivity.
    + apply Z.leb_gt in E.
      assert (H0 : (minutes / 60 <= 0)%Z).
      { assert (minutes / 60 < 1)%Z by (apply Z.div_lt_upper_bound; lia). lia. }
      now rewrite (proj2 (Z.ltb_ge 0 (minutes / 60)) H0).
  - apply Z.mod_pos_bound. lia.
  - intros H. split; [apply Z.div_le_lower_bound; lia |].
    apply Z.div_mod. lia.
Qed.

End DurationFacts.

Section DurationExamples.
Import ScanOverview Examples.

Lemma duration_whole_minutes_witness :
  formatDuration secondsClock 0 (Some "0") (Some "7500") = "2h 5m"
  /\ formatDuration secondsClock 90000 (Some "0") None = "1m".
Proof.
  split.
  - destruct (duration_whole_minutes secondsClock 0 "0" (Some "7500") 0 7500000
                ltac:(discriminate) eq_refl eq_refl) as (minutes & Hm & -> & _).
    replace minutes with 125%Z by lia. reflexivity.
  - destruct (duration_whole_minutes secondsClock 90000 "0" None 0 90000
                ltac:(discriminate) eq_refl eq_refl) as (minutes & Hm & -> & _).
    replace minutes with 1%Z by lia. reflexivity.
Defined.

End DurationExamples.

Section AutoSizingSettles.
Import Js TableUtils DataTable.

Context (engine : Engine).
Context (measureText : string -> string -> Q).
Context (toLocaleString : string -> string -> option string).

(** Whether auto-sizing ever settles is decided by the columns.  At a
    render with auto-sizing on, rows present and nothing calculated yet,
    a run of the effect that does not throw has calculated once, and it
    has set the calculated flag exactly when some column has a key
    ([accessorKey] or [id]) other than [__proto__] and is auto-sized or
    has a truthy [size]; when no column is like that it has stored
    nothing and left the state as it was, whatever the rows, so that the
    next render calculates again. *)
Theorem auto_sizing_settles (input : SizingInput) (st st' : SizingState) (n : nat) :
  enableAutoColumnSizing input = true ->
  rows input <> [] ->
  autoSizingCalculated st = false ->
  autoSizingEffect engine measureText toLocaleString input st = Some (st', n) ->
  let contributes :=
    exists column key,
      In column (columnDefs input) /\ columnId column = Some key
      /\ key <> "__proto__"
      /\ (enableAutoSize column <> Some false
          \/ exists s, size column = Some s /\ ~ (s == 0)%Q) in
  n = 1
  /\ (autoSizingCalculated st' = true <-> contributes)
  /\ (~ contributes -> st' = st).
Proof.
  intros He Hr Hc Hrun contributes.
  rewrite (autoSizingEffect_run engine measureText toLocaleString input st He Hr Hc) in Hrun.
  destruct (calculateColumnWidths engine measureText toLocaleString (sizingOptions input))
    as [widths |] eqn:Hres; [| discriminate].
  assert (Hkeys : widths <> ∅ <-> contributes).
  { split.
    - intros Hne. apply map_choose in Hne as (key & w & Hw).
      assert (Hsome : is_Some (widths !! key)) by eauto.
      apply (calculateColumnWidths_key _ _ _ _ widths key Hres) in Hsome
        as (Hkey & column & Hin & Hid & Hcol).
      exists column, key. split; [exact Hin | split; [exact Hid | split; [exact Hkey |]]].
      destruct Hcol as [Hon | [s Hs]]; [now left | right].
      exists s. now apply truthyNumber_Some.
    - intros (column & key & Hin & Hid & Hkey & Hcol) Hempty.
      assert (Hsome : is_Some (widths !! key)).
      { apply (calculateColumnWidths_key _ _ _ _ widths key Hres).
        split; [exact Hkey |]. exists column. split; [exact Hin |].
        split; [exact Hid |]. destruct Hcol as [Hon | (s & Hs & Hz)]; [now left | right].
        exists s. now apply truthyNumber_Some. }
      rewrite Hempty, lookup_empty in Hsome. now destruct Hsome. }
  destruct (decide (widths = ∅)) as [Hempty | Hne]; injection Hrun as <- <-.
  - split; [reflexivity | split; [| reflexivity]].
    rewrite Hc. split; [discriminate |].
    intros H. apply Hkeys in H. contradiction.
  - split; [reflexivity | split].
    + cbn [autoSizingCalculated]. split; [intros _; now apply Hkeys | reflexivity].
    + intros Hno. contradiction Hno. now apply Hkeys.
Qed.

End AutoSizingSettles.

Section AutoSizingSettlesExamples.
Import Js TableUtils DataTable Examples.

Lemma auto_sizing_settles_witness :
  exists st,
    autoSizingEffect sampleEngine eightPerChar noDateFormat urlRender notCalculated
    = Some (st, 1)
    /\ autoSizingCalculated st = true.
Proof.
  eexists. split; [vm_compute; reflexivity |].
  apply (proj1 (proj2 (auto_sizing_settles sampleEngine eightPerChar noDateFormat
                         urlRender notCalculated _ 1
                         eq_refl ltac:(discriminate) eq_refl eq_refl))).
  exists urlColumn, "url". split; [now left | split; [reflexivity |]].
  split; [discriminate | left; discriminate].
Defined.

End AutoSizingSettlesExamples.
